(** * VideoSum: the live audio transcription core

    A shallow embedding of the live transcription pipeline of the
    repository:

    - [services/geminiService] : [encode], [createBlob] and the class
      [LiveTranscriber] ([connect], [start], [stop], the [onmessage] and
      [onaudioprocess] callbacks);
    - [App] : the [liveText] state with [handleLiveUpdate],
      [handleLiveStart], [handleVideoSelect], [handleClear] and
      [restoreHistoryItem];
    - [components/VideoUploader] : [startLiveRecording],
      [stopLiveRecording] and [toggleLivePlayback].

    Around this core, the rest of the path of a summary is embedded as
    well:

    - [services/geminiService] : [getPromptForMode],
      [generateVideoSummary] and [generateSpeech];
    - [App] : the history ([saveToHistory], [deleteHistoryItem],
      [clearHistory], the effect that loads it) and the requests for a
      summary made by [handleVideoSelect] and [handleGenerate], with
      their continuations;
    - [components/VideoUploader] : [processFile], [formatDuration] and the
      videos that [handleUrlSubmit] selects.

    JavaScript numbers are IEEE 754 values ([spec_float] of the Standard
    Library), typed arrays are lists updated by index, strings are
    [string], promises live in a store addressed by index, and the host
    (audio subsystem, remote endpoint, React) is an explicit log of the
    calls made on it. *)

From stdpp Require Import base list.
From Stdlib Require Import ZArith QArith Qround Qabs Lia Bool Ascii String.
From Stdlib Require Import Floats.SpecFloat.
From Stdlib Require Import DecimalString DecimalNat.

Local Open Scope Z_scope.

(** ** Numbers: IEEE 754 values, [*] and the [ToInt16] conversion *)

Module Number.

(** A [Float32Array] element is a binary32 value. *)
Definition is_float32 (x : spec_float) : bool := valid_binary 24 128 x.

(** A JavaScript number is a binary64 value. *)
Definition is_float64 (x : spec_float) : bool := valid_binary 53 1024 x.

(** The literal [32768], as the binary64 value [2^52 * 2^-37]. *)
Definition lit_32768 : spec_float := S754_finite false 4503599627370496 (-37).

(** [x * y] on numbers: binary64 multiplication, round to nearest even. *)
Definition mul (x y : spec_float) : spec_float := SFmul 53 1024 x y.

(** [truncate(ℝ(x))] of ECMAScript, for a finite [x]: the integer part of
    [±m * 2^e], rounding toward zero. *)
Definition truncate (x : spec_float) : Z :=
  match x with
  | S754_finite s m e => cond_Zopp s (Z.shiftl (Z.pos m) e)
  | _ => 0
  end.

(** [ToInt16(x)]: NaN, zeros and infinities give 0; a finite number is
    truncated, reduced modulo 2^16 and read as a signed 16-bit integer.
    This is the conversion a store into an [Int16Array] applies. *)
Definition ToInt16 (x : spec_float) : Z :=
  match x with
  | S754_finite _ _ _ =>
      let int16bit := truncate x mod 65536 in
      if 32768 <=? int16bit then int16bit - 65536 else int16bit
  | _ => 0
  end.

(** What the store [int16[i] = x * 32768] writes. *)
Definition sample_int16 (x : spec_float) : Z := ToInt16 (mul x lit_32768).

(** The real value of a finite number, as an exact rational. *)
Definition pow2Q (e : Z) : Q :=
  if 0 <=? e then inject_Z (2 ^ e) else 1 # Z.to_pos (2 ^ (- e)).

Definition to_Q (x : spec_float) : Q :=
  match x with
  | S754_finite s m e => (inject_Z (cond_Zopp s (Z.pos m)) * pow2Q e)%Q
  | _ => 0%Q
  end.

Definition is_finite (x : spec_float) : bool :=
  match x with
  | S754_finite _ _ _ | S754_zero _ => true
  | _ => false
  end.

(** Truncation of a rational toward zero. *)
Definition Qtruncate (q : Q) : Z := Z.quot (Qnum q) (Z.pos (Qden q)).

(** Reading an integer modulo 2^16 as a signed 16-bit integer. *)
Definition wrap16 (n : Z) : Z :=
  let u := n mod 65536 in if 32768 <=? u then u - 65536 else u.

(** The spec's [round]: the nearest integer, ties toward +infinity (as
    [Math.round]). *)
Definition round_nearest (q : Q) : Z := Qfloor (q + (1 # 2))%Q.

End Number.

(** ** Strings and the host's base64 functions

    A JavaScript string is modelled as a [string]; in a binary string every
    character code is below 256.  [btoa] and [atob] are functions of the
    host; they are modelled after RFC 4648 section 4 and the forgiving
    base64 decoding of the WHATWG Infra standard. *)

Module Base64.

Definition charCode (c : ascii) : Z := Z.of_nat (nat_of_ascii c).

(** [String.fromCharCode(b)] *)
Definition fromCharCode (b : Z) : ascii := ascii_of_nat (Z.to_nat b).

Definition alphabet : list ascii :=
  list_ascii_of_string
    "ABCDEFGHIJKLMNOPQRSTUVWXYZabcdefghijklmnopqrstuvwxyz0123456789+/".

Definition pad_char : ascii := "="%char.

Definition is_byte (b : Z) : Prop := 0 <= b < 256.
Definition is_sextet (v : Z) : Prop := 0 <= v < 64.

(** The character of a 6-bit value. *)
Definition digit (v : Z) : ascii := nth (Z.to_nat v) alphabet pad_char.

(** The 6-bit value of a character of the alphabet. *)
Definition value (c : ascii) : option Z :=
  let n := charCode c in
  if (65 <=? n) && (n <=? 90) then Some (n - 65)
  else if (97 <=? n) && (n <=? 122) then Some (n - 71)
  else if (48 <=? n) && (n <=? 57) then Some (n + 4)
  else if n =? 43 then Some 62
  else if n =? 47 then Some 63
  else None.

(** Three 8-bit groups are read as one 24-bit group and cut into four
    6-bit groups; a final group of one or two bytes is padded with zero
    bits and gives two or three 6-bit groups. *)
Fixpoint sextets (bytes : list Z) : list Z :=
  match bytes with
  | a :: b :: c :: rest =>
      let n := a * 65536 + b * 256 + c in
      n / 262144 :: n / 4096 mod 64 :: n / 64 mod 64 :: n mod 64 :: sextets rest
  | [a; b] =>
      let n := a * 65536 + b * 256 in
      [n / 262144; n / 4096 mod 64; n / 64 mod 64]
  | [a] =>
      let n := a * 65536 in
      [n / 262144; n / 4096 mod 64]
  | [] => []
  end.

Definition padding (len : nat) : list ascii :=
  replicate ((3 - len mod 3) mod 3)%nat pad_char.

(** [btoa(binary)] *)
Definition btoa (binary : string) : string :=
  let bytes := map charCode (list_ascii_of_string binary) in
  string_of_list_ascii (map digit (sextets bytes) ++ padding (List.length bytes)).

Definition is_whitespace (c : ascii) : bool :=
  let n := charCode c in
  (n =? 9) || (n =? 10) || (n =? 12) || (n =? 13) || (n =? 32).

(** Remove one or two trailing [=]. *)
Definition strip_padding (cs : list ascii) : list ascii :=
  match rev cs with
  | p :: q :: r =>
      if Ascii.eqb p pad_char
      then if Ascii.eqb q pad_char then rev r else rev (q :: r)
      else cs
  | [p] => if Ascii.eqb p pad_char then [] else cs
  | [] => cs
  end.

(** Four 6-bit groups give three bytes; a final group of two or three
    6-bit groups gives one or two bytes, its last 4 or 2 bits being
    discarded. *)
Fixpoint octets (vs : list Z) : list Z :=
  match vs with
  | a :: b :: c :: d :: rest =>
      let n := ((a * 64 + b) * 64 + c) * 64 + d in
      n / 65536 :: n / 256 mod 256 :: n mod 256 :: octets rest
  | [a; b; c] =>
      let n := ((a * 64 + b) * 64 + c) / 4 in
      [n / 256; n mod 256]
  | [a; b] => [(a * 64 + b) / 16]
  | _ => []
  end.

Fixpoint values (cs : list ascii) : option (list Z) :=
  match cs with
  | [] => Some []
  | c :: cs' =>
      match value c, values cs' with
      | Some v, Some vs => Some (v :: vs)
      | _, _ => None
      end
  end.

(** [atob(data)]; [None] stands for the [InvalidCharacterError]. *)
Definition atob (data : string) : option string :=
  let cs := List.filter (fun c => negb (is_whitespace c)) (list_ascii_of_string data) in
  let cs := if (List.length cs mod 4 =? 0)%nat then strip_padding cs else cs in
  if (List.length cs mod 4 =? 1)%nat then None
  else match values cs with
       | Some vs => Some (string_of_list_ascii (map fromCharCode (octets vs)))
       | None => None
       end.

End Base64.

(** ** The Audio Frame Encoder: [encode] and [createBlob] *)

Module Encoder.
Import Number.

(** A counted loop [for (let i = 0; i < n; i++) body]. *)
Definition for_loop {S : Type} (n : nat) (body : nat -> S -> S) (s : S) : S :=
  fold_left (fun s i => body i s) (seq 0 n) s.

(** An [ArrayBuffer] is a list of bytes.  [Uint8Array] and [Int16Array] are
    views of it; the 16-bit view is little-endian, as on every platform
    the application runs on. *)
Abbreviation buffer := (list Z).

(** [new Int16Array(l)]: a fresh buffer of [2 * l] zero bytes. *)
Definition new_Int16Array (l : nat) : buffer := replicate (2 * l) 0.

(** The two bytes of a 16-bit integer, low byte first. *)
Definition bytes16 (v : Z) : list Z :=
  [v mod 65536 mod 256; v mod 65536 / 256].

(** [int16[i] = v] for an integer [v] already converted by [ToInt16];
    out of range the store does nothing. *)
Definition set_int16 (buf : buffer) (i : nat) (v : Z) : buffer :=
  let u := v mod 65536 in
  <[(2 * i + 1)%nat := u / 256]> (<[(2 * i)%nat := u mod 256]> buf).

(** [int16[i]] *)
Definition get_int16 (buf : buffer) (i : nat) : option Z :=
  match buf !! (2 * i)%nat, buf !! (2 * i + 1)%nat with
  | Some lo, Some hi => Some (wrap16 (lo + 256 * hi))
  | _, _ => None
  end.

(** All the elements of the 16-bit view of a buffer. *)
Fixpoint int16_view (buf : buffer) : list Z :=
  match buf with
  | lo :: hi :: rest => wrap16 (lo + 256 * hi) :: int16_view rest
  | _ => []
  end.

(** [data[i]] of a [Float32Array]; out of range it is [undefined], which
    the multiplication turns into NaN. *)
Definition get_float32 (data : list spec_float) (i : nat) : spec_float :=
  default S754_nan (data !! i).

(** [function encode(bytes: Uint8Array)] *)
Definition encode (bytes : buffer) : string :=
  let len := List.length bytes in
  let binary :=
    for_loop len
      (fun i binary =>
         (binary ++ String (Base64.fromCharCode (default 0 (bytes !! i))) "")%string)
      ""%string in
  Base64.btoa binary.

Record EncodedChunk := { data : string; mimeType : string }.

(** The loop of [createBlob]: [int16[i] = data[i] * 32768]. *)
Definition fill_int16 (data : list spec_float) (int16 : buffer) : buffer :=
  for_loop (List.length data)
    (fun i int16 => set_int16 int16 i (ToInt16 (mul (get_float32 data i) lit_32768)))
    int16.

(** The [Int16Array] that [createBlob] builds. *)
Definition createBlob_int16 (data : list spec_float) : buffer :=
  fill_int16 data (new_Int16Array (List.length data)).

(** [function createBlob(data: Float32Array)] *)
Definition createBlob (data : list spec_float) : EncodedChunk :=
  {| data := encode (createBlob_int16 data);
     mimeType := "audio/pcm;rate=16000" |}.

(** The decoding loop of [generateSpeech]: [atob], then one byte per
    character code. *)
Definition decode (base64 : string) : option buffer :=
  match Base64.atob base64 with
  | Some binaryString =>
      let len := String.length binaryString in
      Some (for_loop len
              (fun i bytes =>
                 <[i := match String.get i binaryString with
                        | Some c => Base64.charCode c
                        | None => 0
                        end]> bytes)
              (replicate len 0))
  | None => None
  end.

(** Decoding a chunk: base64-decode its data and read the bytes as
    little-endian signed 16-bit integers. *)
Definition decode_chunk (c : EncodedChunk) : option (list Z) :=
  match decode (data c) with
  | Some bytes => Some (int16_view bytes)
  | None => None
  end.

(** *** [createBlob] on a heap of typed arrays

    The same function with its arrays in a store, to state what it reads
    and writes: [data] is a reference to a [Float32Array], and the
    [Int16Array] is allocated in the store. *)

Record heap := {
  float32_arrays : list (list spec_float);
  array_buffers : list buffer
}.

Definition load_float32 (h : heap) (a i : nat) : spec_float :=
  get_float32 (default [] (float32_arrays h !! a)) i.

Definition alloc_buffer (b : buffer) (h : heap) : nat * heap :=
  (List.length (array_buffers h),
   {| float32_arrays := float32_arrays h;
      array_buffers := array_buffers h ++ [b] |}).

Definition store_int16 (h : heap) (b i : nat) (v : Z) : heap :=
  {| float32_arrays := float32_arrays h;
     array_buffers :=
       match array_buffers h !! b with
       | Some buf => <[b := set_int16 buf i v]> (array_buffers h)
       | None => array_buffers h
       end |}.

(** [None] stands for a reference that is not a [Float32Array] of the
    heap. *)
Definition createBlob_heap (data : nat) (h : heap) : option (EncodedChunk * heap) :=
  match float32_arrays h !! data with
  | None => None
  | Some samples =>
      let l := List.length samples in
      let '(int16, h) := alloc_buffer (new_Int16Array l) h in
      let h :=
        for_loop l
          (fun i h =>
             store_int16 h int16 i (ToInt16 (mul (load_float32 h data i) lit_32768)))
          h in
      Some ({| data := encode (default [] (array_buffers h !! int16));
               mimeType := "audio/pcm;rate=16000" |}, h)
  end.

(** Sample values: 0.75/32768, 0.5, 1.0 and -1.0 as binary32. *)
Definition three_quarters_of_a_step : spec_float := S754_finite false 12582912 (-39).
Definition one_half : spec_float := S754_finite false 8388608 (-24).
Definition plus_one : spec_float := S754_finite false 8388608 (-23).
Definition minus_one : spec_float := S754_finite true 8388608 (-23).

(** A sample that is a finite binary32 value in [-1, 1). *)
Definition unclipped (s : spec_float) : Prop :=
  is_float32 s = true /\ is_finite s = true /\
  (inject_Z (-1) <= to_Q s)%Q /\ (to_Q s < inject_Z 1)%Q.

(** A sample that is a finite binary32 value in the range -1.0..1.0, both
    ends included. *)
Definition in_unit_range (s : spec_float) : Prop :=
  is_float32 s = true /\ is_finite s = true /\
  (inject_Z (-1) <= to_Q s)%Q /\ (to_Q s <= inject_Z 1)%Q.

End Encoder.

(** ** The application state: [App]

    The state that the live transcript interacts with: the selected video,
    the summary mode, the analysis state and [liveText].  The theme, the
    processing tier and the history list kept in local storage never meet
    [liveText] and are left out. *)

Module App.

Inductive VideoSourceType := upload | url | youtube | record.

Record VideoData := {
  id : string;
  sourceType : VideoSourceType;
  name : string
}.

Inductive SummaryMode := OVERVIEW | KEY_POINTS | ACTION_ITEMS | SENTIMENT | TRANSCRIPT.

Record AnalysisState := {
  isLoading : bool;
  error : option string;
  result : option string
}.

Record HistoryItem := {
  item_id : string;
  item_sourceType : VideoSourceType;
  item_videoName : string;
  item_mode : SummaryMode;
  item_resultText : string
}.

Record state := {
  video : option VideoData;
  currentVideoId : option string;
  mode : SummaryMode;
  analysis : AnalysisState;
  liveText : string
}.

Definition initial : state :=
  {| video := None; currentVideoId := None; mode := OVERVIEW;
     analysis := {| isLoading := false; error := None; result := None |};
     liveText := "" |}.

Definition setLiveText (f : string -> string) (s : state) : state :=
  {| video := video s; currentVideoId := currentVideoId s; mode := mode s;
     analysis := analysis s; liveText := f (liveText s) |}.

(** The truth value of a string: it is not empty. *)
Definition truthy (s : string) : bool :=
  match s with EmptyString => false | String _ _ => true end.

(** [setLiveText(prev => prev + (prev ? " " : "") + text)] *)
Definition handleLiveUpdate (text : string) (s : state) : state :=
  setLiveText (fun prev => (prev ++ (if truthy prev then " " else "") ++ text)%string) s.

(** [setLiveText('')] *)
Definition handleLiveStart (s : state) : state :=
  setLiveText (fun _ => ""%string) s.

Definition is_record (t : VideoSourceType) : bool :=
  match t with record => true | _ => false end.

Definition defaultMode (t : VideoSourceType) : SummaryMode :=
  match t with
  | youtube | url => OVERVIEW
  | _ => TRANSCRIPT
  end.

(** [handleVideoSelect], up to the call of [generateVideoSummary]. *)
Definition handleVideoSelect (data : VideoData) (s : state) : state :=
  {| video := Some data;
     currentVideoId := Some (id data);
     mode := defaultMode (sourceType data);
     analysis := {| isLoading := true; error := None; result := None |};
     liveText := if is_record (sourceType data) then liveText s else ""%string |}.

(** The two continuations of [generateVideoSummary] in
    [handleVideoSelect]: they apply only while the video is the current
    one. *)
Definition is_current (vid : string) (s : state) : bool :=
  match currentVideoId s with
  | Some i => String.eqb i vid
  | None => false
  end.

Definition summaryResolved (vid : string) (text : string) (s : state) : state :=
  if is_current vid s then
    {| video := video s; currentVideoId := currentVideoId s; mode := mode s;
       analysis := {| isLoading := false; error := None; result := Some text |};
       liveText := liveText s |}
  else s.

Definition summaryRejected (vid : string) (message : string) (s : state) : state :=
  if is_current vid s then
    {| video := video s; currentVideoId := currentVideoId s; mode := mode s;
       analysis := {| isLoading := false; error := Some message; result := None |};
       liveText := liveText s |}
  else s.

Definition handleClear (s : state) : state :=
  {| video := None; currentVideoId := None; mode := mode s;
     analysis := {| isLoading := false; error := None; result := None |};
     liveText := "" |}.

Definition restoreHistoryItem (item : HistoryItem) (s : state) : state :=
  {| video := Some {| id := item_id item; sourceType := item_sourceType item;
                      name := item_videoName item |};
     currentVideoId := currentVideoId s;
     mode := item_mode item;
     analysis := {| isLoading := false; error := None;
                    result := Some (item_resultText item) |};
     liveText := "" |}.

Definition setMode (m : SummaryMode) (s : state) : state :=
  {| video := video s; currentVideoId := currentVideoId s; mode := m;
     analysis := analysis s; liveText := liveText s |}.

Definition setAnalysis (f : AnalysisState -> AnalysisState) (s : state) : state :=
  {| video := video s; currentVideoId := currentVideoId s; mode := mode s;
     analysis := f (analysis s); liveText := liveText s |}.

(** [handleGenerate] up to its [await], and its two continuations. *)
Definition handleGenerate (s : state) : state :=
  match video s with
  | None => s
  | Some _ =>
      setAnalysis (fun prev => {| isLoading := true; error := None;
                                  result := result prev |}) s
  end.

Definition generateResolved (text : string) (s : state) : state :=
  setAnalysis (fun _ => {| isLoading := false; error := None;
                           result := Some text |}) s.

Definition generateRejected (message : string) (s : state) : state :=
  setAnalysis (fun _ => {| isLoading := false; error := Some message;
                           result := None |}) s.

(** The handlers of [App], as the events that drive its state. *)
Inductive event :=
| VideoSelect (data : VideoData)
| SummaryResolved (vid text : string)
| SummaryRejected (vid message : string)
| Clear
| Generate
| GenerateResolved (text : string)
| GenerateRejected (message : string)
| SetMode (m : SummaryMode)
| RestoreHistory (item : HistoryItem)
| LiveUpdate (text : string)
| LiveStart.

Definition step (e : event) (s : state) : state :=
  match e with
  | VideoSelect data => handleVideoSelect data s
  | SummaryResolved vid text => summaryResolved vid text s
  | SummaryRejected vid message => summaryRejected vid message s
  | Clear => handleClear s
  | Generate => handleGenerate s
  | GenerateResolved text => generateResolved text s
  | GenerateRejected message => generateRejected message s
  | SetMode m => setMode m s
  | RestoreHistory item => restoreHistoryItem item s
  | LiveUpdate text => handleLiveUpdate text s
  | LiveStart => handleLiveStart s
  end.

Definition run (es : list event) (s : state) : state :=
  fold_left (fun s e => step e s) es s.

(** The spec's reading of the transcript: the fragments joined by single
    spaces. *)
Fixpoint join_spaces (fs : list string) : string :=
  match fs with
  | [] => ""
  | [f] => f
  | f :: fs' => (f ++ " " ++ join_spaces fs')%string
  end.

(** Fragments at the head of a sequence that are empty. *)
Fixpoint drop_empty (fs : list string) : list string :=
  match fs with
  | f :: fs' => if truthy f then fs else drop_empty fs'
  | [] => []
  end.

(** The events that empty the live transcript. *)
Definition clears (e : event) : bool :=
  match e with
  | LiveStart | Clear | RestoreHistory _ => true
  | VideoSelect data => negb (is_record (sourceType data))
  | _ => false
  end.

(** The first fragment of a sequence, if any, is not empty. *)
Definition starts_with_text (fs : list string) : Prop :=
  match fs with
  | f :: _ => truthy f = true
  | [] => True
  end.

End App.

(** ** The world: objects, promises and the host

    Objects are addressed by their index in a store.  The host (the Live
    API client, the Web Audio graph, the console) is a log of the calls
    made on it, in the order they are made. *)

Module World.
Import Encoder.

(** The callbacks attached with [then] to the promise of a session. *)
Inductive reaction :=
| ThenSendRealtimeInput (media : EncodedChunk)
    (* [session => session.sendRealtimeInput({ media: pcmBlob })] *)
| ThenClose.
    (* [session => session.close()] *)

Inductive promise_state :=
| Pending (reactions : list reaction)
| Fulfilled (transport_open : bool)
| Rejected.

(** The promise returned by [ai.live.connect], with the transcriber whose
    callbacks it was given. *)
Record promise := { owner : nat; settled : promise_state }.

(** [class LiveTranscriber]: its three private fields; [null] is [None]. *)
Record LiveTranscriber := {
  sessionPromise : option nat;
  inputAudioContext : option nat;
  scriptProcessor : option nat
}.

(** A [ScriptProcessorNode] of the host: its context, the transcriber of
    its [onaudioprocess] handler and whether it is still connected. *)
Record ScriptProcessorNode := {
  node_context : nat;
  onaudioprocess : option nat;
  connected : bool
}.

Inductive effect :=
| LiveConnect (p : nat)
| SendRealtimeInput (p : nat) (media : EncodedChunk)
| SessionClose (p : nat)
| UnhandledRejection (p : nat)
| NewAudioContext (c : nat)
| CreateMediaStreamSource (c : nat)
| CreateScriptProcessor (c n : nat)
| SetOnAudioProcess (n : nat)
| ConnectNodes (n : nat)
| ScriptProcessorDisconnect (n : nat)
| AudioContextClose (c : nat)
| OnUpdate (t : nat) (text : string)
| GetUserMedia
| CaptureStream
| NewMediaRecorder
| MediaRecorderStart
| MediaRecorderStop
| SetInterval
| ClearInterval
| VideoPlay
| VideoPause
| ConsoleLog (message : string)
| ConsoleError (message : string).

(** The state and the props of the [VideoUploader] component that the
    live transcription uses. *)
Record Uploader := {
  onLiveUpdate : bool;           (* the prop is passed *)
  onLiveStart : bool;            (* the prop is passed *)
  videoRef : bool;               (* [videoRef.current] is an element *)
  transcriberRef : option nat;
  mediaRecorderRef : bool;       (* [mediaRecorderRef.current] is a recorder *)
  timerRef : bool;
  isRecording : bool;
  isLivePlayback : bool;
  error : option string
}.

Record world := {
  promises : list promise;
  microtasks : list (nat * reaction);
  transcribers : list LiveTranscriber;
  processors : list ScriptProcessorNode;
  contexts : list bool;          (* an [AudioContext] is open *)
  app : App.state;
  ui : Uploader;
  log : list effect
}.

Definition set_promises (f : list promise -> list promise) (w : world) : world :=
  {| promises := f (promises w); microtasks := microtasks w;
     transcribers := transcribers w; processors := processors w;
     contexts := contexts w; app := app w; ui := ui w; log := log w |}.

Definition set_microtasks (f : list (nat * reaction) -> list (nat * reaction))
    (w : world) : world :=
  {| promises := promises w; microtasks := f (microtasks w);
     transcribers := transcribers w; processors := processors w;
     contexts := contexts w; app := app w; ui := ui w; log := log w |}.

Definition set_transcribers (f : list LiveTranscriber -> list LiveTranscriber)
    (w : world) : world :=
  {| promises := promises w; microtasks := microtasks w;
     transcribers := f (transcribers w); processors := processors w;
     contexts := contexts w; app := app w; ui := ui w; log := log w |}.

Definition set_processors (f : list ScriptProcessorNode -> list ScriptProcessorNode)
    (w : world) : world :=
  {| promises := promises w; microtasks := microtasks w;
     transcribers := transcribers w; processors := f (processors w);
     contexts := contexts w; app := app w; ui := ui w; log := log w |}.

Definition set_contexts (f : list bool -> list bool) (w : world) : world :=
  {| promises := promises w; microtasks := microtasks w;
     transcribers := transcribers w; processors := processors w;
     contexts := f (contexts w); app := app w; ui := ui w; log := log w |}.

Definition set_app (f : App.state -> App.state) (w : world) : world :=
  {| promises := promises w; microtasks := microtasks w;
     transcribers := transcribers w; processors := processors w;
     contexts := contexts w; app := f (app w); ui := ui w; log := log w |}.

Definition set_ui (f : Uploader -> Uploader) (w : world) : world :=
  {| promises := promises w; microtasks := microtasks w;
     transcribers := transcribers w; processors := processors w;
     contexts := contexts w; app := app w; ui := f (ui w); log := log w |}.

Definition set_log (f : list effect -> list effect) (w : world) : world :=
  {| promises := promises w; microtasks := microtasks w;
     transcribers := transcribers w; processors := processors w;
     contexts := contexts w; app := app w; ui := ui w; log := f (log w) |}.

(** *** Computations that change the world and may throw *)

Inductive exn :=
| TypeError (message : string)
| Error (message : string)
| Rejection (message : string).

Inductive result (A : Type) :=
| Ok (a : A)
| Throw (e : exn).
Arguments Ok {A} a.
Arguments Throw {A} e.

Definition M (A : Type) : Type := world -> result A * world.

Definition ret {A} (a : A) : M A := fun w => (Ok a, w).

Definition bind {A B} (m : M A) (k : A -> M B) : M B :=
  fun w => match m w with
           | (Ok a, w') => k a w'
           | (Throw e, w') => (Throw e, w')
           end.

Definition throw {A} (e : exn) : M A := fun w => (Throw e, w).

Definition try_catch {A} (m : M A) (handler : exn -> M A) : M A :=
  fun w => match m w with
           | (Ok a, w') => (Ok a, w')
           | (Throw e, w') => handler e w'
           end.

Definition gets {A} (f : world -> A) : M A := fun w => (Ok (f w), w).

Definition modify (f : world -> world) : M unit := fun w => (Ok tt, f w).

Definition emit (e : effect) : M unit := modify (set_log (fun l => l ++ [e])).

Definition when (b : bool) (m : M unit) : M unit := if b then m else ret tt.

(** A method call on a field that may be [null]. *)
Definition deref {A} (o : option A) : M A :=
  match o with
  | Some a => ret a
  | None => throw (TypeError "Cannot read properties of null")
  end.

Definition is_some {A} (o : option A) : bool :=
  match o with Some _ => true | None => false end.

(** [wp m Q E w]: run from [w], [m] either returns [a] in a world that
    satisfies [Q a] or throws [e] in a world that satisfies [E e]. *)
Definition wp {A} (m : M A) (Q : A -> world -> Prop) (E : exn -> world -> Prop)
    (w : world) : Prop :=
  match m w with
  | (Ok a, w') => Q a w'
  | (Throw e, w') => E e w'
  end.

(** The computation does not throw. *)
Definition no_throw : exn -> world -> Prop := fun _ _ => False.

(** The world before anything happened; [App] passes both props and the
    video element is mounted. *)
Definition initial : world :=
  {| promises := []; microtasks := []; transcribers := []; processors := [];
     contexts := []; app := App.initial;
     ui := {| onLiveUpdate := true; onLiveStart := true; videoRef := true;
              transcriberRef := None; mediaRecorderRef := false;
              timerRef := false; isRecording := false;
              isLivePlayback := false; error := None |};
     log := [] |}.

End World.

(** ** [class LiveTranscriber] *)

Module Live.
Import Encoder World.

Notation "x <- m ;; k" := (bind m (fun x => k))
  (at level 100, m at next level, k at level 200, right associativity).
Notation "m ;;; k" := (bind m (fun _ => k))
  (at level 100, k at level 200, right associativity).

(** The part of a [LiveServerMessage] that is read. *)
Record Transcription := { text : option string }.
Record ServerContent := {
  inputTranscription : option Transcription;
  outputTranscription : option Transcription
}.
Record LiveServerMessage := { serverContent : option ServerContent }.

Definition null_transcriber : LiveTranscriber :=
  {| sessionPromise := None; inputAudioContext := None; scriptProcessor := None |}.

(** [this], read and written through its reference. *)
Definition this_ (this : nat) : M LiveTranscriber :=
  gets (fun w => default null_transcriber (transcribers w !! this)).

Definition set_sessionPromise (this : nat) (v : option nat) : M unit :=
  modify (set_transcribers (alter (fun t =>
    {| sessionPromise := v; inputAudioContext := inputAudioContext t;
       scriptProcessor := scriptProcessor t |}) this)).

Definition set_inputAudioContext (this : nat) (v : option nat) : M unit :=
  modify (set_transcribers (alter (fun t =>
    {| sessionPromise := sessionPromise t; inputAudioContext := v;
       scriptProcessor := scriptProcessor t |}) this)).

Definition set_scriptProcessor (this : nat) (v : option nat) : M unit :=
  modify (set_transcribers (alter (fun t =>
    {| sessionPromise := sessionPromise t;
       inputAudioContext := inputAudioContext t; scriptProcessor := v |}) this)).

(** [new LiveTranscriber(onUpdate)]; [onUpdate] is always the
    [onLiveUpdate] prop, that is [handleLiveUpdate] of [App]. *)
Definition new_LiveTranscriber : M nat :=
  this <- gets (fun w => List.length (transcribers w)) ;;
  modify (set_transcribers (fun l => l ++ [null_transcriber])) ;;;
  ret this.

(** [this.onUpdate(text)] *)
Definition onUpdate (this : nat) (text : string) : M unit :=
  emit (OnUpdate this text) ;;;
  modify (set_app (App.handleLiveUpdate text)).

(** *** Promises *)

Definition promise_state_of (w : world) (p : nat) : option promise_state :=
  match promises w !! p with
  | Some pr => Some (settled pr)
  | None => None
  end.

Definition set_settled (p : nat) (st : promise_state) : M unit :=
  modify (set_promises (alter (fun pr => {| owner := owner pr; settled := st |}) p)).

(** [promise.then(reaction)]: kept while the promise is pending, queued as
    a microtask once it is fulfilled, never run once it is rejected (the
    derived promise is rejected and nothing handles it). *)
Definition promise_then (p : nat) (r : reaction) : M unit :=
  st <- gets (fun w => promise_state_of w p) ;;
  match st with
  | Some (Pending rs) => set_settled p (Pending (rs ++ [r]))
  | Some (Fulfilled _) => modify (set_microtasks (fun q => q ++ [(p, r)]))
  | Some Rejected => emit (UnhandledRejection p)
  | None => ret tt
  end.

Definition run_reaction (p : nat) (r : reaction) : M unit :=
  match r with
  | ThenSendRealtimeInput media => emit (SendRealtimeInput p media)
  | ThenClose => emit (SessionClose p) ;;; set_settled p (Fulfilled false)
  end.

Fixpoint run_reactions (q : list (nat * reaction)) : M unit :=
  match q with
  | [] => ret tt
  | (p, r) :: q' => run_reaction p r ;;; run_reactions q'
  end.

(** The microtask checkpoint at the end of a task. *)
Definition run_microtasks : M unit :=
  q <- gets microtasks ;;
  modify (set_microtasks (fun _ => [])) ;;;
  run_reactions q.

(** The promise of [ai.live.connect] settles. *)
Definition resolve (p : nat) : M unit :=
  st <- gets (fun w => promise_state_of w p) ;;
  match st with
  | Some (Pending rs) =>
      emit (ConsoleLog "Live session connected") ;;;
      set_settled p (Fulfilled true) ;;;
      modify (set_microtasks (fun q => q ++ map (fun r => (p, r)) rs))
  | _ => ret tt
  end.

Definition reject (p : nat) : M unit :=
  st <- gets (fun w => promise_state_of w p) ;;
  match st with
  | Some (Pending rs) =>
      set_settled p Rejected ;;;
      modify (set_log (fun l => l ++ map (fun _ => UnhandledRejection p) rs))
  | _ => ret tt
  end.

(** *** The methods *)

(** [connect()] up to its [await]: the promise of [ai.live.connect] is
    stored in [this.sessionPromise]. *)
Definition connect_begin (this : nat) : M nat :=
  p <- gets (fun w => List.length (promises w)) ;;
  modify (set_promises (fun l => l ++ [{| owner := this; settled := Pending [] |}])) ;;;
  emit (LiveConnect p) ;;;
  set_sessionPromise this (Some p) ;;;
  ret p.

(** [await transcriber.connect()], with the outcome of the handshake. *)
Definition connect (this : nat) (opened : bool) : M unit :=
  p <- connect_begin this ;;
  (if opened then resolve p else reject p) ;;;
  run_microtasks ;;;
  if opened then ret tt else throw (Rejection "Live API connection failed").

(** The [onaudioprocess] handler set by [start]. *)
Definition onaudioprocess_handler (this : nat) (inputData : list spec_float) : M unit :=
  let pcmBlob := createBlob inputData in
  t <- this_ this ;;
  when (is_some (sessionPromise t))
    (p <- deref (sessionPromise t) ;;
     promise_then p (ThenSendRealtimeInput pcmBlob)).

(** [start(stream)] *)
Definition start (this : nat) : M unit :=
  c <- gets (fun w => List.length (contexts w)) ;;
  modify (set_contexts (fun l => l ++ [true])) ;;;
  emit (NewAudioContext c) ;;;
  set_inputAudioContext this (Some c) ;;;
  t <- this_ this ;;
  ctx <- deref (inputAudioContext t) ;;
  emit (CreateMediaStreamSource ctx) ;;;
  n <- gets (fun w => List.length (processors w)) ;;
  modify (set_processors (fun l =>
    l ++ [{| node_context := ctx; onaudioprocess := None; connected := false |}])) ;;;
  emit (CreateScriptProcessor ctx n) ;;;
  set_scriptProcessor this (Some n) ;;;
  t <- this_ this ;;
  node <- deref (scriptProcessor t) ;;
  modify (set_processors (alter (fun nd =>
    {| node_context := node_context nd; onaudioprocess := Some this;
       connected := connected nd |}) node)) ;;;
  emit (SetOnAudioProcess node) ;;;
  modify (set_processors (alter (fun nd =>
    {| node_context := node_context nd; onaudioprocess := onaudioprocess nd;
       connected := true |}) node)) ;;;
  emit (ConnectNodes node).

(** [this.scriptProcessor.disconnect()] *)
Definition ScriptProcessor_disconnect (n : nat) : M unit :=
  modify (set_processors (alter (fun nd =>
    {| node_context := node_context nd; onaudioprocess := onaudioprocess nd;
       connected := false |}) n)) ;;;
  emit (ScriptProcessorDisconnect n).

(** [this.inputAudioContext.close()] *)
Definition AudioContext_close (c : nat) : M unit :=
  modify (set_contexts (fun l => <[c := false]> l)) ;;;
  emit (AudioContextClose c).

(** [stop()] *)
Definition stop (this : nat) : M unit :=
  t <- this_ this ;;
  when (is_some (scriptProcessor t))
    (n <- deref (scriptProcessor t) ;;
     ScriptProcessor_disconnect n ;;;
     set_scriptProcessor this None) ;;;
  t <- this_ this ;;
  when (is_some (inputAudioContext t))
    (c <- deref (inputAudioContext t) ;;
     AudioContext_close c ;;;
     set_inputAudioContext this None) ;;;
  t <- this_ this ;;
  when (is_some (sessionPromise t))
    (p <- deref (sessionPromise t) ;;
     promise_then p ThenClose ;;;
     set_sessionPromise this None).

(** [message.serverContent?.inputTranscription?.text] *)
Definition inputTranscription_text (message : LiveServerMessage) : option string :=
  match serverContent message with
  | Some sc =>
      match inputTranscription sc with
      | Some tr => text tr
      | None => None
      end
  | None => None
  end.

(** The truth value of a string or [undefined]. *)
Definition truthy (v : option string) : bool :=
  match v with
  | Some s => App.truthy s
  | None => false
  end.

(** The [onmessage] callback given to [ai.live.connect]. *)
Definition onmessage (this : nat) (message : LiveServerMessage) : M unit :=
  when (truthy (inputTranscription_text message))
    (text <- deref (inputTranscription_text message) ;;
     onUpdate this text).

(** *** The tasks the host runs *)

Inductive event :=
| AudioProcess (n : nat) (inputData : list spec_float)
| SessionOpened (p : nat)
| SessionFailed (p : nat)
| SessionMessage (p : nat) (message : LiveServerMessage)
| SessionError (p : nat)
| SessionClosed (p : nat).

(** The host calls the handler of a node only while the node is connected
    and its context is open. *)
Definition audio_handler (w : world) (n : nat) : option nat :=
  match processors w !! n with
  | Some nd =>
      if connected nd && default false (contexts w !! node_context nd)
      then onaudioprocess nd else None
  | None => None
  end.

Definition task (e : event) : M unit :=
  (match e with
   | AudioProcess n inputData =>
       h <- gets (fun w => audio_handler w n) ;;
       match h with
       | Some this => onaudioprocess_handler this inputData
       | None => ret tt
       end
   | SessionOpened p => resolve p
   | SessionFailed p => reject p
   | SessionMessage p message =>
       pr <- gets (fun w => promises w !! p) ;;
       match pr with
       | Some {| owner := this; settled := Fulfilled true |} => onmessage this message
       | _ => ret tt
       end
   | SessionError p => emit (ConsoleError "Live session error:")
   | SessionClosed p =>
       st <- gets (fun w => promise_state_of w p) ;;
       match st with
       | Some (Fulfilled _) =>
           set_settled p (Fulfilled false) ;;; emit (ConsoleLog "Live session closed")
       | _ => ret tt
       end
   end) ;;;
  run_microtasks.

Fixpoint tasks (es : list event) : M unit :=
  match es with
  | [] => ret tt
  | e :: es' => task e ;;; tasks es'
  end.

(** A method called from outside, as a task of its own. *)
Definition call (m : M unit) : M unit := m ;;; run_microtasks.

(** *** The states of the spec's Session

    The class keeps no state variable; the state is read off
    [sessionPromise] and the promise it refers to.  With [sessionPromise]
    [null] the session is idle if [connect()] was never called on this
    transcriber and closed otherwise. *)

Inductive SessionState := Idle | Connecting | Open | Closed | Errored.

Definition ever_connected (w : world) (this : nat) : bool :=
  existsb (fun pr => Nat.eqb (owner pr) this) (promises w).

(** [this.sessionPromise], [this.inputAudioContext] and
    [this.scriptProcessor] in a world. *)
Definition held_promise (w : world) (this : nat) : option nat :=
  sessionPromise (default null_transcriber (transcribers w !! this)).

Definition held_context (w : world) (this : nat) : option nat :=
  inputAudioContext (default null_transcriber (transcribers w !! this)).

Definition held_processor (w : world) (this : nat) : option nat :=
  scriptProcessor (default null_transcriber (transcribers w !! this)).

Definition session_state (w : world) (this : nat) : SessionState :=
  match held_promise w this with
  | Some p =>
      match promise_state_of w p with
      | Some (Pending _) => Connecting
      | Some (Fulfilled true) => Open
      | Some (Fulfilled false) => Closed
      | Some Rejected => Errored
      | None => Idle
      end
  | None => if ever_connected w this then Closed else Idle
  end.

(** The calls of [sendRealtimeInput] in a log. *)
Definition sent (l : list effect) : list EncodedChunk :=
  omap (fun e => match e with SendRealtimeInput _ media => Some media | _ => None end) l.

(** The chunks waiting on pending promises or in the microtask queue. *)
Definition reaction_chunk (r : reaction) : option EncodedChunk :=
  match r with ThenSendRealtimeInput media => Some media | ThenClose => None end.

Definition queued (w : world) : list EncodedChunk :=
  flat_map (fun pr => match settled pr with
                      | Pending rs => omap reaction_chunk rs
                      | _ => []
                      end) (promises w)
  ++ omap (fun pr => reaction_chunk (snd pr)) (microtasks w).

(** The texts [onUpdate] was called with, in a log. *)
Definition updates (l : list effect) : list string :=
  omap (fun e => match e with OnUpdate _ text => Some text | _ => None end) l.

(** The three steps of a teardown, in the order the spec asks for. *)
Inductive teardown := StopAudioCallback | ReleaseAudio | CloseSession.

Definition teardown_step (e : effect) : option teardown :=
  match e with
  | ScriptProcessorDisconnect _ => Some StopAudioCallback
  | AudioContextClose _ => Some ReleaseAudio
  | SessionClose _ => Some CloseSession
  | _ => None
  end.

Definition teardown_order : list teardown :=
  [StopAudioCallback; ReleaseAudio; CloseSession].

(** A message with the given input transcription text. *)
Definition transcription_message (t : string) : LiveServerMessage :=
  {| serverContent :=
       Some {| inputTranscription := Some {| text := Some t |};
               outputTranscription := None |} |}.

(** A transcriber on which [connect()] and [start()] were called, the
    handshake still pending. *)
Definition connecting_world : world :=
  snd ((this <- new_LiveTranscriber ;;
        p <- connect_begin this ;;
        start this) initial).

(** A transcriber on which [start()] was called without [connect()]. *)
Definition unconnected_world : world :=
  snd ((this <- new_LiveTranscriber ;; start this) initial).

(** A transcriber after [await connect()] and [start()]. *)
Definition capturing_world : world :=
  snd ((this <- new_LiveTranscriber ;;
        connect this true ;;;
        start this) initial).

End Live.

(** ** The capture controller: [VideoUploader] *)

Module Uploader.
Import Encoder World Live.

(** What the host answers to the requests of a capture start. *)
Record outcomes := {
  connect_opens : bool;          (* [ai.live.connect] resolves *)
  getUserMedia_grants : bool;    (* [getUserMedia] resolves *)
  captureStream : bool;          (* [vid.captureStream] exists *)
  mozCaptureStream : bool;       (* [vid.mozCaptureStream] exists *)
  audioTracks : nat              (* [stream.getAudioTracks().length] *)
}.

Definition set_transcriberRef (v : option nat) : M unit :=
  modify (set_ui (fun u =>
    {| onLiveUpdate := onLiveUpdate u; onLiveStart := onLiveStart u;
       videoRef := videoRef u; transcriberRef := v;
       mediaRecorderRef := mediaRecorderRef u; timerRef := timerRef u;
       isRecording := isRecording u; isLivePlayback := isLivePlayback u;
       error := error u |})).

Definition set_mediaRecorderRef (v : bool) : M unit :=
  modify (set_ui (fun u =>
    {| onLiveUpdate := onLiveUpdate u; onLiveStart := onLiveStart u;
       videoRef := videoRef u; transcriberRef := transcriberRef u;
       mediaRecorderRef := v; timerRef := timerRef u;
       isRecording := isRecording u; isLivePlayback := isLivePlayback u;
       error := error u |})).

Definition set_timerRef (v : bool) : M unit :=
  modify (set_ui (fun u =>
    {| onLiveUpdate := onLiveUpdate u; onLiveStart := onLiveStart u;
       videoRef := videoRef u; transcriberRef := transcriberRef u;
       mediaRecorderRef := mediaRecorderRef u; timerRef := v;
       isRecording := isRecording u; isLivePlayback := isLivePlayback u;
       error := error u |})).

Definition setIsRecording (v : bool) : M unit :=
  modify (set_ui (fun u =>
    {| onLiveUpdate := onLiveUpdate u; onLiveStart := onLiveStart u;
       videoRef := videoRef u; transcriberRef := transcriberRef u;
       mediaRecorderRef := mediaRecorderRef u; timerRef := timerRef u;
       isRecording := v; isLivePlayback := isLivePlayback u;
       error := error u |})).

Definition setIsLivePlayback (v : bool) : M unit :=
  modify (set_ui (fun u =>
    {| onLiveUpdate := onLiveUpdate u; onLiveStart := onLiveStart u;
       videoRef := videoRef u; transcriberRef := transcriberRef u;
       mediaRecorderRef := mediaRecorderRef u; timerRef := timerRef u;
       isRecording := isRecording u; isLivePlayback := v;
       error := error u |})).

Definition setError (v : option string) : M unit :=
  modify (set_ui (fun u =>
    {| onLiveUpdate := onLiveUpdate u; onLiveStart := onLiveStart u;
       videoRef := videoRef u; transcriberRef := transcriberRef u;
       mediaRecorderRef := mediaRecorderRef u; timerRef := timerRef u;
       isRecording := isRecording u; isLivePlayback := isLivePlayback u;
       error := v |})).

Definition recording_error : string :=
  "Could not access microphone or connect to Live API.".

Definition playback_error : string :=
  "Could not start live analysis. Browser might restrict capturing media from this source.".

(** [startLiveRecording] *)
Definition startLiveRecording (o : outcomes) : M unit :=
  try_catch
    (u <- gets ui ;;
     if negb (onLiveUpdate u) then ret tt
     else
       when (onLiveStart u) (modify (set_app App.handleLiveStart)) ;;;
       transcriber <- new_LiveTranscriber ;;
       connect transcriber (connect_opens o) ;;;
       emit GetUserMedia ;;;
       (if getUserMedia_grants o then ret tt
        else throw (Rejection "Permission denied")) ;;;
       start transcriber ;;;
       set_transcriberRef (Some transcriber) ;;;
       emit NewMediaRecorder ;;;
       set_mediaRecorderRef true ;;;
       emit MediaRecorderStart ;;;
       setIsRecording true ;;;
       emit SetInterval ;;;
       set_timerRef true)
    (fun err =>
       emit (ConsoleError "Error starting live recording:") ;;;
       setError (Some recording_error)).

(** [stopLiveRecording] *)
Definition stopLiveRecording : M unit :=
  u <- gets ui ;;
  when (is_some (transcriberRef u))
    (t <- deref (transcriberRef u) ;;
     stop t ;;;
     set_transcriberRef None) ;;;
  u <- gets ui ;;
  when (mediaRecorderRef u && isRecording u)
    (emit MediaRecorderStop ;;;
     setIsRecording false ;;;
     when (timerRef u) (emit ClearInterval ;;; set_timerRef false)).

(** [toggleLivePlayback] *)
Definition toggleLivePlayback (o : outcomes) : M unit :=
  u <- gets ui ;;
  if isLivePlayback u then
    when (is_some (transcriberRef u))
      (t <- deref (transcriberRef u) ;;
       stop t ;;;
       set_transcriberRef None) ;;;
    setIsLivePlayback false ;;;
    when (videoRef u) (emit VideoPause)
  else if negb (videoRef u) || negb (onLiveUpdate u) then ret tt
  else
    when (onLiveStart u) (modify (set_app App.handleLiveStart)) ;;;
    try_catch
      (transcriber <- new_LiveTranscriber ;;
       connect transcriber (connect_opens o) ;;;
       (if captureStream o then emit CaptureStream
        else if mozCaptureStream o then emit CaptureStream
        else throw (Error "captureStream not supported in this browser")) ;;;
       if Nat.eqb (audioTracks o) 0 then
         setError (Some "No audio track found in media."%string)
       else
         start transcriber ;;;
         set_transcriberRef (Some transcriber) ;;;
         setIsLivePlayback true ;;;
         emit VideoPlay)
      (fun err =>
         emit (ConsoleError "Failed to start live playback analysis:") ;;;
         setError (Some playback_error)).

(** The two ways a capture starts. *)
Inductive capture := Recording | Playback.

Definition start_capture (k : capture) (o : outcomes) : M unit :=
  match k with
  | Recording => call (startLiveRecording o)
  | Playback => call (toggleLivePlayback o)
  end.

Definition failure_message (k : capture) : string :=
  match k with
  | Recording => recording_error
  | Playback => playback_error
  end.

Definition failure_log (k : capture) : string :=
  match k with
  | Recording => "Error starting live recording:"
  | Playback => "Failed to start live playback analysis:"
  end.

(** What the component shows of its [error] state.  With a video selected
    it renders the preview, in which the error does not appear; without
    one it renders the tabs and, under them,
    [{error && <span>{error}</span>}]: the message when it is not empty. *)
Definition shown_error (w : world) : option string :=
  match App.video (app w) with
  | Some _ => None
  | None =>
      match error (ui w) with
      | Some (String c message) => Some (String c message)
      | _ => None
      end
  end.

(** The effects of a log that register an audio callback or ask for an
    audio source. *)
Definition registers_audio (e : effect) : bool :=
  match e with
  | NewAudioContext _ | CreateMediaStreamSource _ | CreateScriptProcessor _ _
  | SetOnAudioProcess _ | ConnectNodes _ => true
  | _ => false
  end.

Definition sends_frame (e : effect) : bool :=
  match e with SendRealtimeInput _ _ => true | _ => false end.

End Uploader.

(** ** Strings: the methods of [String] that the code calls

    A string is its sequence of code units; the methods below only look at
    its structure. *)

Module Text.

(** [s.startsWith(p)] *)
Definition startsWith (p s : string) : bool := String.prefix p s.

(** [s.split(sep)] for a separator of one character: the pieces between
    the separators, of which there is always at least one. *)
Fixpoint split (sep : ascii) (s : string) : list string :=
  match s with
  | EmptyString => [EmptyString]
  | String c s' =>
      if Ascii.eqb c sep then EmptyString :: split sep s'
      else match split sep s' with
           | piece :: rest => String c piece :: rest
           | [] => [String c EmptyString]
           end
  end.

(** [s.padStart(n, pad)] for a pad of one character. *)
Definition padStart (n : nat) (pad : ascii) (s : string) : string :=
  (string_of_list_ascii (replicate (n - String.length s) pad) ++ s)%string.

(** [n.toString()] for a non-negative integer: its decimal digits. *)
Definition toString (n : nat) : string :=
  DecimalString.NilZero.string_of_uint (Nat.to_uint n).

(** The truth value of an optional string: it is defined and not empty. *)
Definition truthy (v : option string) : bool :=
  match v with
  | Some (String _ _) => true
  | _ => false
  end.

(** [v || fallback] *)
Definition or_else (v : option string) (fallback : string) : string :=
  match v with
  | Some (String c s) => String c s
  | _ => fallback
  end.

(** A string in which a character does not occur. *)
Definition free_of (sep : ascii) (s : string) : Prop :=
  Forall (fun c => Ascii.eqb c sep = false) (list_ascii_of_string s).

Definition nl : string := String (ascii_of_nat 10) EmptyString.
Definition quote : string := String (ascii_of_nat 34) EmptyString.

End Text.

(** ** [types.ts]: the description of a selected medium *)

Module Media.

Inductive ProcessingTier := FAST | BALANCED | THINKING.

(** [VideoData]; the [file] object itself is left out. *)
Record VideoData := {
  id : string;
  sourceType : App.VideoSourceType;
  url : option string;
  previewUrl : string;
  base64Data : option string;
  mimeType : option string;
  name : string;
  size : option Z
}.

(** The part of a [VideoData] that the state of [App] keeps. *)
Definition to_app (v : VideoData) : App.VideoData :=
  {| App.id := id v; App.sourceType := sourceType v; App.name := name v |}.

(** An uploaded file, and a video that has both the data of a file and a
    URL. *)
Definition clip : VideoData :=
  {| id := "1"; sourceType := App.upload; url := None; previewUrl := "blob:1";
     base64Data := Some "AAEC"%string; mimeType := Some "video/mp4"%string;
     name := "clip.mp4"; size := Some 3 |}.

Definition clip_with_url : VideoData :=
  {| id := "2"; sourceType := App.url; url := Some "https://example.org/v"%string;
     previewUrl := "blob:2"; base64Data := Some "AAEC"%string;
     mimeType := Some "video/mp4"%string; name := "other"; size := None |}.

End Media.

(** ** [services/geminiService]: [generateVideoSummary] and [generateSpeech] *)

Module Gemini.
Import Text Media.
Local Open Scope string_scope.

(** [getPromptForMode] *)
Definition getPromptForMode (mode : App.SummaryMode) : string :=
  match mode with
  | App.TRANSCRIPT => "Provide a verbatim transcription of the spoken content. Do not summarize. Capture the speech exactly as it is spoken."
  | App.KEY_POINTS => "Analyze the content and provide a structured list of the key points, main topics discussed, and critical takeaways. Use bullet points."
  | App.ACTION_ITEMS => "Extract any action items, to-do tasks, or next steps mentioned. If none are explicitly stated, infer potential next steps based on the context. Format as a checklist."
  | App.SENTIMENT => "Analyze the overall sentiment and tone. Describe the emotional state, atmosphere, and delivery style. Is it positive, negative, neutral, urgent, or relaxed?"
  | App.OVERVIEW => "Provide a comprehensive but concise summary. Cover the who, what, where, when, and why. Ensure the summary flows logically and captures the essence of the content."
  end%string.

Definition transcriptViaSearch : string :=
  "Attempt to find a verbatim transcript via search. If a full transcript is unavailable, provide a highly detailed, chronological summary of the spoken content, quoting specific phrases where possible. Do NOT refuse the request.".

Definition searchPrompt (name url targetOutput : string) : string :=
  String.concat EmptyString
    [nl;
     "        You are analyzing the video titled ";
     quote;
     name;
     quote;
     " at: ";
     url;
     nl;
     nl;
     "        **Your Goal:**";
     nl;
     "        Use the Google Search tool to research this video's content, finding transcripts, descriptions, reviews, and summaries from the web.";
     nl;
     "        Combine this search data with your own internal knowledge about this video or topic.";
     nl;
     nl;
     "        **Task:**";
     nl;
     "        ";
     targetOutput;
     nl;
     "        ";
     nl;
     "        **CRITICAL INSTRUCTIONS:**";
     nl;
     "        - Do NOT say ";
     quote;
     "I cannot watch the video";
     quote;
     ".";
     nl;
     "        - Do NOT say ";
     quote;
     "I cannot find a transcript";
     quote;
     ".";
     nl;
     "        - If direct text is missing, synthesize the best possible response from the available search information.";
     nl;
     "        - You MUST provide a result based on what you find.";
     nl;
     "      "].

Inductive Part :=
| InlineData (mimeType data : string)
| TextPart (text : string).

Record Config := {
  thinkingBudget : option Z;     (* [config.thinkingConfig], when set *)
  googleSearch : bool            (* [config.tools = [{ googleSearch: {} }]] *)
}.

Record Request := { model : string; parts : list Part; config : Config }.

Definition modelId (tier : ProcessingTier) : string :=
  match tier with
  | FAST => "gemini-flash-lite-latest"
  | THINKING => "gemini-3-pro-preview"
  | BALANCED => "gemini-2.5-flash"
  end%string.

Definition thinking (tier : ProcessingTier) : option Z :=
  match tier with
  | THINKING => Some 32768
  | _ => None
  end.

Definition invalid_source : string :=
  "Invalid media data source. No file data or URL provided.".
Definition no_summary : string :=
  "No summary generated. The model returned an empty response.".
Definition summary_failed : string :=
  "Failed to generate summary. Please try again.".

(** The request that [generateVideoSummary] builds, or the message of the
    error it throws instead of calling the API. *)
Definition build_request (video : VideoData) (mode : App.SummaryMode)
    (tier : ProcessingTier) : string + Request :=
  if truthy (base64Data video) && truthy (mimeType video) then
    inr {| model := modelId tier;
           parts := [InlineData (or_else (mimeType video) EmptyString)
                                (or_else (base64Data video) EmptyString);
                     TextPart (getPromptForMode mode)];
           config := {| thinkingBudget := thinking tier; googleSearch := false |} |}
  else if truthy (url video) then
    let targetOutput :=
      match mode with
      | App.TRANSCRIPT => transcriptViaSearch
      | _ => getPromptForMode mode
      end in
    inr {| model := modelId tier;
           parts := [TextPart (searchPrompt (name video)
                                 (or_else (url video) EmptyString) targetOutput)];
           config := {| thinkingBudget := thinking tier; googleSearch := true |} |}
  else inl invalid_source.

(** What [ai.models.generateContent] answers: it rejects, with an error
    that may carry a message, or it returns a response whose [text] may be
    missing. *)
Inductive ApiOutcome :=
| ApiRejected (message : option string)
| ApiResponse (text : option string).

(** [new GoogleGenAI(...)]: the constructor throws an error, which may
    carry a message, or gives a client. *)
Definition Client : Type := option string + (Request -> ApiOutcome).

(** How the promise of an [async] function settles. *)
Inductive settlement (A : Type) :=
| Resolved (value : A)
| Rejected (message : string).
Arguments Resolved {A} value.
Arguments Rejected {A} message.

(** [generateVideoSummary]; the [catch] block rethrows every error with
    [error.message || "Failed to generate summary. Please try again."]. *)
Definition generateVideoSummary (ai : Client) (video : VideoData)
    (mode : App.SummaryMode) (tier : ProcessingTier) : settlement string :=
  match ai with
  | inl message => Rejected (or_else message summary_failed)
  | inr generateContent =>
      match build_request video mode tier with
      | inl message => Rejected (or_else (Some message) summary_failed)
      | inr request =>
          match generateContent request with
          | ApiRejected message => Rejected (or_else message summary_failed)
          | ApiResponse text =>
              if truthy text then Resolved (or_else text EmptyString)
              else Rejected (or_else (Some no_summary) summary_failed)
          end
      end
  end.

(** The text that [generateSpeech] sends:
    [text.length > 2000 ? text.substring(0, 2000) + "..." : text]. *)
Definition safeText (text : string) : string :=
  if (2000 <? String.length text)%nat
  then (String.substring 0 2000 text ++ "...")%string
  else text.

(** A text of 2000 characters followed by [last]. *)
Definition long_text (last : string) : string :=
  string_of_list_ascii (replicate 2000 "a"%char) ++ last.

Definition speech_failed : string := "Failed to generate speech.".

(** [generateSpeech]. The call of the API, given the text, throws ([None])
    or returns a response, of which the code reads the [inlineData.data] of
    the first part, if there is one. Every failure, that of [atob]
    included, is rethrown as ["Failed to generate speech."]. *)
Definition generateSpeech (generateContent : string -> option (option string))
    (text : string) : settlement (list Z) :=
  match generateContent (safeText text) with
  | None => Rejected speech_failed
  | Some base64Audio =>
      if truthy base64Audio then
        match Encoder.decode (or_else base64Audio EmptyString) with
        | Some bytes => Resolved bytes
        | None => Rejected speech_failed
        end
      else Rejected speech_failed
  end.

End Gemini.

(** ** [App]: the history of results *)

Module History.
Import Media.

(** [HistoryItem] *)
Record HistoryItem := {
  id : string;
  timestamp : Z;
  videoName : string;
  sourceType : App.VideoSourceType;
  url : option string;
  mode : App.SummaryMode;
  tier : ProcessingTier;
  resultText : string
}.

(** The [history] state and the ['videosumm_history'] item of
    [localStorage]. *)
Record state := {
  history : list HistoryItem;
  storage : option string
}.

Inductive operation :=
| Save (item : HistoryItem)
| Delete (i : string)
| ClearAll.

Section Json.
(** [JSON.stringify] and [JSON.parse] on lists of items, functions of the
    host; [None] stands for the [SyntaxError] of [JSON.parse]. *)
Variable stringify : list HistoryItem -> string.
Variable parse : string -> option (list HistoryItem).

(** The effect that loads the history when [App] is mounted. *)
Definition load (s : state) : state :=
  match storage s with
  | Some (String c saved) =>
      match parse (String c saved) with
      | Some items => {| history := items; storage := storage s |}
      | None => s
      end
  | _ => s
  end.

(** [saveToHistory]: the update that it hands to [setHistory],
    [prev => { newHistory = [item, ...prev].slice(0, 20);
    localStorage.setItem(..., JSON.stringify(newHistory)); return newHistory }],
    as React runs it: from the history before it, the history after it and
    what it writes to the storage.  The call itself only queues the
    update: see [call] and [render] below. *)
Definition saveToHistory (item : HistoryItem) (s : state) : state :=
  let newHistory := take 20 (item :: history s) in
  {| history := newHistory; storage := Some (stringify newHistory) |}.

(** [deleteHistoryItem]: the update that it hands to [setHistory],
    [prev => { newHistory = prev.filter(item => item.id !== id);
    localStorage.setItem(...); return newHistory }], as React runs it. *)
Definition deleteHistoryItem (i : string) (s : state) : state :=
  let newHistory :=
    List.filter (fun item => negb (String.eqb (id item) i)) (history s) in
  {| history := newHistory; storage := Some (stringify newHistory) |}.

(** [clearHistory], once React has run its update [setHistory([])]: the
    history is empty and the item is removed from the storage. *)
Definition clearHistory (s : state) : state :=
  {| history := []; storage := None |}.

(** An operation with nothing else pending, from its call to the end of
    the render that follows it. *)
Definition apply (op : operation) (s : state) : state :=
  match op with
  | Save item => saveToHistory item s
  | Delete i => deleteHistoryItem i s
  | ClearAll => clearHistory s
  end.

Definition run (ops : list operation) (s : state) : state :=
  fold_left (fun s op => apply op s) ops s.

(** The page is loaded again: [history] starts empty and the effect reads
    the storage. *)
Definition reload (s : state) : state :=
  load {| history := []; storage := storage s |}.

(** *** When the updates run

    [setHistory] only queues its argument.  React runs the queued updates,
    in the order of the calls, when it renders the component: that is the
    moment at which the updaters of [saveToHistory] and
    [deleteHistoryItem] write to the storage.  [clearHistory] queues
    [setHistory([])] as well, but its [localStorage.removeItem] is made at
    the call.  (An updater that React runs at the call, as it may when
    nothing is pending, is a call followed at once by a render.) *)

Record page := {
  current : state;               (* the [history] state and the storage *)
  pending : list operation       (* the updates queued by [setHistory] *)
}.

(** React runs one queued update. *)
Definition process (op : operation) (s : state) : state :=
  match op with
  | Save item => saveToHistory item s
  | Delete i => deleteHistoryItem i s
  | ClearAll => {| history := []; storage := storage s |}
  end.

(** A call of [saveToHistory], [deleteHistoryItem] or [clearHistory]. *)
Definition call (op : operation) (p : page) : page :=
  match op with
  | ClearAll =>
      {| current := {| history := history (current p); storage := None |};
         pending := pending p ++ [ClearAll] |}
  | _ => {| current := current p; pending := pending p ++ [op] |}
  end.

(** React renders [App]. *)
Definition render (p : page) : page :=
  {| current := fold_left (fun s op => process op s) (pending p) (current p);
     pending := [] |}.

Inductive moment :=
| Call (op : operation)
| Render.

Definition tick (m : moment) (p : page) : page :=
  match m with
  | Call op => call op p
  | Render => render p
  end.

Definition play (ms : list moment) (p : page) : page :=
  fold_left (fun p m => tick m p) ms p.

(** The calls of a sequence, in their order. *)
Definition calls (ms : list moment) : list operation :=
  omap (fun m => match m with Call op => Some op | Render => None end) ms.

(** No call of [clearHistory] is made while an update is pending; [idle]
    says that nothing is pending at the start. *)
Fixpoint clears_when_idle (idle : bool) (ms : list moment) : bool :=
  match ms with
  | [] => true
  | Render :: ms' => clears_when_idle true ms'
  | Call ClearAll :: ms' => idle && clears_when_idle false ms'
  | Call _ :: ms' => clears_when_idle false ms'
  end.

(** The storage holds what was written for the history, or nothing for an
    empty history. *)
Definition in_step (s : state) : Prop :=
  match storage s with
  | Some text => text = stringify (history s)
  | None => history s = []
  end.

End Json.

(** The page is opened for the first time. *)
Definition initial : state := {| history := []; storage := None |}.

Definition first_page : page := {| current := initial; pending := [] |}.

(** Two items, and a host that can write and read back the histories made
    of them. *)
Definition first_item : HistoryItem :=
  {| id := "h1"; timestamp := 1; videoName := "clip.mp4"; sourceType := App.upload;
     url := None; mode := App.TRANSCRIPT; tier := BALANCED; resultText := "Hello" |}.

Definition second_item : HistoryItem :=
  {| id := "h2"; timestamp := 2; videoName := "talk"; sourceType := App.youtube;
     url := Some "https://youtu.be/abcdefghijk"%string; mode := App.OVERVIEW;
     tier := FAST; resultText := "A talk." |}.

Definition write_ids (h : list HistoryItem) : string :=
  ("[" ++ String.concat "," (map id h) ++ "]")%string.

Definition read_ids (s : string) : option (list HistoryItem) :=
  if String.eqb s "[]" then Some []
  else if String.eqb s "[h1]" then Some [first_item]
  else if String.eqb s "[h2]" then Some [second_item]
  else if String.eqb s "[h1,h2]" then Some [first_item; second_item]
  else if String.eqb s "[h2,h1]" then Some [second_item; first_item]
  else None.

End History.

(** ** [VideoUploader]: files, and the display of a duration *)

Module Files.
Import Text Media.
Local Open Scope string_scope.

Record File := { file_name : string; file_type : string; file_size : Z }.

Definition MAX_FILE_SIZE_MB : Q := inject_Z 20.

(** [file.size / (1024 * 1024)]; for a size below 2^53 the division by
    2^20 is exact in binary64, so that the quotient is this rational. *)
Definition fileSizeMB (file : File) : Q :=
  (inject_Z (file_size file) / inject_Z (1024 * 1024))%Q.

(** What [processFile] does with a file: it sets an error, built from the
    type or from the size, or it starts to read the file. *)
Inductive processed :=
| InvalidFileType (type : string)
| FileTooLarge (sizeMB : Q)
| Reading.

(** [processFile], up to [reader.readAsDataURL(file)]. *)
Definition processFile (file : File) : processed :=
  if negb (startsWith "video/" (file_type file))
     && negb (startsWith "audio/" (file_type file))
  then InvalidFileType (or_else (Some (file_type file)) "unknown")
  else if negb (Qle_bool (fileSizeMB file) MAX_FILE_SIZE_MB)
  then FileTooLarge (fileSizeMB file)
  else Reading.

(** The result of [readAsDataURL], a function of the host, for a file of
    the given type and content. *)
Definition readAsDataURL (type content : string) : string :=
  ("data:" ++ type ++ ";base64," ++ Base64.btoa content)%string.

(** [result.split(',')[1]] *)
Definition base64_of_result (result : string) : option string :=
  split ","%char result !! 1%nat.

(** The [VideoData] that [reader.onload] passes to [onVideoSelected];
    [uuid] is [crypto.randomUUID()] and [blobUrl] the preview URL. *)
Definition onload (file : File) (uuid blobUrl result : string) : VideoData :=
  {| id := uuid;
     sourceType := App.upload;
     url := None;
     previewUrl := blobUrl;
     base64Data := base64_of_result result;
     mimeType := Some (file_type file);
     name := file_name file;
     size := Some (file_size file) |}.

(** The [VideoData] that [handleUrlSubmit] passes to [onVideoSelected] for
    a link to YouTube; [title] is the title fetched, or the default one. *)
Definition youtube_video (ytId processedInput title : string) : VideoData :=
  {| id := ytId;
     sourceType := App.youtube;
     url := Some processedInput;
     previewUrl := "https://www.youtube.com/embed/" ++ ytId;
     base64Data := None;
     mimeType := Some "video/mp4";
     name := title;
     size := None |}.

(** The [VideoData] that [handleUrlSubmit] passes when the media behind a
    link cannot be downloaded. *)
Definition fallback_video (uuid processedInput name fallbackMime : string)
  : VideoData :=
  {| id := uuid;
     sourceType := App.url;
     url := Some processedInput;
     previewUrl := processedInput;
     base64Data := None;
     mimeType := Some fallbackMime;
     name := name;
     size := None |}.

(** The file that [mediaRecorderRef.current.onstop] builds from the
    recorded chunks. *)
Definition recording (size : Z) : File :=
  {| file_name := "recording.webm"; file_type := "audio/webm"; file_size := size |}.

(** [formatDuration], for a whole number of seconds. *)
Definition formatDuration (seconds : nat) : string :=
  let mins := (seconds / 60)%nat in
  let secs := (seconds mod 60)%nat in
  (toString mins ++ ":" ++ padStart 2 "0"%char (toString secs))%string.

(** Reading a displayed duration back: the numbers around the colon. *)
Definition parseDuration (s : string) : option nat :=
  match split ":"%char s with
  | [mins; secs] =>
      match DecimalString.NilZero.uint_of_string mins,
            DecimalString.NilZero.uint_of_string secs with
      | Some m, Some sec => Some (Nat.of_uint m * 60 + Nat.of_uint sec)%nat
      | _, _ => None
      end
  | _ => None
  end.

(** What the seconds of a displayed duration are checked for: two
    characters, none of them a colon, that read back as the number. *)
Definition seconds_ok (k : nat) : bool :=
  let s := padStart 2 "0"%char (toString k) in
  (String.length s =? 2)%nat
  && forallb (fun c => negb (Ascii.eqb c ":"%char)) (list_ascii_of_string s)
  && match DecimalString.NilZero.uint_of_string s with
     | Some d => (Nat.of_uint d =? k)%nat
     | None => false
     end.

(** A file of three bytes. *)
Definition clip_file : File :=
  {| file_name := "clip.mp4"; file_type := "video/mp4"; file_size := 3 |}.

End Files.

(** ** [App]: the selection, the requests for a summary and the history

    [App.state] above keeps the part of the state that the live transcript
    meets.  Here it is put together with the rest: the [video] state with
    all its fields, the processing tier and the history.  A request for a
    summary is the triple that [generateVideoSummary] was called with; the
    continuations run when its promise settles.  [saved] is the history
    and the storage once React has run the updates queued so far
    ([History.call] and [History.render] tell when that is). *)

Module AppHistory.
Import Text Media.
Local Open Scope string_scope.

Record request := {
  req_video : VideoData;
  req_mode : App.SummaryMode;
  req_tier : ProcessingTier
}.

Record state := {
  app : App.state;
  video : option VideoData;
  tier : ProcessingTier;
  saved : History.state
}.

Definition initial : state :=
  {| app := App.initial; video := None; tier := BALANCED; saved := History.initial |}.

Definition set_app (f : App.state -> App.state) (s : state) : state :=
  {| app := f (app s); video := video s; tier := tier s; saved := saved s |}.

Definition setTier (t : ProcessingTier) (s : state) : state :=
  {| app := app s; video := video s; tier := t; saved := saved s |}.

Definition setMode (m : App.SummaryMode) (s : state) : state :=
  set_app (App.setMode m) s.

(** The item as [App.state] sees it. *)
Definition app_item (item : History.HistoryItem) : App.HistoryItem :=
  {| App.item_id := History.id item;
     App.item_sourceType := History.sourceType item;
     App.item_videoName := History.videoName item;
     App.item_mode := History.mode item;
     App.item_resultText := History.resultText item |}.

(** [restoredVideo] of [restoreHistoryItem]; [ytId] is the result of
    [item.url ? getYoutubeId(item.url) : null]. *)
Definition restoredVideo (ytId : option string) (item : History.HistoryItem)
  : VideoData :=
  {| id := History.id item;
     sourceType := History.sourceType item;
     url := History.url item;
     previewUrl :=
       match History.sourceType item with
       | App.youtube =>
           if truthy ytId
           then "https://www.youtube.com/embed/" ++ or_else ytId EmptyString
           else or_else (History.url item) EmptyString
       | _ => or_else (History.url item) EmptyString
       end;
     base64Data := None;
     mimeType := None;
     name := History.videoName item;
     size := None |}.

(** [restoreHistoryItem] *)
Definition restoreHistoryItem (ytId : option string) (item : History.HistoryItem)
    (s : state) : state :=
  {| app := App.restoreHistoryItem (app_item item) (app s);
     video := Some (restoredVideo ytId item);
     tier := History.tier item;
     saved := saved s |}.

(** [handleVideoSelect]: the new state, and the request sent.  The
    handler reads [tier] from the closure of the render that created it:
    [captured] is the tier of that render.  It is the current tier when
    the handler is the one of the last render; it is an older one when the
    call comes from a closure made earlier (the [onstop] of the recorder,
    [handleUrlSubmit] after its [await]) and the tier was set since, as
    [restoreHistoryItem] does. *)
Definition handleVideoSelect (captured : ProcessingTier) (data : VideoData)
    (s : state) : state * request :=
  ({| app := App.handleVideoSelect (to_app data) (app s);
      video := Some data; tier := tier s; saved := saved s |},
   {| req_video := data;
      req_mode := App.defaultMode (sourceType data);
      req_tier := captured |}).

(** [handleClear] *)
Definition handleClear (s : state) : state :=
  {| app := App.handleClear (app s); video := None; tier := tier s;
     saved := saved s |}.

(** [handleGenerate] up to its [await]: the new state and the request
    sent, if there is a video. *)
Definition handleGenerate (s : state) : state * option request :=
  match video s with
  | None => (s, None)
  | Some v =>
      (set_app (App.handleGenerate) s,
       Some {| req_video := v; req_mode := App.mode (app s); req_tier := tier s |})
  end.

(** The events of [App] that write [currentVideoIdRef.current]. *)
Definition selects (e : App.event) : bool :=
  match e with
  | App.VideoSelect _ | App.Clear => true
  | _ => false
  end.

Section Host.
Variable stringify : list History.HistoryItem -> string.
(** The client that [generateVideoSummary] creates and calls. *)
Variable ai : Gemini.Client.

(** The item that both continuations save; [uuid] is
    [crypto.randomUUID()] and [now] is [Date.now()]. *)
Definition new_item (uuid : string) (now : Z) (r : request) (text : string)
  : History.HistoryItem :=
  {| History.id := uuid;
     History.timestamp := now;
     History.videoName := name (req_video r);
     History.sourceType := sourceType (req_video r);
     History.url := url (req_video r);
     History.mode := req_mode r;
     History.tier := req_tier r;
     History.resultText := text |}.

Definition saveToHistory (item : History.HistoryItem) (s : state) : state :=
  {| app := app s; video := video s; tier := tier s;
     saved := History.saveToHistory stringify item (saved s) |}.

(** The promise of the request that [handleVideoSelect] sent settles:
    the [then] and the [catch] callbacks, which check
    [currentVideoIdRef.current === data.id]. *)
Definition summarySettled (uuid : string) (now : Z) (r : request) (s : state)
  : state :=
  match Gemini.generateVideoSummary ai (req_video r) (req_mode r) (req_tier r) with
  | Gemini.Resolved text =>
      if App.is_current (id (req_video r)) (app s) then
        saveToHistory (new_item uuid now r text)
          (set_app (App.summaryResolved (id (req_video r)) text) s)
      else s
  | Gemini.Rejected message =>
      set_app (App.summaryRejected (id (req_video r))
                 (or_else (Some message) "Auto-generation failed.")) s
  end.

(** The promise awaited by [handleGenerate] settles: the rest of the [try]
    block, or the [catch] block. *)
Definition generateSettled (uuid : string) (now : Z) (r : request) (s : state)
  : state :=
  match Gemini.generateVideoSummary ai (req_video r) (req_mode r) (req_tier r) with
  | Gemini.Resolved text =>
      saveToHistory (new_item uuid now r text)
        (set_app (App.generateResolved text) s)
  | Gemini.Rejected message =>
      set_app (App.generateRejected
                 (or_else (Some message) "Something went wrong during analysis.")) s
  end.

End Host.

End AppHistory.

(** ** A capture, from its start to its end *)

Module Capture.
Import World Live Uploader.

(** The host lets a capture of the given kind start. *)
Definition granted (k : capture) (o : outcomes) : bool :=
  connect_opens o &&
  match k with
  | Recording => getUserMedia_grants o
  | Playback =>
      (captureStream o || mozCaptureStream o) && negb (Nat.eqb (audioTracks o) 0)
  end.

(** The handshake succeeds, and then the capture cannot start. *)
Definition refused_after_connect (k : capture) (o : outcomes) : bool :=
  connect_opens o && negb (granted k o).

(** The way a capture ends: [stopLiveRecording] for a recording, the
    second call of [toggleLivePlayback] for a playback. *)
Definition stop_capture (k : capture) (o : outcomes) : M unit :=
  match k with
  | Recording => call stopLiveRecording
  | Playback => call (toggleLivePlayback o)
  end.

(** The flag of the component that says that a capture is running. *)
Definition capturing (k : capture) (u : Uploader) : bool :=
  match k with
  | Recording => isRecording u
  | Playback => isLivePlayback u
  end.

(** A host that grants everything. *)
Definition granting : outcomes :=
  {| connect_opens := true; getUserMedia_grants := true; captureStream := true;
     mozCaptureStream := false; audioTracks := 1 |}.

(** A host that opens the session and refuses the microphone. *)
Definition refusing_microphone : outcomes :=
  {| connect_opens := true; getUserMedia_grants := false; captureStream := true;
     mozCaptureStream := false; audioTracks := 1 |}.

End Capture.

(* ===================================================================== *)
(** * Properties *)
(* ===================================================================== *)

(** ** Binary64 multiplication of a binary32 sample by 32768 is exact *)

Module NumberFacts.
Import Number.

Lemma iter_pos_nat {A} (f : A -> A) (p : positive) (x : A) :
  iter_pos f p x = Nat.iter (Pos.to_nat p) f x.
Proof.
  revert x. induction p as [p IH | p IH |]; intros x; cbn [iter_pos].
  - rewrite !IH, Pos2Nat.inj_xI.
    replace (S (2 * Pos.to_nat p))%nat with (Pos.to_nat p + (Pos.to_nat p + 1))%nat by lia.
    rewrite !Nat.iter_add. reflexivity.
  - rewrite !IH, Pos2Nat.inj_xO.
    replace (2 * Pos.to_nat p)%nat with (Pos.to_nat p + Pos.to_nat p)%nat by lia.
    rewrite Nat.iter_add. reflexivity.
  - reflexivity.
Qed.

Lemma shiftl_nat_Z (a : positive) (n : nat) :
  Z.pos (Pos.shiftl_nat a n) = Z.pos a * 2 ^ Z.of_nat n.
Proof.
  induction n as [| n IH].
  - cbn. lia.
  - rewrite Nat2Z.inj_succ, Z.pow_succ_r by lia.
    change (Pos.shiftl_nat a (S n)) with (xO (Pos.shiftl_nat a n)).
    rewrite Pos2Z.inj_xO, IH. ring.
Qed.

Lemma shiftl_nat_add (a : positive) (n k : nat) :
  Pos.shiftl_nat (Pos.shiftl_nat a n) k = Pos.shiftl_nat a (k + n).
Proof.
  induction k as [| k IH]; [reflexivity |].
  change (xO (Pos.shiftl_nat (Pos.shiftl_nat a n) k) = xO (Pos.shiftl_nat a (k + n))).
  now rewrite IH.
Qed.

Lemma digits_shiftl_nat (a : positive) (n : nat) :
  Z.pos (digits2_pos (Pos.shiftl_nat a n)) = Z.pos (digits2_pos a) + Z.of_nat n.
Proof.
  induction n as [| n IH].
  - cbn. lia.
  - change (Pos.shiftl_nat a (S n)) with (xO (Pos.shiftl_nat a n)).
    cbn [digits2_pos]. rewrite Pos2Z.inj_succ, IH. lia.
Qed.

(** Shifting out [n] zero bits loses nothing: the round and sticky bits
    stay clear. *)
Lemma iter_shr_1_exact (a : positive) (n : nat) :
  Nat.iter n shr_1 (Build_shr_record (Z.pos (Pos.shiftl_nat a n)) false false)
  = Build_shr_record (Z.pos a) false false.
Proof.
  induction n as [| n IH]; [reflexivity |].
  rewrite Nat.iter_succ_r.
  change (Pos.shiftl_nat a (S n)) with (xO (Pos.shiftl_nat a n)).
  exact IH.
Qed.

Lemma shr_exact (a : positive) (e n : Z) :
  0 <= n ->
  shr (Build_shr_record (Z.pos (Pos.shiftl_nat a (Z.to_nat n))) false false) e n
  = (Build_shr_record (Z.pos a) false false, e + n).
Proof.
  intros Hn. destruct n as [| p | p]; [| | lia].
  - cbn. f_equal. lia.
  - cbn [shr]. rewrite iter_pos_nat.
    change (Z.to_nat (Z.pos p)) with (Pos.to_nat p).
    rewrite iter_shr_1_exact. reflexivity.
Qed.

Lemma float32_bounds (m : positive) (e : Z) :
  bounded 24 128 m e = true ->
  1 <= Z.pos (digits2_pos m) <= 24 /\ -149 <= e <= 104.
Proof.
  unfold bounded, canonical_mantissa, fexp, emin.
  rewrite andb_true_iff, Z.eqb_eq, Z.leb_le. lia.
Qed.

Lemma mul_32768_exact (s : bool) (m : positive) (e : Z) :
  bounded 24 128 m e = true ->
  mul (S754_finite s m e) lit_32768
  = S754_finite s (Pos.shiftl_nat m (Z.to_nat (53 - Z.pos (digits2_pos m))))
                  (e + Z.pos (digits2_pos m) - 38).
Proof.
  intros Hb. apply float32_bounds in Hb. destruct Hb as [Hd He].
  set (d := Z.pos (digits2_pos m)) in *.
  unfold mul, lit_32768, SFmul, binary_round_aux.
  rewrite xorb_false_r.
  assert (Hm : Z.pos (m * 4503599627370496)
               = Z.pos (Pos.shiftl_nat (Pos.shiftl_nat m (Z.to_nat (53 - d)))
                                       (Z.to_nat (d - 1)))).
  { rewrite shiftl_nat_add, shiftl_nat_Z.
    replace (Z.to_nat (d - 1) + Z.to_nat (53 - d))%nat with 52%nat by lia.
    reflexivity. }
  assert (Hs1 : shr_fexp 53 1024 (Z.pos (m * 4503599627370496)) (e + -37) loc_Exact
                = (Build_shr_record
                     (Z.pos (Pos.shiftl_nat m (Z.to_nat (53 - d)))) false false,
                   e + d - 38)).
  { unfold shr_fexp. rewrite Hm. cbn [Zdigits2 shr_record_of_loc].
    rewrite !digits_shiftl_nat. fold d.
    replace (fexp 53 1024 (d + Z.of_nat (Z.to_nat (53 - d))
                           + Z.of_nat (Z.to_nat (d - 1)) + (e + -37)) - (e + -37))
      with (d - 1) by (unfold fexp, emin; lia).
    rewrite shr_exact by lia. f_equal. lia. }
  rewrite Hs1. cbn [shr_m loc_of_shr_record round_nearest_even].
  assert (Hs2 : shr_fexp 53 1024 (Z.pos (Pos.shiftl_nat m (Z.to_nat (53 - d))))
                  (e + d - 38) loc_Exact
                = (Build_shr_record
                     (Z.pos (Pos.shiftl_nat m (Z.to_nat (53 - d)))) false false,
                   e + d - 38)).
  { unfold shr_fexp. cbn [Zdigits2 shr_record_of_loc].
    rewrite digits_shiftl_nat. fold d.
    replace (fexp 53 1024 (d + Z.of_nat (Z.to_nat (53 - d)) + (e + d - 38))
             - (e + d - 38)) with 0 by (unfold fexp, emin; lia).
    reflexivity. }
  rewrite Hs2. cbn [shr_m].
  replace (e + d - 38 <=? 1024 - 53) with true by (symmetry; apply Z.leb_le; lia).
  reflexivity.
Qed.

(** The product is a binary64 number. *)
Lemma mul_32768_float64 (s : bool) (m : positive) (e : Z) :
  bounded 24 128 m e = true ->
  is_float64 (mul (S754_finite s m e) lit_32768) = true.
Proof.
  intros Hb. rewrite mul_32768_exact by exact Hb.
  apply float32_bounds in Hb. destruct Hb as [Hd He].
  unfold is_float64, valid_binary, bounded, canonical_mantissa, fexp, emin.
  rewrite digits_shiftl_nat.
  apply andb_true_iff. split; [apply Z.eqb_eq | apply Z.leb_le]; lia.
Qed.

(** *** The 16-bit wrap-around *)

Lemma wrap16_range (n : Z) : -32768 <= wrap16 n < 32768.
Proof.
  unfold wrap16. pose proof (Z.mod_pos_bound n 65536 ltac:(lia)).
  destruct (Z.leb_spec 32768 (n mod 65536)); lia.
Qed.

Lemma wrap16_id (n : Z) : -32768 <= n < 32768 -> wrap16 n = n.
Proof.
  intros Hn. unfold wrap16.
  destruct (Z.leb_spec 32768 (n mod 65536)) as [H | H];
    revert H; generalize (Z.mod_pos_bound n 65536 ltac:(lia));
    rewrite (Z.mod_eq n 65536) by lia;
    generalize (n / 65536); intros; nia.
Qed.

Lemma wrap16_mod (n : Z) : wrap16 (n mod 65536) = wrap16 n.
Proof. unfold wrap16. rewrite Z.mod_mod by lia. reflexivity. Qed.

Lemma ToInt16_wrap (x : spec_float) : ToInt16 x = wrap16 (truncate x).
Proof. destruct x; reflexivity. Qed.

Lemma ToInt16_range (x : spec_float) : -32768 <= ToInt16 x < 32768.
Proof. rewrite ToInt16_wrap. apply wrap16_range. Qed.

(** *** Truncation *)

Lemma truncate_mul_32768 (s : bool) (m : positive) (e : Z) :
  bounded 24 128 m e = true ->
  truncate (mul (S754_finite s m e) lit_32768)
  = cond_Zopp s (Z.shiftl (Z.pos m) (e + 15)).
Proof.
  intros Hb. rewrite mul_32768_exact by exact Hb.
  apply float32_bounds in Hb. destruct Hb as [Hd He].
  cbn [truncate]. f_equal.
  rewrite shiftl_nat_Z, <- Z.shiftl_mul_pow2 by lia.
  rewrite Z.shiftl_shiftl by lia. f_equal. lia.
Qed.

Lemma cond_Zopp_mul (s : bool) (a b : Z) : cond_Zopp s a * b = cond_Zopp s (a * b).
Proof. destruct s; cbn; lia. Qed.

Lemma cond_Zopp_quot (s : bool) (a b : Z) :
  b <> 0 -> Z.quot (cond_Zopp s a) b = cond_Zopp s (Z.quot a b).
Proof. intros Hb. destruct s; cbn; [now apply Z.quot_opp_l | reflexivity]. Qed.

Lemma Qtruncate_scaled (s : bool) (m : positive) (e : Z) :
  Qtruncate (to_Q (S754_finite s m e) * inject_Z 32768)
  = cond_Zopp s (Z.shiftl (Z.pos m) (e + 15)).
Proof.
  unfold Qtruncate, to_Q, pow2Q.
  destruct (Z.leb_spec 0 e) as [He | He]; cbn [Qmult Qnum Qden inject_Z].
  - rewrite Z.quot_1_r, !cond_Zopp_mul. f_equal.
    rewrite Z.shiftl_mul_pow2, Z.pow_add_r by lia.
    change (2 ^ 15) with 32768. ring.
  - assert (Hp : 0 < 2 ^ (- e)) by (apply Z.pow_pos_nonneg; lia).
    rewrite !Pos.mul_1_l, Pos.mul_1_r, Z2Pos.id by exact Hp.
    rewrite !cond_Zopp_mul, cond_Zopp_quot by lia. f_equal.
    rewrite Z.mul_1_r, Z.quot_div_nonneg by lia.
    destruct (Z.leb_spec 0 (e + 15)) as [H15 | H15].
    + rewrite Z.shiftl_mul_pow2 by lia.
      replace 32768 with (2 ^ (e + 15) * 2 ^ (- e)).
      * rewrite Z.mul_assoc, Z.div_mul by lia. reflexivity.
      * rewrite <- Z.pow_add_r by lia. replace (e + 15 + - e) with 15 by lia.
        reflexivity.
    + rewrite Z.shiftl_div_pow2 by lia.
      replace (2 ^ (- e)) with (32768 * 2 ^ (- (e + 15))).
      * rewrite (Z.mul_comm (Z.pos m) 32768).
        rewrite Z.div_mul_cancel_l; [reflexivity | | lia].
        apply Z.pow_nonzero; lia.
      * change 32768 with (2 ^ 15). rewrite <- Z.pow_add_r by lia.
        f_equal. lia.
Qed.

Lemma sample_int16_finite (s : bool) (m : positive) (e : Z) :
  bounded 24 128 m e = true ->
  sample_int16 (S754_finite s m e)
  = wrap16 (Qtruncate (to_Q (S754_finite s m e) * inject_Z 32768)).
Proof.
  intros Hb. unfold sample_int16.
  rewrite ToInt16_wrap, truncate_mul_32768, Qtruncate_scaled by exact Hb.
  reflexivity.
Qed.

Lemma sample_int16_spec (x : spec_float) :
  is_float32 x = true ->
  sample_int16 x
  = if is_finite x then wrap16 (Qtruncate (to_Q x * inject_Z 32768)) else 0.
Proof.
  intros Hx. destruct x as [s | s | | s m e].
  - reflexivity.
  - reflexivity.
  - reflexivity.
  - apply sample_int16_finite. exact Hx.
Qed.

(** Truncation is within one unit of the value and keeps the 16-bit
    range. *)
Lemma Qtruncate_error (q : Q) : (Qabs (inject_Z (Qtruncate q) - q) < 1)%Q.
Proof.
  destruct q as [n d]. unfold Qtruncate, Qlt, Qabs, Qminus, Qplus, Qopp, inject_Z.
  cbn [Qnum Qden].
  pose proof (Z.quot_rem' n (Z.pos d)) as Hqr.
  pose proof (Z.rem_bound_abs n (Z.pos d) ltac:(lia)) as Hr.
  lia.
Qed.

Lemma Qtruncate_range (q : Q) :
  (inject_Z (-32768) <= q)%Q -> (q < inject_Z 32768)%Q ->
  -32768 <= Qtruncate q < 32768.
Proof.
  destruct q as [n d]. unfold Qtruncate, Qle, Qlt, inject_Z. cbn [Qnum Qden].
  intros Hlo Hhi.
  pose proof (Z.quot_rem' n (Z.pos d)) as Hqr.
  pose proof (Z.rem_bound_abs n (Z.pos d) ltac:(lia)) as Hr.
  assert (Hsgn : 0 <= n -> 0 <= Z.rem n (Z.pos d))
    by (intros; apply Z.rem_nonneg; lia).
  assert (Hsgn' : n <= 0 -> Z.rem n (Z.pos d) <= 0)
    by (intros; apply Z.rem_nonpos; lia).
  nia.
Qed.

End NumberFacts.

(** ** [atob] inverts [btoa] *)

Module Base64Facts.
Import Base64.

Lemma list_ind3 {A} (P : list A -> Prop) :
  P [] -> (forall a, P [a]) -> (forall a b, P [a; b]) ->
  (forall a b c l, P l -> P (a :: b :: c :: l)) ->
  forall l, P l.
Proof.
  intros H0 H1 H2 H3. fix IH 1.
  intros [| a [| b [| c l]]]; [exact H0 | apply H1 | apply H2 | apply H3, IH].
Qed.

Lemma sextet_cases (v : Z) :
  is_sextet v -> In (Z.to_nat v) (seq 0 64) /\ v = Z.of_nat (Z.to_nat v).
Proof. intros Hv. unfold is_sextet in Hv. rewrite in_seq. lia. Qed.

Lemma value_digit (v : Z) : is_sextet v -> value (digit v) = Some v.
Proof.
  intros Hv. apply sextet_cases in Hv. destruct Hv as [Hin Hv]. rewrite Hv.
  assert (Hall : forallb (fun n => match value (digit (Z.of_nat n)) with
                                   | Some u => u =? Z.of_nat n
                                   | None => false
                                   end) (seq 0 64) = true) by (vm_compute; reflexivity).
  rewrite forallb_forall in Hall. specialize (Hall _ Hin).
  destruct (value (digit (Z.of_nat (Z.to_nat v)))) as [u |]; [| discriminate].
  apply Z.eqb_eq in Hall. now subst.
Qed.

Lemma digit_not_pad (v : Z) : is_sextet v -> Ascii.eqb (digit v) pad_char = false.
Proof.
  intros Hv. apply value_digit in Hv.
  destruct (Ascii.eqb_spec (digit v) pad_char) as [E | E]; [| reflexivity].
  rewrite E in Hv. discriminate.
Qed.

Lemma digit_not_whitespace (v : Z) : is_sextet v -> is_whitespace (digit v) = false.
Proof.
  intros Hv. apply sextet_cases in Hv. destruct Hv as [Hin Hv]. rewrite Hv.
  assert (Hall : forallb (fun n => negb (is_whitespace (digit (Z.of_nat n))))
                         (seq 0 64) = true) by (vm_compute; reflexivity).
  rewrite forallb_forall in Hall. specialize (Hall _ Hin).
  now apply negb_true_iff in Hall.
Qed.

Ltac div_mod_lia := Z.div_mod_to_equations; lia.

Lemma sextets_range (bytes : list Z) :
  Forall is_byte bytes -> Forall is_sextet (sextets bytes).
Proof.
  induction bytes as [| a | a b | a b c l IH] using list_ind3; intros Hb.
  - constructor.
  - inversion_clear Hb as [| ? ? Ha _]. unfold is_byte in Ha.
    cbn [sextets].
    repeat (constructor; [unfold is_sextet; div_mod_lia |]). constructor.
  - inversion_clear Hb as [| ? ? Ha Hb']. inversion_clear Hb' as [| ? ? Hb _].
    unfold is_byte in Ha, Hb.
    cbn [sextets].
    repeat (constructor; [unfold is_sextet; div_mod_lia |]). constructor.
  - inversion_clear Hb as [| ? ? Ha Hb']. inversion_clear Hb' as [| ? ? Hb Hc'].
    inversion_clear Hc' as [| ? ? Hc Hl]. unfold is_byte in Ha, Hb, Hc.
    cbn [sextets].
    do 4 (constructor; [unfold is_sextet; div_mod_lia |]). now apply IH.
Qed.

Lemma octets_sextets (bytes : list Z) :
  Forall is_byte bytes -> octets (sextets bytes) = bytes.
Proof.
  induction bytes as [| a | a b | a b c l IH] using list_ind3; intros Hb.
  - reflexivity.
  - inversion_clear Hb as [| ? ? Ha _]. unfold is_byte in Ha.
    cbn [sextets octets]. f_equal.
    div_mod_lia.
  - inversion_clear Hb as [| ? ? Ha Hb']. inversion_clear Hb' as [| ? ? Hb _].
    unfold is_byte in Ha, Hb.
    cbn [sextets octets].
    assert (E : ((a * 65536 + b * 256) / 262144 * 64
                 + (a * 65536 + b * 256) / 4096 mod 64) * 64
                + (a * 65536 + b * 256) / 64 mod 64 = a * 1024 + b * 4)
      by div_mod_lia.
    rewrite E. f_equal; [| f_equal]; div_mod_lia.
  - inversion_clear Hb as [| ? ? Ha Hb']. inversion_clear Hb' as [| ? ? Hb Hc'].
    inversion_clear Hc' as [| ? ? Hc Hl]. unfold is_byte in Ha, Hb, Hc.
    cbn [sextets octets]. rewrite (IH Hl).
    set (n := a * 65536 + b * 256 + c).
    assert (E : ((n / 262144 * 64 + n / 4096 mod 64) * 64 + n / 64 mod 64) * 64
                + n mod 64 = n)
      by div_mod_lia.
    rewrite E. subst n.
    f_equal; [| f_equal; [| f_equal]]; div_mod_lia.
Qed.

Lemma values_digits (vs : list Z) :
  Forall is_sextet vs -> values (map digit vs) = Some vs.
Proof.
  induction 1 as [| v vs Hv _ IH]; [reflexivity |].
  cbn [map values]. now rewrite (value_digit v Hv), IH.
Qed.

Lemma filter_all {A} (f : A -> bool) (l : list A) :
  forallb f l = true -> List.filter f l = l.
Proof.
  induction l as [| a l IH]; [reflexivity |].
  cbn [forallb List.filter]. intros H. apply andb_true_iff in H.
  destruct H as [Ha Hl]. now rewrite Ha, IH.
Qed.

Lemma no_whitespace (vs : list Z) (k : nat) :
  Forall is_sextet vs ->
  forallb (fun c => negb (is_whitespace c)) (map digit vs ++ replicate k pad_char) = true.
Proof.
  intros Hvs. rewrite forallb_app. apply andb_true_iff. split.
  - induction Hvs as [| v vs Hv _ IH]; [reflexivity |].
    cbn [map forallb]. now rewrite (digit_not_whitespace v Hv), IH.
  - induction k as [| k IH]; [reflexivity | exact IH].
Qed.

(** The shape of the output of [btoa]: at most two [=], a length that is a
    multiple of 4, and never 1 modulo 4 before the padding. *)
Lemma btoa_shape (bytes : list Z) :
  exists k : nat,
    padding (List.length bytes) = replicate k pad_char /\ (k <= 2)%nat /\
    ((List.length (sextets bytes) + k) mod 4 = 0)%nat /\
    (List.length (sextets bytes) mod 4 <> 1)%nat.
Proof.
  induction bytes as [| a | a b | a b c l IH] using list_ind3.
  - exists 0%nat. repeat split; cbn; lia.
  - exists 2%nat. repeat split; cbn; lia.
  - exists 1%nat. repeat split; cbn; lia.
  - destruct IH as (k & Hp & Hk & Hlen & Hne). exists k.
    assert (Hpad : padding (List.length (a :: b :: c :: l)) = padding (List.length l)).
    { unfold padding. cbn [List.length].
      replace (S (S (S (List.length l)))) with (List.length l + 1 * 3)%nat by lia.
      now rewrite Nat.Div0.mod_add. }
    rewrite Hpad. cbn [sextets List.length].
    repeat split; [exact Hp | exact Hk | |].
    + replace (S (S (S (S (List.length (sextets l))))) + k)%nat
        with (List.length (sextets l) + k + 1 * 4)%nat by lia.
      now rewrite Nat.Div0.mod_add.
    + replace (S (S (S (S (List.length (sextets l))))))
        with (List.length (sextets l) + 1 * 4)%nat by lia.
      now rewrite Nat.Div0.mod_add.
Qed.

Lemma strip_padding_digits (ds : list ascii) (k : nat) :
  Forall (fun c => Ascii.eqb c pad_char = false) ds -> (k <= 2)%nat ->
  strip_padding (ds ++ replicate k pad_char) = ds.
Proof.
  intros Hds Hk. unfold strip_padding. rewrite rev_app_distr.
  assert (Hhead : forall p r, rev ds = p :: r -> Ascii.eqb p pad_char = false).
  { intros p r E. rewrite Forall_forall in Hds. apply Hds.
    apply list_elem_of_In, in_rev. rewrite E. now left. }
  destruct k as [| [| [| k]]]; [| | | lia]; cbn [replicate rev app].
  - rewrite app_nil_r. destruct (rev ds) as [| p [| q r]] eqn:E.
    + reflexivity.
    + now rewrite (Hhead p [] eq_refl).
    + now rewrite (Hhead p (q :: r) eq_refl).
  - destruct (rev ds) as [| q r] eqn:E; cbn [app].
    + apply (f_equal (@rev ascii)) in E. rewrite rev_involutive in E. now subst.
    + rewrite (Hhead q r eq_refl). change (Ascii.eqb pad_char pad_char) with true.
      cbn iota. apply (f_equal (@rev ascii)) in E.
      rewrite rev_involutive in E. now symmetry.
  - change (Ascii.eqb pad_char pad_char) with true. cbn iota.
    apply rev_involutive.
Qed.

Lemma charCode_byte (c : ascii) : is_byte (charCode c).
Proof. unfold is_byte, charCode. pose proof (nat_ascii_bounded c). lia. Qed.

Lemma fromCharCode_charCode (c : ascii) : fromCharCode (charCode c) = c.
Proof. unfold fromCharCode, charCode. rewrite Nat2Z.id. apply ascii_nat_embedding. Qed.

Lemma charCode_fromCharCode (b : Z) : is_byte b -> charCode (fromCharCode b) = b.
Proof.
  unfold is_byte, fromCharCode, charCode. intros Hb.
  rewrite nat_ascii_embedding by lia. lia.
Qed.

Lemma atob_btoa (binary : string) : atob (btoa binary) = Some binary.
Proof.
  unfold atob, btoa.
  set (bytes := map charCode (list_ascii_of_string binary)).
  assert (Hbytes : Forall is_byte bytes).
  { subst bytes. apply Forall_forall. intros b Hb.
    apply list_elem_of_In, in_map_iff in Hb. destruct Hb as (c & <- & _).
    apply charCode_byte. }
  pose proof (sextets_range bytes Hbytes) as Hsx.
  destruct (btoa_shape bytes) as (k & Hp & Hk & Hlen & Hne).
  rewrite Hp, list_ascii_of_string_of_list_ascii.
  rewrite filter_all by (apply no_whitespace; exact Hsx).
  rewrite length_app, length_map, length_replicate.
  rewrite Hlen. cbn [Nat.eqb].
  rewrite strip_padding_digits; [| | exact Hk].
  2:{ apply Forall_forall. intros c Hc.
      apply list_elem_of_In, in_map_iff in Hc. destruct Hc as (v & <- & Hv).
      apply digit_not_pad. rewrite Forall_forall in Hsx.
      apply Hsx, list_elem_of_In, Hv. }
  rewrite length_map.
  destruct (Nat.eqb_spec (List.length (sextets bytes) mod 4) 1) as [E | _];
    [contradiction |].
  rewrite values_digits by exact Hsx.
  rewrite octets_sextets by exact Hbytes.
  subst bytes. rewrite map_map.
  rewrite (map_ext _ (fun c => c) fromCharCode_charCode), map_id.
  now rewrite string_of_list_ascii_of_string.
Qed.

End Base64Facts.

(** ** The encoder: its loops and its output *)

Module EncoderFacts.
Import Number NumberFacts Base64 Base64Facts Encoder.

Lemma for_loop_0 {S : Type} (body : nat -> S -> S) (s : S) : for_loop 0 body s = s.
Proof. reflexivity. Qed.

Lemma for_loop_S {S : Type} (n : nat) (body : nat -> S -> S) (s : S) :
  for_loop (Datatypes.S n) body s = body n (for_loop n body s).
Proof. unfold for_loop. now rewrite seq_S, fold_left_app. Qed.

(** Two loops that keep a relation between their states step by step end
    in related states. *)
Lemma for_loop_sim {S T : Type} (R : S -> T -> Prop) (n : nat)
    (f : nat -> S -> S) (g : nat -> T -> T) (s : S) (t : T) :
  R s t ->
  (forall i s t, (i < n)%nat -> R s t -> R (f i s) (g i t)) ->
  R (for_loop n f s) (for_loop n g t).
Proof.
  intros H0 Hstep. induction n as [| n IH]; [exact H0 |].
  rewrite !for_loop_S. apply Hstep; [lia |]. apply IH.
  intros i s' t' Hi. apply Hstep. lia.
Qed.

Lemma string_of_list_ascii_app (l1 l2 : list ascii) :
  string_of_list_ascii (l1 ++ l2)
  = (string_of_list_ascii l1 ++ string_of_list_ascii l2)%string.
Proof. induction l1 as [| c l1 IH]; [reflexivity |]. cbn. now rewrite IH. Qed.

Lemma get_lookup (s : string) (i : nat) :
  String.get i s = list_ascii_of_string s !! i.
Proof.
  revert i. induction s as [| c s IH]; intros [| i]; cbn; try reflexivity.
  apply IH.
Qed.

Lemma length_list_ascii (s : string) :
  List.length (list_ascii_of_string s) = String.length s.
Proof. induction s as [| c s IH]; [reflexivity |]. cbn. now rewrite IH. Qed.

(** [encode] builds the binary string of its bytes and applies [btoa]. *)
Lemma encode_spec (bytes : buffer) :
  encode bytes = btoa (string_of_list_ascii (map fromCharCode bytes)).
Proof.
  unfold encode. f_equal.
  assert (Hinv : forall k, (k <= List.length bytes)%nat ->
            for_loop k
              (fun i binary =>
                 (binary ++ String (fromCharCode (default 0 (bytes !! i))) "")%string)
              ""%string
            = string_of_list_ascii (map fromCharCode (take k bytes))).
  { induction k as [| k IH]; intros Hk; [reflexivity |].
    rewrite for_loop_S, IH by lia. cbv beta.
    destruct (lookup_lt_is_Some_2 bytes k ltac:(lia)) as [b Hb].
    rewrite (take_S_r _ _ _ Hb), map_app, string_of_list_ascii_app.
    rewrite Hb.
    reflexivity. }
  rewrite Hinv by lia. now rewrite firstn_all.
Qed.

(** The decoding loop reads back the character codes of [atob]'s result. *)
Lemma decode_spec (base64 : string) :
  decode base64
  = match atob base64 with
    | Some binaryString => Some (map charCode (list_ascii_of_string binaryString))
    | None => None
    end.
Proof.
  unfold decode. destruct (atob base64) as [b |]; [| reflexivity]. f_equal.
  set (target := map charCode (list_ascii_of_string b)).
  assert (Hlen : List.length target = String.length b)
    by (subst target; now rewrite length_map, length_list_ascii).
  rewrite <- Hlen.
  assert (Hinv : forall k, (k <= List.length target)%nat ->
            for_loop k
              (fun i bytes =>
                 <[i := match String.get i b with
                        | Some c => charCode c
                        | None => 0
                        end]> bytes)
              (replicate (List.length target) 0)
            = take k target ++ replicate (List.length target - k) 0).
  { induction k as [| k IH]; intros Hk.
    - now rewrite for_loop_0, Nat.sub_0_r.
    - rewrite for_loop_S, IH by lia. cbv beta.
      destruct (lookup_lt_is_Some_2 target k ltac:(lia)) as [x Hx].
      rewrite (take_S_r _ _ _ Hx), get_lookup.
      assert (Hc : list_ascii_of_string b !! k = Some (fromCharCode x)
                   /\ charCode (fromCharCode x) = x).
      { subst target. rewrite list_lookup_fmap in Hx.
        destruct (list_ascii_of_string b !! k) as [c |]; [| discriminate].
        cbn in Hx. injection Hx as <-. now rewrite fromCharCode_charCode. }
      destruct Hc as [-> ->].
      rewrite insert_app_r_alt by (rewrite length_take; lia).
      rewrite length_take, Nat.min_l, Nat.sub_diag by lia.
      replace (List.length target - k)%nat
        with (S (List.length target - S k)) by lia.
      cbn [replicate]. now rewrite <- app_assoc. }
  rewrite Hinv by lia. now rewrite firstn_all, Nat.sub_diag, app_nil_r.
Qed.

Lemma decode_encode (bytes : buffer) :
  Forall is_byte bytes -> decode (encode bytes) = Some bytes.
Proof.
  intros Hb. rewrite decode_spec, encode_spec, atob_btoa.
  rewrite list_ascii_of_string_of_list_ascii, map_map. f_equal.
  induction Hb as [| b bytes Hb _ IH]; [reflexivity |].
  cbn [map]. now rewrite charCode_fromCharCode, IH.
Qed.

Lemma bytes16_bytes (v : Z) : Forall is_byte (bytes16 v).
Proof. unfold bytes16, is_byte. repeat constructor; div_mod_lia. Qed.

Lemma set_int16_app (pre rest : buffer) (a b v : Z) (k : nat) :
  List.length pre = (2 * k)%nat ->
  set_int16 (pre ++ a :: b :: rest) k v = pre ++ bytes16 v ++ rest.
Proof.
  intros Hlen. unfold set_int16, bytes16.
  rewrite (insert_app_r_alt pre _ (2 * k)) by lia.
  rewrite insert_app_r_alt by lia.
  replace (2 * k - List.length pre)%nat with 0%nat by lia.
  replace (2 * k + 1 - List.length pre)%nat with 1%nat by lia.
  reflexivity.
Qed.

Lemma length_flat_map_bytes16 (vs : list Z) :
  List.length (flat_map bytes16 vs) = (2 * List.length vs)%nat.
Proof. induction vs as [| v vs IH]; [reflexivity |]. cbn. rewrite IH. lia. Qed.

(** The loop of [createBlob] writes, sample after sample, the two bytes of
    the converted product. *)
Lemma fill_int16_spec (data : list spec_float) :
  createBlob_int16 data = flat_map bytes16 (map sample_int16 data).
Proof.
  unfold createBlob_int16, fill_int16, new_Int16Array.
  assert (Hinv : forall k, (k <= List.length data)%nat ->
            for_loop k
              (fun i int16 =>
                 set_int16 int16 i (ToInt16 (mul (get_float32 data i) lit_32768)))
              (replicate (2 * List.length data) 0)
            = flat_map bytes16 (map sample_int16 (take k data))
              ++ replicate (2 * (List.length data - k)) 0).
  { induction k as [| k IH]; intros Hk.
    - now rewrite for_loop_0, Nat.sub_0_r.
    - rewrite for_loop_S, IH by lia. cbv beta.
      destruct (lookup_lt_is_Some_2 data k ltac:(lia)) as [x Hx].
      rewrite (take_S_r _ _ _ Hx), map_app, flat_map_app.
      unfold get_float32. rewrite Hx. cbn [default map flat_map].
      replace (2 * (List.length data - k))%nat
        with (S (S (2 * (List.length data - S k)))) by lia.
      cbn [replicate].
      rewrite set_int16_app.
      + rewrite app_nil_r, <- app_assoc. reflexivity.
      + rewrite length_flat_map_bytes16, length_map, length_take. lia. }
  rewrite Hinv by lia.
  now rewrite firstn_all, Nat.sub_diag, app_nil_r.
Qed.

Lemma int16_view_bytes16 (vs : list Z) :
  Forall (fun v => -32768 <= v < 32768) vs ->
  int16_view (flat_map bytes16 vs) = vs.
Proof.
  induction 1 as [| v vs Hv _ IH]; [reflexivity |].
  cbn [flat_map bytes16 app int16_view]. rewrite IH. f_equal.
  replace (v mod 65536 mod 256 + 256 * (v mod 65536 / 256)) with (v mod 65536)
    by div_mod_lia.
  rewrite wrap16_mod. now apply wrap16_id.
Qed.

Lemma get_int16_cons (lo hi : Z) (rest : buffer) (i : nat) :
  get_int16 (lo :: hi :: rest) (S i) = get_int16 rest i.
Proof.
  unfold get_int16.
  replace (2 * S i)%nat with (S (S (2 * i))) by lia.
  replace (S (S (2 * i)) + 1)%nat with (S (S (2 * i + 1))) by lia.
  reflexivity.
Qed.

Lemma get_int16_bytes16 (vs : list Z) (i : nat) :
  Forall (fun v => -32768 <= v < 32768) vs ->
  get_int16 (flat_map bytes16 vs) i = vs !! i.
Proof.
  intros Hvs. revert i. induction Hvs as [| v vs Hv _ IH]; intros i.
  - unfold get_int16. now rewrite !lookup_nil.
  - cbn [flat_map bytes16 app]. destruct i as [| i].
    + unfold get_int16. cbn [Nat.mul Nat.add lookup list_lookup].
      replace (v mod 65536 mod 256 + 256 * (v mod 65536 / 256))
        with (v mod 65536) by div_mod_lia.
      rewrite wrap16_mod. cbn. f_equal. now apply wrap16_id.
    + rewrite get_int16_cons. apply IH.
Qed.

Lemma sample_int16_range (data : list spec_float) :
  Forall (fun v => -32768 <= v < 32768) (map sample_int16 data).
Proof.
  apply Forall_forall. intros v Hv.
  apply list_elem_of_In, in_map_iff in Hv. destruct Hv as (x & <- & _).
  apply ToInt16_range.
Qed.

(** Element [i] of the [Int16Array] is the converted sample [i]. *)
Lemma createBlob_int16_lookup (data : list spec_float) (i : nat) :
  get_int16 (createBlob_int16 data) i = sample_int16 <$> data !! i.
Proof.
  rewrite fill_int16_spec, get_int16_bytes16 by apply sample_int16_range.
  apply list_lookup_fmap.
Qed.

Lemma createBlob_int16_bytes (data : list spec_float) :
  Forall is_byte (createBlob_int16 data).
Proof.
  rewrite fill_int16_spec. induction (map sample_int16 data) as [| v vs IH].
  - constructor.
  - cbn [flat_map]. apply Forall_app. split; [apply bytes16_bytes | exact IH].
Qed.

(** Decoding a chunk gives back the converted samples. *)
Lemma decode_createBlob (data : list spec_float) :
  decode_chunk (createBlob data) = Some (map sample_int16 data).
Proof.
  unfold decode_chunk, createBlob. cbn [Encoder.data].
  rewrite decode_encode by apply createBlob_int16_bytes.
  rewrite fill_int16_spec, int16_view_bytes16 by apply sample_int16_range.
  reflexivity.
Qed.

(** The heap version allocates one buffer, fills it as [createBlob] does
    and touches nothing else. *)
Lemma createBlob_heap_spec (d : nat) (h : heap) (samples : list spec_float) :
  float32_arrays h !! d = Some samples ->
  createBlob_heap d h
  = Some (createBlob samples,
          {| float32_arrays := float32_arrays h;
             array_buffers := array_buffers h ++ [createBlob_int16 samples] |}).
Proof.
  intros Hd. unfold createBlob_heap, alloc_buffer. rewrite Hd.
  cbv beta iota zeta.
  set (R := fun (h' : heap) (buf : buffer) =>
              h' = {| float32_arrays := float32_arrays h;
                      array_buffers := array_buffers h ++ [buf] |}).
  assert (HR : R (for_loop (List.length samples)
                    (fun i h' =>
                       store_int16 h' (List.length (array_buffers h)) i
                         (ToInt16 (mul (load_float32 h' d i) lit_32768)))
                    {| float32_arrays := float32_arrays h;
                       array_buffers := array_buffers h
                                        ++ [new_Int16Array (List.length samples)] |})
                 (for_loop (List.length samples)
                    (fun i int16 =>
                       set_int16 int16 i
                         (ToInt16 (mul (get_float32 samples i) lit_32768)))
                    (new_Int16Array (List.length samples)))).
  { apply for_loop_sim; [reflexivity |].
    intros i h' buf _ ->. unfold R, store_int16, load_float32.
    cbn [float32_arrays array_buffers]. rewrite Hd. cbn [default].
    rewrite lookup_app_r, Nat.sub_diag by lia. cbn [lookup list_lookup].
    rewrite insert_app_r_alt, Nat.sub_diag by lia. reflexivity. }
  unfold R in HR. rewrite HR. cbn [array_buffers].
  rewrite lookup_app_r, Nat.sub_diag by lia. reflexivity.
Qed.

(** C1 (counterexample): a sample worth three quarters of a 16-bit step is
    stored as 0, while [round(s * 32768)] is 1. *)
Lemma createBlob_does_not_round :
  is_float32 three_quarters_of_a_step = true /\
  get_int16 (createBlob_int16 [three_quarters_of_a_step]) 0 = Some 0 /\
  round_nearest (to_Q three_quarters_of_a_step * inject_Z 32768) = 1 /\
  get_int16 (createBlob_int16 [three_quarters_of_a_step]) 0
  <> Some (round_nearest (to_Q three_quarters_of_a_step * inject_Z 32768)).
Proof.
  repeat split; try (vm_compute; reflexivity). vm_compute. discriminate.
Qed.

(** C1 (amended): for every sample [s] of a captured frame, the 16-bit
    integer that [createBlob] stores is [s * 32768] truncated toward zero
    (not rounded) and wrapped modulo 2^16 into the signed 16-bit range, with
    no clamping; the product is exact, and NaN and the infinities give 0. *)
Theorem createBlob_sample_conversion (data : list spec_float) (i : nat)
    (s : spec_float) :
  data !! i = Some s ->
  is_float32 s = true ->
  get_int16 (createBlob_int16 data) i
  = Some (if is_finite s
          then wrap16 (Qtruncate (to_Q s * inject_Z 32768))
          else 0).
Proof.
  intros Hi Hs. rewrite createBlob_int16_lookup, Hi. cbn. f_equal.
  now apply sample_int16_spec.
Qed.

Lemma createBlob_sample_conversion_witness :
  [one_half; plus_one] !! 1%nat = Some plus_one /\
  is_float32 plus_one = true /\
  get_int16 (createBlob_int16 [one_half; plus_one]) 1
  = Some (if is_finite plus_one
          then wrap16 (Qtruncate (to_Q plus_one * inject_Z 32768))
          else 0).
Proof.
  split; [reflexivity |]. split; [reflexivity |].
  apply (createBlob_sample_conversion [one_half; plus_one] 1 plus_one);
    reflexivity.
Defined.

(** Full scale is not clamped: 1.0 is stored as -32768. *)
Example createBlob_full_scale_wraps :
  get_int16 (createBlob_int16 [plus_one; minus_one]) 0 = Some (-32768) /\
  get_int16 (createBlob_int16 [plus_one; minus_one]) 1 = Some (-32768).
Proof. split; vm_compute; reflexivity. Qed.

Lemma unclipped_scaled (s : spec_float) :
  unclipped s ->
  (inject_Z (-32768) <= to_Q s * inject_Z 32768)%Q /\
  (to_Q s * inject_Z 32768 < inject_Z 32768)%Q.
Proof.
  intros (_ & _ & Hlo & Hhi). split.
  - change (inject_Z (-32768)) with (inject_Z (-1) * inject_Z 32768)%Q.
    apply Qmult_le_compat_r; [exact Hlo | discriminate].
  - change (inject_Z 32768) with (inject_Z 1 * inject_Z 32768)%Q at 2.
    apply Qmult_lt_compat_r; [reflexivity | exact Hhi].
Qed.

Lemma Qtruncate_integer (q : Q) (n : Z) :
  (q == inject_Z n)%Q -> Qtruncate q = n.
Proof.
  destruct q as [a d]. unfold Qeq, Qtruncate, inject_Z. cbn [Qnum Qden].
  intros H. rewrite Z.mul_1_r in H. subst a. apply Z.quot_mul. discriminate.
Qed.

Lemma full_scale_int16 (s : spec_float) :
  is_float32 s = true -> is_finite s = true -> (to_Q s == inject_Z 1)%Q ->
  sample_int16 s = -32768.
Proof.
  intros Hf32 Hfin H1. rewrite (sample_int16_spec s Hf32), Hfin.
  rewrite (Qtruncate_integer _ 32768); [reflexivity |].
  rewrite H1. reflexivity.
Qed.

(** C4 (counterexample): the buffer [1.0; 0.75/32768] is in the range
    -1.0..1.0 and decodes as [-32768; 0].  The first sample, 32768 steps of
    the 16-bit scale, comes back as -32768: nothing clips it and the
    conversion wraps.  The second comes back three quarters of a step off,
    more than the half step of a rounding quantizer. *)
Lemma full_scale_is_not_reproduced :
  Forall in_unit_range [plus_one; three_quarters_of_a_step] /\
  decode_chunk (createBlob [plus_one; three_quarters_of_a_step]) = Some [-32768; 0] /\
  (to_Q plus_one * inject_Z 32768 == inject_Z 32768)%Q /\
  ~ (Qabs (inject_Z (-32768) - to_Q plus_one * inject_Z 32768) < 1)%Q /\
  ~ (Qabs (inject_Z 0 - to_Q three_quarters_of_a_step * inject_Z 32768) <= 1 # 2)%Q.
Proof.
  split; [repeat constructor; try reflexivity; discriminate |].
  split; [vm_compute; reflexivity |].
  split; [reflexivity |].
  split; vm_compute; first [discriminate | intros H; apply H; reflexivity].
Qed.

(** C4 (amended): for every buffer of samples in the range -1.0..1.0,
    base64-decoding the data of the chunk and reading the bytes as
    little-endian signed 16-bit integers gives one integer per sample;
    for a sample below 1.0 it is within less than one 16-bit step of the
    sample scaled by 32768 (the conversion truncates), and for a sample of
    exactly 1.0, which is not clipped, it is -32768. *)
Theorem encoder_roundtrip (data : list spec_float) :
  Forall in_unit_range data ->
  exists ints : list Z,
    decode_chunk (createBlob data) = Some ints /\
    List.length ints = List.length data /\
    forall (i : nat) (s : spec_float) (k : Z),
      data !! i = Some s -> ints !! i = Some k ->
      ((to_Q s < inject_Z 1)%Q ->
       (Qabs (inject_Z k - to_Q s * inject_Z 32768) < 1)%Q) /\
      ((to_Q s == inject_Z 1)%Q -> k = -32768).
Proof.
  intros Hdata. exists (map sample_int16 data).
  split; [apply decode_createBlob |]. split; [apply length_map |].
  intros i s k Hs Hk. rewrite list_lookup_fmap, Hs in Hk. cbn in Hk.
  injection Hk as <-.
  rewrite Forall_forall in Hdata.
  assert (Hu : in_unit_range s) by (apply Hdata, list_elem_of_lookup; eauto).
  destruct Hu as (Hf32 & Hfin & Hlo & Hhi). split.
  - intros Hlt.
    destruct (unclipped_scaled s (conj Hf32 (conj Hfin (conj Hlo Hlt))))
      as [Hlo' Hhi'].
    rewrite (sample_int16_spec s Hf32), Hfin.
    rewrite wrap16_id by (apply Qtruncate_range; assumption).
    apply Qtruncate_error.
  - now apply full_scale_int16.
Qed.

Lemma encoder_roundtrip_witness :
  Forall in_unit_range [one_half; minus_one; plus_one] /\
  exists ints : list Z,
    decode_chunk (createBlob [one_half; minus_one; plus_one])
    = Some ints /\
    List.length ints = 3%nat /\
    forall (i : nat) (s : spec_float) (k : Z),
      [one_half; minus_one; plus_one] !! i = Some s ->
      ints !! i = Some k ->
      ((to_Q s < inject_Z 1)%Q ->
       (Qabs (inject_Z k - to_Q s * inject_Z 32768) < 1)%Q) /\
      ((to_Q s == inject_Z 1)%Q -> k = -32768).
Proof.
  assert (H : Forall in_unit_range [one_half; minus_one; plus_one])
    by (repeat constructor; try reflexivity; discriminate).
  split; [exact H |].
  apply (encoder_roundtrip [one_half; minus_one; plus_one] H).
Defined.

(** C10: [createBlob] is a function of the samples alone.  Called on two
    heaps that hold the same samples at [data] it returns the same chunk,
    tagged [audio/pcm;rate=16000]; it leaves every [Float32Array] and every
    existing buffer as it was, and only adds the buffer of its
    [Int16Array]. *)
Theorem createBlob_deterministic (data : nat) (h1 h2 : heap)
    (samples : list spec_float) :
  float32_arrays h1 !! data = Some samples ->
  float32_arrays h2 !! data = Some samples ->
  exists (chunk : EncodedChunk) (h1' h2' : heap),
    createBlob_heap data h1 = Some (chunk, h1') /\
    createBlob_heap data h2 = Some (chunk, h2') /\
    chunk = createBlob samples /\
    mimeType chunk = "audio/pcm;rate=16000"%string /\
    float32_arrays h1' = float32_arrays h1 /\
    array_buffers h1' = array_buffers h1 ++ [createBlob_int16 samples].
Proof.
  intros H1 H2.
  rewrite (createBlob_heap_spec data h1 samples H1).
  rewrite (createBlob_heap_spec data h2 samples H2).
  do 3 eexists. repeat split.
Qed.

Lemma createBlob_deterministic_witness :
  [[one_half; plus_one]] !! 0%nat = Some [one_half; plus_one] /\
  [[one_half; plus_one]; [minus_one]] !! 0%nat = Some [one_half; plus_one] /\
  exists (chunk : EncodedChunk) (h1' h2' : heap),
    createBlob_heap 0 {| float32_arrays := [[one_half; plus_one]];
                         array_buffers := [[1; 2]] |} = Some (chunk, h1') /\
    createBlob_heap 0 {| float32_arrays := [[one_half; plus_one]; [minus_one]];
                         array_buffers := [] |} = Some (chunk, h2') /\
    chunk = createBlob [one_half; plus_one] /\
    mimeType chunk = "audio/pcm;rate=16000"%string /\
    float32_arrays h1' = [[one_half; plus_one]] /\
    array_buffers h1' = [[1; 2]] ++ [createBlob_int16 [one_half; plus_one]].
Proof.
  split; [reflexivity |]. split; [reflexivity |].
  apply (createBlob_deterministic 0
           {| float32_arrays := [[one_half; plus_one]]; array_buffers := [[1; 2]] |}
           {| float32_arrays := [[one_half; plus_one]; [minus_one]];
              array_buffers := [] |}
           [one_half; plus_one]); reflexivity.
Defined.

End EncoderFacts.

(** ** The Transcript Accumulator *)

Module AppFacts.
Import App.

Lemma append_assoc (a b c : string) : ((a ++ b) ++ c = a ++ (b ++ c))%string.
Proof. induction a as [| x a IH]; [reflexivity |]. cbn. now rewrite IH. Qed.

Lemma truthy_append (a b : string) : truthy a = true -> truthy (a ++ b) = true.
Proof. now destruct a. Qed.

Lemma not_truthy (a : string) : truthy a = false -> a = ""%string.
Proof. now destruct a. Qed.

Lemma run_cons (e : event) (es : list event) (s : state) :
  run (e :: es) s = run es (step e s).
Proof. reflexivity. Qed.

Lemma join_spaces_cons (a : string) (fs : list string) :
  fs <> [] -> join_spaces (a :: fs) = (a ++ " " ++ join_spaces fs)%string.
Proof. destruct fs; [congruence | reflexivity]. Qed.

Lemma join_spaces_merge (a f : string) (fs : list string) :
  join_spaces ((a ++ " " ++ f)%string :: fs) = join_spaces (a :: f :: fs).
Proof.
  destruct fs as [| g fs]; [reflexivity |].
  rewrite (join_spaces_cons a (f :: g :: fs)) by discriminate.
  rewrite (join_spaces_cons f (g :: fs)) by discriminate.
  rewrite (join_spaces_cons _ (g :: fs)) by discriminate.
  now rewrite !append_assoc.
Qed.

(** Once the transcript is not empty, every fragment is appended after a
    space. *)
Lemma run_updates_nonempty (fs : list string) (s : state) :
  truthy (liveText s) = true ->
  liveText (run (map LiveUpdate fs) s) = join_spaces (liveText s :: fs).
Proof.
  revert s. induction fs as [| f fs IH]; intros s Hs; [reflexivity |].
  cbn [map]. rewrite run_cons, IH.
  - cbn [step handleLiveUpdate setLiveText liveText]. rewrite Hs.
    apply join_spaces_merge.
  - cbn [step handleLiveUpdate setLiveText liveText]. now apply truthy_append.
Qed.

(** While the transcript is empty, an empty fragment leaves it empty. *)
Lemma run_updates_empty (fs : list string) (s : state) :
  liveText s = ""%string ->
  liveText (run (map LiveUpdate fs) s) = join_spaces (drop_empty fs).
Proof.
  revert s. induction fs as [| f fs IH]; intros s Hs; [exact Hs |].
  cbn [map drop_empty]. rewrite run_cons.
  destruct (truthy f) eqn:Hf.
  - rewrite run_updates_nonempty;
      cbn [step handleLiveUpdate setLiveText liveText]; rewrite Hs; cbn;
      [reflexivity | exact Hf].
  - apply IH. cbn [step handleLiveUpdate setLiveText liveText].
    rewrite Hs, (not_truthy f Hf). reflexivity.
Qed.

(** After a reset, the transcript is the space-joined concatenation of
    the fragments from the first one that is not empty on. *)
Lemma transcript_from_first_text (fs : list string) (s : state) :
  liveText (run (LiveStart :: map LiveUpdate fs) s) = join_spaces (drop_empty fs).
Proof. rewrite run_cons. now apply run_updates_empty. Qed.

(** [handleLiveUpdate] called with an empty text on an empty transcript
    leaves no space behind.  [LiveTranscriber] never makes that call: its
    [onmessage] hands a text to [onUpdate] only when the text is not
    empty. *)
Example empty_fragment_is_not_joined :
  liveText (run [LiveStart; LiveUpdate ""; LiveUpdate "x"] initial) = "x"%string /\
  join_spaces [""; "x"]%string = " x"%string.
Proof. split; reflexivity. Qed.

(** C2: for every sequence of fragments [f1..fn] delivered after a reset,
    the live transcript is [f1 + " " + f2 + ... + " " + fn], with no space
    before the first fragment or after the last one, and it is the empty
    string when [n = 0].  A delivered fragment is a text that is not
    empty, the only kind that [onmessage] hands to [onUpdate]; the
    statement asks it of the first fragment only. *)
Theorem transcript_is_space_joined (fs : list string) (s : state) :
  starts_with_text fs ->
  liveText (run (LiveStart :: map LiveUpdate fs) s) = join_spaces fs /\
  liveText (run (LiveStart :: map LiveUpdate []) s) = ""%string.
Proof.
  intros Hfs. split; [| reflexivity].
  rewrite transcript_from_first_text. destruct fs as [| f fs]; [reflexivity |].
  cbn in Hfs. cbn [drop_empty]. now rewrite Hfs.
Qed.

Lemma transcript_is_space_joined_witness :
  starts_with_text ["The quick"; "brown fox"]%string /\
  liveText (run (LiveStart :: map LiveUpdate ["The quick"; "brown fox"]%string) initial)
  = join_spaces ["The quick"; "brown fox"]%string.
Proof.
  split; [reflexivity |].
  apply (proj1 (transcript_is_space_joined ["The quick"; "brown fox"]%string
                  initial eq_refl)).
Defined.

Example transcript_scenario :
  liveText (run [LiveStart; LiveUpdate "The quick"; LiveUpdate "brown fox"] initial)
  = "The quick brown fox"%string.
Proof. reflexivity. Qed.

Lemma step_clears (e : event) (s : state) :
  clears e = true -> liveText (step e s) = ""%string.
Proof.
  destruct e as [data | | | | | | | | | |]; cbn; try discriminate; try reflexivity.
  intros H. apply negb_true_iff in H. now rewrite H.
Qed.

Lemma step_appends (e : event) (s : state) :
  clears e = false ->
  exists suffix : string, liveText (step e s) = (liveText s ++ suffix)%string.
Proof.
  assert (Hnil : forall a : string, (a ++ "")%string = a)
    by (induction a as [| x a IH]; [reflexivity | cbn; now rewrite IH]).
  destruct e as [data | vid text | vid message | | | text | message | m
                 | item | text |]; cbn; try discriminate; intros H.
  - apply negb_false_iff in H. rewrite H. exists ""%string. now rewrite Hnil.
  - exists ""%string. rewrite Hnil. unfold summaryResolved.
    now destruct (is_current vid s).
  - exists ""%string. rewrite Hnil. unfold summaryRejected.
    now destruct (is_current vid s).
  - exists ""%string. rewrite Hnil. unfold handleGenerate.
    now destruct (video s).
  - exists ""%string. now rewrite Hnil.
  - exists ""%string. now rewrite Hnil.
  - exists ""%string. now rewrite Hnil.
  - eexists. reflexivity.
Qed.

End AppFacts.

(** ** Reasoning about computations: the rules of [wp] *)

Module Logic.
Import World Live.

Section Rules.
Context {A B : Type}.
Implicit Types (Q : A -> world -> Prop) (E : exn -> world -> Prop) (w : world).

Lemma wp_ret (a : A) Q E w : Q a w -> wp (ret a) Q E w.
Proof. exact (fun H => H). Qed.

Lemma wp_throw (e : exn) Q E w : E e w -> wp (@throw A e) Q E w.
Proof. exact (fun H => H). Qed.

Lemma wp_bind (m : M B) (k : B -> M A) Q E w :
  wp m (fun b w' => wp (k b) Q E w') E w -> wp (bind m k) Q E w.
Proof. unfold wp, bind. destruct (m w) as [[b | e] w']; auto. Qed.

Lemma wp_try_catch (m : M A) (handler : exn -> M A) Q E w :
  wp m Q (fun e w' => wp (handler e) Q E w') w -> wp (try_catch m handler) Q E w.
Proof. unfold wp, try_catch. destruct (m w) as [[a | e] w']; auto. Qed.

Lemma wp_gets (f : world -> A) Q E w : Q (f w) w -> wp (gets f) Q E w.
Proof. exact (fun H => H). Qed.

Lemma wp_deref (a : A) Q E w : Q a w -> wp (deref (Some a)) Q E w.
Proof. exact (fun H => H). Qed.

Lemma wp_mono (m : M A) (Q Q' : A -> world -> Prop) (E E' : exn -> world -> Prop) w :
  (forall a w', Q a w' -> Q' a w') -> (forall e w', E e w' -> E' e w') ->
  wp m Q E w -> wp m Q' E' w.
Proof. unfold wp. destruct (m w) as [[a | e] w']; auto. Qed.

Lemma wp_returns (m : M A) Q w :
  wp m Q no_throw w -> exists a w', m w = (Ok a, w') /\ Q a w'.
Proof. unfold wp, no_throw. destruct (m w) as [[a | e] w']; [eauto | tauto]. Qed.

End Rules.

Lemma wp_modify (f : world -> world) (Q : unit -> world -> Prop) E w :
  Q tt (f w) -> wp (modify f) Q E w.
Proof. exact (fun H => H). Qed.

Lemma wp_emit (e : effect) (Q : unit -> world -> Prop) E w :
  Q tt (set_log (fun l => l ++ [e]) w) -> wp (emit e) Q E w.
Proof. exact (fun H => H). Qed.

Lemma wp_unit (m : M unit) (Q : world -> Prop) w :
  wp m (fun _ => Q) no_throw w -> exists w', m w = (Ok tt, w') /\ Q w'.
Proof.
  intros H. apply wp_returns in H. destruct H as ([] & w' & Hm & HQ). eauto.
Qed.

#[global] Opaque wp.

(** One step of symbolic execution, chosen by the head of the program. *)
Ltac wp_step :=
  cbv beta;
  lazymatch goal with
  | |- wp (bind _ _) _ _ _ => apply wp_bind
  | |- wp (ret _) _ _ _ => apply wp_ret
  | |- wp (throw _) _ _ _ => apply wp_throw
  | |- wp (try_catch _ _) _ _ _ => apply wp_try_catch
  | |- wp (gets _) _ _ _ => apply wp_gets
  | |- wp (modify _) _ _ _ => apply wp_modify
  | |- wp (emit _) _ _ _ => apply wp_emit
  | |- wp (deref (Some _)) _ _ _ => apply wp_deref
  | |- wp (this_ _) _ _ _ => unfold this_
  | |- wp (onUpdate _ _) _ _ _ => unfold onUpdate
  | |- wp (ScriptProcessor_disconnect _) _ _ _ => unfold ScriptProcessor_disconnect
  | |- wp (AudioContext_close _) _ _ _ => unfold AudioContext_close
  | |- wp (set_scriptProcessor _ _) _ _ _ => unfold set_scriptProcessor
  | |- wp (set_inputAudioContext _ _) _ _ _ => unfold set_inputAudioContext
  | |- wp (set_sessionPromise _ _) _ _ _ => unfold set_sessionPromise
  | |- wp (set_settled _ _) _ _ _ => unfold set_settled
  | |- wp (promise_then _ _) _ _ _ => unfold promise_then
  | |- wp (resolve _) _ _ _ => unfold resolve
  | |- wp (reject _) _ _ _ => unfold reject
  | |- wp (new_LiveTranscriber) _ _ _ => unfold new_LiveTranscriber
  | |- wp (connect_begin _) _ _ _ => unfold connect_begin
  | |- wp (connect _ _) _ _ _ => unfold connect
  | |- wp (start _) _ _ _ => unfold start
  | |- wp (stop _) _ _ _ => unfold stop
  | |- wp (call _) _ _ _ => unfold call
  | |- wp run_microtasks _ _ _ => unfold run_microtasks
  end.

(** Reading the fields of a world that was written to. *)
Ltac wsimpl :=
  cbn [default from_option id is_some when fst snd negb andb orb
       fmap option_fmap option_map
       sessionPromise inputAudioContext scriptProcessor
       promises microtasks transcribers processors contexts app ui log
       set_promises set_microtasks set_transcribers set_processors
       set_contexts set_app set_ui set_log settled owner
       node_context onaudioprocess connected
       run_reactions run_reaction map List.app].

Lemma lookup_snoc {X} (l : list X) (x : X) : (l ++ [x]) !! List.length l = Some x.
Proof. now apply list_lookup_middle. Qed.

Lemma alter_snoc {X} (f : X -> X) (l : list X) (x : X) :
  alter f (List.length l) (l ++ [x]) = l ++ [f x].
Proof. rewrite alter_app_r_alt, Nat.sub_diag by lia. reflexivity. Qed.

Ltac wlookup :=
  rewrite ?list_lookup_alter_eq, ?lookup_snoc, ?alter_snoc.

Ltac wp_run := repeat first [wp_step | progress wsimpl | progress wlookup].

End Logic.

(** ** The transcriber *)

Module LiveFacts.
Import Encoder World Live Logic.

Lemma ever_connected_alter (g : promise -> promise) (p this : nat) (ps : list promise) :
  (forall pr, owner (g pr) = owner pr) ->
  existsb (fun pr => Nat.eqb (owner pr) this) (alter g p ps)
  = existsb (fun pr => Nat.eqb (owner pr) this) ps.
Proof.
  intros Hg. revert p. induction ps as [| pr ps IH]; intros [| p]; cbn;
    rewrite ?Hg, ?IH; reflexivity.
Qed.

Ltac sublist_tac :=
  repeat first [apply sublist_nil | apply sublist_skip | apply sublist_cons].

(** What a call of [stop()] at the start of a task leaves behind. *)
Lemma stop_spec (this : nat) (w : world) :
  microtasks w = [] ->
  wp (call (stop this))
     (fun _ w' =>
        held_processor w' this = None /\ held_context w' this = None /\
        held_promise w' this = None /\ microtasks w' = [] /\
        (forall t, ever_connected w' t = ever_connected w t) /\
        app w' = app w /\
        (forall n, held_processor w this = Some n -> audio_handler w' n = None) /\
        (forall p, held_promise w this = Some p -> session_state w this = Open ->
                   promise_state_of w' p = Some (Fulfilled false)) /\
        exists l,
          log w' = log w ++ l /\
          omap teardown_step l `sublist_of` teardown_order /\
          (is_some (held_processor w this) = true ->
           is_some (held_context w this) = true ->
           session_state w this = Open ->
           omap teardown_step l = teardown_order))
     no_throw w.
Proof.
  intros Hm.
  unfold session_state, held_processor, held_context, held_promise,
    ever_connected, promise_state_of.
  destruct (transcribers w !! this) as [[sp ctx scr] |] eqn:Et.
  - destruct scr as [n |], ctx as [c |], sp as [p |];
      try (destruct (promises w !! p) as [[o [rs | [|] |]] |] eqn:Ep);
      repeat first [wp_step | progress wsimpl | progress wlookup
                   | rewrite Et | rewrite Ep | rewrite Hm
                   | progress unfold promise_state_of ].
    all: repeat match goal with |- _ /\ _ => split end;
      try reflexivity; try discriminate.
    all: try (intros t; apply ever_connected_alter; reflexivity).
    all: try (intros n0 Hn0; injection Hn0 as <-;
              unfold audio_handler; wsimpl; rewrite list_lookup_alter_eq;
              destruct (processors w !! n); reflexivity).
    all: try (intros p0 Hp0 Hst; injection Hp0 as <-; try discriminate;
              wsimpl; rewrite ?list_lookup_alter_eq, ?Ep; reflexivity).
    all: eexists; split; [rewrite <- ?app_assoc; try reflexivity;
                          symmetry; apply app_nil_r |].
    all: split; [cbn; sublist_tac |].
    all: cbn; intros H1 H2 Hopen; try reflexivity; try congruence.
    all: destruct (existsb _ _); congruence.
  - repeat first [wp_step | progress wsimpl | rewrite Et | rewrite Hm
                 | progress unfold null_transcriber].
    repeat match goal with |- _ /\ _ => split end; try reflexivity;
      try discriminate.
    exists []. rewrite app_nil_r. repeat split.
    + cbn. sublist_tac.
    + discriminate.
Qed.

Lemma run_microtasks_empty (w : world) :
  microtasks w = [] -> run_microtasks w = (Ok tt, w).
Proof.
  intros Hm. destruct w as [ps mt ts prs cs a u l]. cbn in Hm. subst mt.
  reflexivity.
Qed.

(** With no processor, no context and no session promise, [stop()] does
    nothing. *)
Lemma stop_idle (this : nat) (w : world) :
  held_processor w this = None -> held_context w this = None ->
  held_promise w this = None ->
  stop this w = (Ok tt, w).
Proof.
  unfold held_processor, held_context, held_promise, stop, this_, bind, gets.
  intros Hscr Hctx Hsp.
  rewrite Hscr. cbn [is_some when ret].
  rewrite Hctx. cbn [is_some when ret].
  rewrite Hsp. reflexivity.
Qed.

(** C5: calling [stop()] twice in succession never throws; the second
    call changes nothing; a transcriber on which [connect()] was ever
    called is left with its Session closed, and the transport of a session
    that was open has been closed. *)
Theorem stop_twice (this : nat) (w : world) :
  microtasks w = [] ->
  exists w1 : world,
    call (stop this) w = (Ok tt, w1) /\
    call (stop this) w1 = (Ok tt, w1) /\
    (ever_connected w this = true -> session_state w1 this = Closed) /\
    (forall p, held_promise w this = Some p -> session_state w this = Open ->
               promise_state_of w1 p = Some (Fulfilled false)).
Proof.
  intros Hm. destruct (wp_unit _ _ _ (stop_spec this w Hm))
    as (w1 & Hrun & Hscr & Hctx & Hsp & Hm1 & Hever & _ & _ & Hclosed & _).
  exists w1. split; [exact Hrun |]. split; [| split].
  - unfold call, bind. rewrite (stop_idle this w1 Hscr Hctx Hsp).
    now apply run_microtasks_empty.
  - intros Hc. unfold session_state. now rewrite Hsp, Hever, Hc.
  - exact Hclosed.
Qed.

Lemma stop_twice_witness :
  microtasks capturing_world = [] /\
  exists w1 : world,
    call (stop 0) capturing_world = (Ok tt, w1) /\
    call (stop 0) w1 = (Ok tt, w1) /\
    (ever_connected capturing_world 0 = true -> session_state w1 0 = Closed) /\
    (forall p, held_promise capturing_world 0 = Some p ->
               session_state capturing_world 0 = Open ->
               promise_state_of w1 p = Some (Fulfilled false)).
Proof.
  split; [reflexivity |]. apply (stop_twice 0 capturing_world). reflexivity.
Defined.

(** The session of a capture is open before [stop()] and its transport is
    closed, once, by the two calls. *)
Example stop_twice_scenario :
  session_state capturing_world 0 = Open /\
  session_state (snd ((call (stop 0) ;;; call (stop 0)) capturing_world)) 0 = Closed /\
  promise_state_of (snd ((call (stop 0) ;;; call (stop 0)) capturing_world)) 0
  = Some (Fulfilled false) /\
  omap teardown_step (log (snd ((call (stop 0) ;;; call (stop 0)) capturing_world)))
  = teardown_order.
Proof. repeat split. Qed.



(** Running queued reactions never throws and never touches [App]. *)
Lemma run_reactions_app (q : list (nat * reaction)) (w : world) :
  wp (run_reactions q) (fun _ w' => app w' = app w) no_throw w.
Proof.
  revert w. induction q as [| [p r] q IH]; intros w; cbn [run_reactions].
  - now wp_step.
  - destruct r as [media |]; cbn [run_reaction]; repeat wp_step; exact (IH _).
Qed.

Lemma run_microtasks_app (w0 w : world) :
  app w = app w0 ->
  wp run_microtasks (fun _ w' => app w' = app w0) no_throw w.
Proof.
  intros <-. unfold run_microtasks. repeat wp_step.
  exact (run_reactions_app _ _).
Qed.

(** An audio callback never throws and never touches [App]. *)
Lemma audio_task_app (n : nat) (inputData : list spec_float) (w : world) :
  wp (task (AudioProcess n inputData)) (fun _ w' => app w' = app w) no_throw w.
Proof.
  unfold task. repeat wp_step.
  destruct (audio_handler w n) as [this |];
    [| repeat wp_step; exact (run_reactions_app _ _)].
  unfold onaudioprocess_handler. repeat wp_step.
  destruct (sessionPromise (default null_transcriber (transcribers w !! this)))
    as [p |]; wsimpl; [| repeat wp_step; exact (run_reactions_app _ _)].
  repeat wp_step.
  destruct (promise_state_of w p) as [[rs | b |] |]; repeat wp_step;
    exact (run_reactions_app _ _).
Qed.

Lemma sent_snoc_other (l : list effect) (e : effect) :
  Uploader.sends_frame e = false -> sent (l ++ [e]) = sent l.
Proof.
  intros He. unfold sent. rewrite omap_app. cbn.
  destruct e; try discriminate; cbn; apply app_nil_r.
Qed.

Lemma sent_app (l1 l2 : list effect) : sent (l1 ++ l2) = sent l1 ++ sent l2.
Proof. unfold sent. apply omap_app. Qed.

(** A frame captured during the handshake waits on the promise. *)
Lemma frame_buffered (n this p : nat) (rs : list reaction) (frame : list spec_float)
    (w : world) :
  microtasks w = [] ->
  audio_handler w n = Some this ->
  held_promise w this = Some p ->
  promise_state_of w p = Some (Pending rs) ->
  exists w' : world,
    task (AudioProcess n frame) w = (Ok tt, w') /\
    microtasks w' = [] /\
    audio_handler w' n = Some this /\
    held_promise w' this = Some p /\
    promise_state_of w' p
    = Some (Pending (rs ++ [ThenSendRealtimeInput (createBlob frame)])) /\
    log w' = log w.
Proof.
  intros Hm Hh Hp Hst. apply wp_unit.
  unfold task, held_promise, audio_handler, promise_state_of in *.
  destruct (promises w !! p) as [[o st] |] eqn:Ep; [| discriminate].
  cbn in Hst. injection Hst as ->.
  repeat first [wp_step | progress wsimpl | rewrite Hh | rewrite Hp | rewrite Ep
               | rewrite Hm | progress unfold onaudioprocess_handler
               | progress unfold promise_state_of ].
  rewrite list_lookup_alter_eq, Ep. wsimpl. repeat split; assumption.
Qed.

(** Running the reactions of one promise sends the chunks they carry, in
    their order. *)
Lemma run_reactions_sent (p : nat) (rs : list reaction) (w : world) :
  wp (run_reactions (map (fun r => (p, r)) rs))
     (fun _ w' => sent (log w') = sent (log w) ++ omap reaction_chunk rs /\
                  microtasks w' = microtasks w)
     no_throw w.
Proof.
  revert w. induction rs as [| r rs IH]; intros w.
  - cbn. apply wp_ret. now rewrite app_nil_r.
  - cbn [map run_reactions]. destruct r as [media |]; cbn [run_reaction].
    + repeat first [wp_step | progress wsimpl].
      eapply wp_mono; [| | exact (IH _)]; [| auto].
      intros _ w' [Hs Hmt]. split; [| exact Hmt].
      rewrite Hs. cbn [log set_log]. rewrite sent_app. cbn.
      now rewrite <- app_assoc.
    + repeat first [wp_step | progress wsimpl].
      eapply wp_mono; [| | exact (IH _)]; [| auto].
      intros _ w' [Hs Hmt]. split; [| exact Hmt].
      rewrite Hs. cbn [log set_log set_promises]. rewrite sent_app. cbn.
      now rewrite app_nil_r.
Qed.

(** The handshake succeeds: what waited on the promise is sent. *)
Lemma opened_flushes (p : nat) (rs : list reaction) (w : world) :
  microtasks w = [] ->
  promise_state_of w p = Some (Pending rs) ->
  exists w' : world,
    task (SessionOpened p) w = (Ok tt, w') /\
    microtasks w' = [] /\
    sent (log w') = sent (log w) ++ omap reaction_chunk rs.
Proof.
  intros Hm Hst. apply wp_unit. unfold task.
  repeat first [wp_step | progress wsimpl | rewrite Hst | rewrite Hm].
  eapply wp_mono; [| | exact (run_reactions_sent p rs _)]; [| auto].
  intros _ w' [Hs Hmt]. split; [exact Hmt |].
  rewrite Hs. cbn [log set_log set_promises set_microtasks]. rewrite sent_app.
  cbn. now rewrite app_nil_r.
Qed.

(** C3 (counterexample): a chunk produced while the handshake is pending is
    kept on the session promise and sent once the session opens. *)
Lemma chunk_before_open_is_buffered :
  session_state connecting_world 0 = Connecting /\
  audio_handler connecting_world 0 = Some 0%nat /\
  queued (snd (task (AudioProcess 0 [one_half]) connecting_world))
  = [createBlob [one_half]] /\
  sent (log (snd (tasks [AudioProcess 0 [one_half]; SessionOpened 0] connecting_world)))
  = [createBlob [one_half]].
Proof. repeat match goal with |- _ /\ _ => split end; vm_compute; reflexivity. Qed.

(** C3 (amended): an audio callback never throws and never changes the
    Transcript Accumulator, whatever the state of the Session.  While the
    transcriber holds no session promise (before [connect()] and after
    [stop()]) its chunk is dropped: the world is left exactly as it was.
    After a rejected handshake nothing is sent and nothing is queued.
    While the handshake is pending the chunk reaches no one at first: it is
    added to what waits on the session promise, and when the session opens
    it is sent, after what was waiting before it. *)
Theorem chunk_outside_session (n this : nat) (inputData : list spec_float)
    (w : world) :
  microtasks w = [] ->
  audio_handler w n = Some this ->
  (exists w', task (AudioProcess n inputData) w = (Ok tt, w') /\ app w' = app w) /\
  (held_promise w this = None -> task (AudioProcess n inputData) w = (Ok tt, w)) /\
  (session_state w this = Errored ->
   exists w', task (AudioProcess n inputData) w = (Ok tt, w') /\
              sent (log w') = sent (log w) /\ queued w' = queued w) /\
  (session_state w this = Connecting ->
   exists (p : nat) (rs : list reaction) (w1 w2 : world),
     held_promise w this = Some p /\
     promise_state_of w p = Some (Pending rs) /\
     task (AudioProcess n inputData) w = (Ok tt, w1) /\
     log w1 = log w /\
     promise_state_of w1 p
     = Some (Pending (rs ++ [ThenSendRealtimeInput (createBlob inputData)])) /\
     task (SessionOpened p) w1 = (Ok tt, w2) /\
     sent (log w2)
     = sent (log w) ++ omap reaction_chunk rs ++ [createBlob inputData]).
Proof.
  intros Hm Hh. split; [| split; [| split]].
  - apply wp_unit, audio_task_app.
  - intros Hsp. unfold task, bind, gets. rewrite Hh.
    unfold onaudioprocess_handler, this_, bind, gets.
    unfold held_promise in Hsp. rewrite Hsp. cbn [is_some when ret].
    now apply run_microtasks_empty.
  - unfold session_state, held_promise. intros Hst.
    destruct (sessionPromise (default null_transcriber (transcribers w !! this)))
      as [p |] eqn:Hsp; [| destruct (ever_connected w this); discriminate].
    destruct (promise_state_of w p) as [[rs | [|] |] |] eqn:Hp; try discriminate.
    apply wp_unit. unfold task. repeat wp_step. rewrite Hh.
    unfold onaudioprocess_handler. repeat wp_step. rewrite Hsp. wsimpl.
    repeat wp_step. rewrite Hp. repeat wp_step. wsimpl. rewrite Hm. wsimpl.
    wp_step. wsimpl. split.
    + now apply sent_snoc_other.
    + unfold queued. wsimpl. now rewrite Hm.
  - unfold session_state. intros Hst.
    destruct (held_promise w this) as [p |] eqn:Hsp;
      [| destruct (ever_connected w this); discriminate].
    destruct (promise_state_of w p) as [[rs | [|] |] |] eqn:Hp; try discriminate.
    destruct (frame_buffered n this p rs inputData w Hm Hh Hsp Hp)
      as (w1 & Hrun1 & Hm1 & _ & _ & Hp1 & Hlog1).
    destruct (opened_flushes p _ w1 Hm1 Hp1) as (w2 & Hrun2 & _ & Hsent).
    exists p, rs, w1, w2. repeat (split; [first [assumption | reflexivity] |]).
    rewrite Hsent, Hlog1, omap_app. reflexivity.
Qed.

Lemma chunk_outside_session_witness :
  (microtasks unconnected_world = [] /\
   audio_handler unconnected_world 0 = Some 0%nat /\
   held_promise unconnected_world 0 = None /\
   task (AudioProcess 0 [one_half]) unconnected_world = (Ok tt, unconnected_world)) /\
  (microtasks connecting_world = [] /\
   audio_handler connecting_world 0 = Some 0%nat /\
   session_state connecting_world 0 = Connecting /\
   exists (p : nat) (rs : list reaction) (w1 w2 : world),
     held_promise connecting_world 0 = Some p /\
     promise_state_of connecting_world p = Some (Pending rs) /\
     task (AudioProcess 0 [one_half]) connecting_world = (Ok tt, w1) /\
     log w1 = log connecting_world /\
     promise_state_of w1 p
     = Some (Pending (rs ++ [ThenSendRealtimeInput (createBlob [one_half])])) /\
     task (SessionOpened p) w1 = (Ok tt, w2) /\
     sent (log w2)
     = sent (log connecting_world) ++ omap reaction_chunk rs
       ++ [createBlob [one_half]]).
Proof.
  split.
  - split; [reflexivity |]. split; [reflexivity |]. split; [reflexivity |].
    apply (chunk_outside_session 0 0 [one_half] unconnected_world); reflexivity.
  - split; [reflexivity |]. split; [reflexivity |]. split; [reflexivity |].
    apply (chunk_outside_session 0 0 [one_half] connecting_world); reflexivity.
Defined.

(** After the remote end closed an open session the class still holds
    the fulfilled promise, and the chunk is handed to
    [session.sendRealtimeInput]. *)
Example chunk_after_remote_close :
  session_state (snd (task (SessionClosed 0) capturing_world)) 0 = Closed /\
  sent (log (snd (tasks [SessionClosed 0; AudioProcess 0 [one_half]] capturing_world)))
  = [createBlob [one_half]].
Proof. split; vm_compute; reflexivity. Qed.

(** A chunk produced after [stop()], were the callback still to run, is
    dropped. *)
Example chunk_after_stop :
  held_promise (snd (call (stop 0) capturing_world)) 0 = None /\
  onaudioprocess_handler 0 [one_half] (snd (call (stop 0) capturing_world))
  = (Ok tt, snd (call (stop 0) capturing_world)).
Proof. split; vm_compute; reflexivity. Qed.

(** C8 (counterexample): a message whose transcription text is the empty
    string calls [onUpdate] not at all. *)
Lemma empty_text_is_not_forwarded :
  inputTranscription_text (transcription_message "") = Some ""%string /\
  onmessage 0 (transcription_message "") capturing_world = (Ok tt, capturing_world) /\
  updates (log (snd (task (SessionMessage 0 (transcription_message "")) capturing_world)))
  <> updates (log capturing_world) ++ [""%string].
Proof.
  split; [reflexivity |]. split; [vm_compute; reflexivity |].
  vm_compute. discriminate.
Qed.

(** C8 (amended): for every inbound message whose
    [serverContent.inputTranscription.text] is a non-empty string,
    [onUpdate] is called exactly once, with exactly that text, and the text
    is appended by [handleLiveUpdate]; a message without the field, or
    whose text is empty, calls nothing and changes nothing. *)
Theorem onmessage_updates (this : nat) (message : LiveServerMessage) (w : world) :
  exists (w' : world) (l : list effect),
    onmessage this message w = (Ok tt, w') /\
    log w' = log w ++ l /\
    (forall t, inputTranscription_text message = Some t -> t <> ""%string ->
               l = [OnUpdate this t] /\ updates l = [t] /\
               app w' = App.handleLiveUpdate t (app w)) /\
    (inputTranscription_text message = None \/
     inputTranscription_text message = Some ""%string ->
     l = [] /\ w' = w).
Proof.
  unfold onmessage.
  destruct (inputTranscription_text message) as [[| c s] |] eqn:Ht;
    cbn [truthy App.truthy when].
  - exists w, []. rewrite app_nil_r.
    split; [reflexivity |]. split; [reflexivity |]. split.
    + intros t' Ht' Hne. now injection Ht' as <-.
    + now intros _.
  - eexists _, [OnUpdate this (String c s)].
    split; [reflexivity |]. split; [reflexivity |]. split.
    + intros t' Ht' _. injection Ht' as <-. repeat split.
    + intros [H | H]; discriminate.
  - exists w, []. rewrite app_nil_r.
    split; [reflexivity |]. split; [reflexivity |]. split.
    + intros t' Ht'. discriminate.
    + now intros _.
Qed.

Lemma onmessage_updates_witness :
  inputTranscription_text (transcription_message "The quick") = Some "The quick"%string /\
  exists (w' : world) (l : list effect),
    onmessage 0 (transcription_message "The quick") capturing_world = (Ok tt, w') /\
    log w' = log capturing_world ++ l /\
    (forall t, inputTranscription_text (transcription_message "The quick") = Some t ->
               t <> ""%string ->
               l = [OnUpdate 0 t] /\ updates l = [t] /\
               app w' = App.handleLiveUpdate t (app capturing_world)) /\
    (inputTranscription_text (transcription_message "The quick") = None \/
     inputTranscription_text (transcription_message "The quick") = Some ""%string ->
     l = [] /\ w' = capturing_world).
Proof.
  split; [reflexivity |].
  apply (onmessage_updates 0 (transcription_message "The quick") capturing_world).
Defined.

End LiveFacts.

(** ** The capture controller *)

Module UploaderFacts.
Import Encoder World Live Uploader Logic.

Ltac up_step :=
  lazymatch goal with
  | |- wp (startLiveRecording _) _ _ _ => unfold startLiveRecording
  | |- wp (toggleLivePlayback _) _ _ _ => unfold toggleLivePlayback
  | |- wp (start_capture _ _) _ _ _ => unfold start_capture
  | |- wp (setError _) _ _ _ => unfold setError
  | |- wp (set_transcriberRef _) _ _ _ => unfold set_transcriberRef
  | |- wp (set_mediaRecorderRef _) _ _ _ => unfold set_mediaRecorderRef
  | |- wp (set_timerRef _) _ _ _ => unfold set_timerRef
  | |- wp (setIsRecording _) _ _ _ => unfold setIsRecording
  | |- wp (setIsLivePlayback _) _ _ _ => unfold setIsLivePlayback
  end.

Ltac usimpl :=
  cbn [onLiveUpdate onLiveStart videoRef transcriberRef mediaRecorderRef
       timerRef isRecording isLivePlayback error].

(** A capture start whose handshake is rejected: what it leaves. *)
Lemma rejected_connect_run (k : capture) (o : outcomes) (w : world) :
  microtasks w = [] ->
  onLiveUpdate (ui w) = true ->
  (k = Playback -> isLivePlayback (ui w) = false /\ videoRef (ui w) = true) ->
  connect_opens o = false ->
  wp (start_capture k o)
     (fun _ w' =>
        error (ui w') = Some (failure_message k) /\
        transcriberRef (ui w') = transcriberRef (ui w) /\
        processors w' = processors w /\ contexts w' = contexts w /\
        held_processor w' (List.length (transcribers w)) = None /\
        App.video (app w') = App.video (app w) /\
        log w' = log w ++ [LiveConnect (List.length (promises w));
                           ConsoleError (failure_log k)])
     no_throw w.
Proof.
  intros Hm Hup Hk Ho. destruct k.
  - repeat first [wp_step | up_step | progress wsimpl | progress wlookup
                 | rewrite Hup | rewrite Ho | rewrite Hm
                 | progress unfold promise_state_of ].
    destruct (onLiveStart (ui w));
      repeat first [wp_step | up_step | progress wsimpl | progress wlookup
                   | rewrite Hup | rewrite Ho | rewrite Hm
                   | progress unfold promise_state_of ].
    all: usimpl; unfold held_processor; wsimpl; wlookup; wsimpl;
      rewrite app_nil_r, <- app_assoc; repeat split.
  - destruct (Hk eq_refl) as [Hlive Hvid].
    repeat first [wp_step | up_step | progress wsimpl | progress wlookup
                 | rewrite Hup | rewrite Ho | rewrite Hm | rewrite Hlive | rewrite Hvid
                 | progress unfold promise_state_of ].
    destruct (onLiveStart (ui w));
      repeat first [wp_step | up_step | progress wsimpl | progress wlookup
                   | rewrite Hup | rewrite Ho | rewrite Hm
                   | progress unfold promise_state_of ].
    all: usimpl; unfold held_processor; wsimpl; wlookup; wsimpl;
      rewrite app_nil_r, <- app_assoc; repeat split.
Qed.

(** C7: whenever a capture start reaches [connect()] and the handshake
    is rejected, the rejection reaches the start, whose catch block
    reports it: the error state holds the message "Could not access
    microphone or connect to Live API." (for a recording; "Could not start
    live analysis. ..." for a live playback) and the console the error
    "Error starting live recording:" ("Failed to start live playback
    analysis:").  The page shows the message whenever no video is selected,
    which is where the record button is; with a video selected, where the
    live-playback button is, the page renders no error.  The start returns
    normally, and its only host calls are the connection attempt and the
    console error: no microphone is asked for, no audio callback is
    registered (the callbacks the host may run are the ones it could run
    before) and no frame is sent. *)
Theorem rejected_connect_is_reported (k : capture) (o : outcomes) (w : world) :
  microtasks w = [] ->
  onLiveUpdate (ui w) = true ->
  (k = Playback -> isLivePlayback (ui w) = false /\ videoRef (ui w) = true) ->
  connect_opens o = false ->
  exists (w' : world) (l : list effect),
    start_capture k o w = (Ok tt, w') /\
    error (ui w')
    = Some (match k with
            | Recording => "Could not access microphone or connect to Live API."
            | Playback =>
                "Could not start live analysis. Browser might restrict capturing media from this source."
            end)%string /\
    shown_error w'
    = match App.video (app w) with
      | None => error (ui w')
      | Some _ => None
      end /\
    log w' = log w ++ l /\
    l = [LiveConnect (List.length (promises w));
         ConsoleError (match k with
                       | Recording => "Error starting live recording:"
                       | Playback => "Failed to start live playback analysis:"
                       end)] /\
    List.filter registers_audio l = [] /\
    List.filter sends_frame l = [] /\
    ~ In GetUserMedia l /\
    (forall n, audio_handler w' n = audio_handler w n) /\
    held_processor w' (List.length (transcribers w)) = None /\
    transcriberRef (ui w') = transcriberRef (ui w).
Proof.
  intros Hm Hup Hk Ho.
  destruct (wp_unit _ _ _ (rejected_connect_run k o w Hm Hup Hk Ho))
    as (w' & Hrun & Herr & Href & Hprs & Hctx & Hheld & Hvid & Hlog).
  exists w', [LiveConnect (List.length (promises w)); ConsoleError (failure_log k)].
  split; [exact Hrun |].
  split; [rewrite Herr; now destruct k |].
  split; [unfold shown_error; rewrite Hvid, Herr; now destruct k, (App.video (app w)) |].
  split; [exact Hlog |].
  split; [now destruct k |].
  repeat (split; [first [assumption | reflexivity] |]).
  split; [| split; [| auto]].
  - cbn. intros [H | [H | []]]; discriminate.
  - intros n. unfold audio_handler. now rewrite Hprs, Hctx.
Qed.

Lemma rejected_connect_is_reported_witness :
  microtasks initial = [] /\
  onLiveUpdate (ui initial) = true /\
  exists (w' : world) (l : list effect),
    start_capture Recording
      {| connect_opens := false; getUserMedia_grants := true;
         captureStream := true; mozCaptureStream := false; audioTracks := 1 |}
      initial = (Ok tt, w') /\
    error (ui w')
    = Some "Could not access microphone or connect to Live API."%string /\
    shown_error w' = error (ui w') /\
    log w' = log initial ++ l /\
    l = [LiveConnect 0; ConsoleError "Error starting live recording:"] /\
    List.filter registers_audio l = [] /\
    List.filter sends_frame l = [] /\
    ~ In GetUserMedia l /\
    (forall n, audio_handler w' n = audio_handler initial n) /\
    held_processor w' (List.length (transcribers initial)) = None /\
    transcriberRef (ui w') = transcriberRef (ui initial).
Proof.
  split; [reflexivity |]. split; [reflexivity |].
  apply (rejected_connect_is_reported Recording
           {| connect_opens := false; getUserMedia_grants := true;
              captureStream := true; mozCaptureStream := false; audioTracks := 1 |}
           initial); try reflexivity.
  discriminate.
Defined.

(** Every capture start that gets past its guards empties the live
    transcript, whatever the host answers afterwards. *)
Lemma capture_start_resets (k : capture) (o : outcomes) (w : world) :
  microtasks w = [] ->
  onLiveUpdate (ui w) = true ->
  onLiveStart (ui w) = true ->
  (k = Playback -> isLivePlayback (ui w) = false /\ videoRef (ui w) = true) ->
  wp (start_capture k o) (fun _ w' => App.liveText (app w') = ""%string) no_throw w.
Proof.
  intros Hm Hup Hst Hk.
  destruct o as [co gum cs moz [| tracks]]; destruct k.
  all: try (destruct (Hk eq_refl) as [Hlive Hvid]).
  all: destruct co, gum, cs, moz.
  all: repeat first [wp_step | up_step | progress wsimpl | progress wlookup
                    | progress usimpl
                    | progress cbn [connect_opens getUserMedia_grants captureStream
                                    mozCaptureStream audioTracks Nat.eqb]
                    | rewrite Hup | rewrite Hst | rewrite Hm
                    | rewrite Hlive | rewrite Hvid
                    | progress unfold promise_state_of ].
  all: reflexivity.
Qed.

(** C9 (counterexample): clearing the selection, or selecting an uploaded
    file, empties a live transcript although no capture starts. *)
Lemma liveText_cleared_without_capture_start :
  App.liveText (App.run [App.LiveStart; App.LiveUpdate "hello"] App.initial)
  = "hello"%string /\
  App.liveText (App.run [App.LiveStart; App.LiveUpdate "hello"; App.Clear] App.initial)
  = ""%string /\
  App.liveText
    (App.run [App.LiveStart; App.LiveUpdate "hello";
              App.VideoSelect {| App.id := "1"; App.sourceType := App.upload;
                                 App.name := "clip.mp4" |}] App.initial)
  = ""%string /\
  exists (s : App.state) (e : App.event),
    e <> App.LiveStart /\ App.liveText s <> ""%string /\
    App.liveText (App.step e s) = ""%string.
Proof.
  repeat (split; [reflexivity |]).
  exists (App.run [App.LiveStart; App.LiveUpdate "hello"] App.initial), App.Clear.
  repeat split; discriminate.
Qed.

(** C9 (amended): a capture start empties the live transcript; a live
    update only appends to it; apart from a capture start, the transcript
    is emptied by clearing the selection, by restoring a history item and
    by selecting a video whose source is not a recording, and every other
    event leaves it as it was or extends it. *)
Theorem liveText_lifecycle :
  (forall (k : capture) (o : outcomes) (w : world),
     microtasks w = [] -> onLiveUpdate (ui w) = true -> onLiveStart (ui w) = true ->
     (k = Playback -> isLivePlayback (ui w) = false /\ videoRef (ui w) = true) ->
     exists w', start_capture k o w = (Ok tt, w') /\
                App.liveText (app w') = ""%string) /\
  (forall (text : string) (s : App.state),
     App.liveText (App.step (App.LiveUpdate text) s)
     = (App.liveText s ++ (if App.truthy (App.liveText s) then " " else "")
        ++ text)%string) /\
  (forall (e : App.event) (s : App.state),
     App.clears e = true -> App.liveText (App.step e s) = ""%string) /\
  (forall (e : App.event) (s : App.state),
     App.clears e = false ->
     exists suffix : string,
       App.liveText (App.step e s) = (App.liveText s ++ suffix)%string).
Proof.
  split; [| split; [| split]].
  - intros k o w Hm Hup Hst Hk.
    apply wp_unit. now apply capture_start_resets.
  - reflexivity.
  - apply AppFacts.step_clears.
  - apply AppFacts.step_appends.
Qed.

Lemma liveText_lifecycle_witness :
  microtasks capturing_world = [] /\
  exists w',
    start_capture Recording
      {| connect_opens := true; getUserMedia_grants := true;
         captureStream := true; mozCaptureStream := false; audioTracks := 1 |}
      (snd (tasks [SessionMessage 0 (transcription_message "hello")] capturing_world))
    = (Ok tt, w') /\
    App.liveText (app w') = ""%string.
Proof.
  split; [reflexivity |].
  apply (proj1 liveText_lifecycle Recording
           {| connect_opens := true; getUserMedia_grants := true;
              captureStream := true; mozCaptureStream := false; audioTracks := 1 |}
           (snd (tasks [SessionMessage 0 (transcription_message "hello")]
                       capturing_world)));
    try reflexivity.
  discriminate.
Defined.

End UploaderFacts.

(** ** Strings *)

Module TextFacts.
Import Text.

Lemma length_append (a b : string) :
  String.length (a ++ b) = (String.length a + String.length b)%nat.
Proof. induction a as [| c a IH]; cbn; [reflexivity | now rewrite IH]. Qed.

Lemma length_substring (n : nat) (s : string) :
  String.length (String.substring 0 n s) = Nat.min n (String.length s).
Proof.
  revert s. induction n as [| n IH]; intros [| c s]; cbn; try reflexivity.
  now rewrite IH.
Qed.

Lemma substring_prefix (n : nat) (s t : string) :
  (n <= String.length s)%nat ->
  String.substring 0 n (String.substring 0 n s ++ t) = String.substring 0 n s.
Proof.
  revert s. induction n as [| n IH]; intros s Hn.
  - now destruct (String.substring 0 0 s ++ t)%string, s.
  - destruct s as [| c s]; cbn in *; [lia |].
    rewrite IH; [reflexivity | lia].
Qed.

Lemma truthy_length (s : string) :
  truthy (Some s) = negb (String.length s =? 0)%nat.
Proof. now destruct s. Qed.

Lemma or_else_truthy (v : option string) (fallback : string) :
  truthy v = true -> Some (or_else v fallback) = v.
Proof. now destruct v as [[| c s] |]. Qed.

Lemma or_else_not_empty (v : option string) (fallback : string) :
  fallback <> EmptyString -> or_else v fallback <> EmptyString.
Proof. destruct v as [[| c s] |]; cbn; congruence. Qed.

(** A string without the separator is a single piece. *)
Lemma split_free (sep : ascii) (s : string) :
  free_of sep s -> split sep s = [s].
Proof.
  unfold free_of. induction s as [| c s IH]; cbn; intros H; [reflexivity |].
  inversion H as [| ? ? Hc Hs]; subst. now rewrite Hc, IH.
Qed.

Lemma split_append (sep : ascii) (a b : string) :
  free_of sep a ->
  split sep (a ++ String sep b) = a :: split sep b.
Proof.
  unfold free_of. induction a as [| c a IH]; cbn; intros H.
  - now rewrite Ascii.eqb_refl.
  - inversion H as [| ? ? Hc Hs]; subst. now rewrite Hc, IH.
Qed.

End TextFacts.

Module SpeechFacts.
Import Base64 Encoder Text Gemini TextFacts.

Lemma sextets_padding_length (bytes : list Z) :
  (List.length (sextets bytes) + (3 - List.length bytes mod 3) mod 3
   = 4 * ((List.length bytes + 2) / 3))%nat.
Proof.
  induction bytes as [| a | a b | a b c l IH] using Base64Facts.list_ind3;
    try reflexivity.
  cbn [sextets List.length].
  replace (S (S (S (List.length l)))) with (List.length l + 1 * 3)%nat by lia.
  rewrite Nat.Div0.mod_add.
  replace (List.length l + 1 * 3 + 2)%nat with (List.length l + 2 + 1 * 3)%nat by lia.
  rewrite Nat.div_add by lia. lia.
Qed.

Lemma length_string_of_list_ascii (l : list ascii) :
  String.length (string_of_list_ascii l) = List.length l.
Proof. induction l; cbn; congruence. Qed.

(** The length of the base64 text of a buffer. *)
Lemma encode_length (bytes : buffer) :
  String.length (encode bytes) = (4 * ((List.length bytes + 2) / 3))%nat.
Proof.
  rewrite EncoderFacts.encode_spec. unfold btoa.
  rewrite list_ascii_of_string_of_list_ascii.
  rewrite length_string_of_list_ascii, length_app, length_map.
  unfold padding. rewrite length_replicate.
  pose proof (sextets_padding_length (map charCode (map fromCharCode bytes))) as H.
  rewrite !length_map in H. now rewrite !length_map.
Qed.

(** X1: a chunk of [n] samples carries [2 n] bytes, written as
    [4 * ceil (2 n / 3)] characters of base64, whatever the samples are. *)
Theorem createBlob_data_length (data : list spec_float) :
  String.length (Encoder.data (createBlob data))
  = (4 * ((2 * List.length data + 2) / 3))%nat.
Proof.
  unfold createBlob. cbn [Encoder.data]. rewrite encode_length.
  rewrite EncoderFacts.fill_int16_spec, EncoderFacts.length_flat_map_bytes16.
  now rewrite length_map.
Qed.

(** X2: [generateSpeech] gives back the bytes that the service encoded with
    [encode], except when there are none: an empty audio is a failure. *)
Theorem generateSpeech_decodes (generateContent : string -> option (option string))
    (text : string) (bytes : list Z) :
  Forall is_byte bytes ->
  generateContent (safeText text) = Some (Some (encode bytes)) ->
  generateSpeech generateContent text
  = match bytes with
    | [] => Rejected speech_failed
    | _ :: _ => Resolved bytes
    end.
Proof.
  intros Hb Hapi. unfold generateSpeech. rewrite Hapi.
  rewrite truthy_length, encode_length.
  destruct bytes as [| b bytes]; [reflexivity |].
  replace (_ =? 0)%nat with false.
  - cbn [negb].
    assert (Hne : or_else (Some (encode (b :: bytes))) EmptyString = encode (b :: bytes)).
    { destruct (encode (b :: bytes)); reflexivity. }
    now rewrite Hne, EncoderFacts.decode_encode.
  - symmetry. apply Nat.eqb_neq. cbn [List.length].
    pose proof (Nat.div_mod_eq (S (List.length bytes) + 2) 3).
    pose proof (Nat.mod_upper_bound (S (List.length bytes) + 2) 3). lia.
Qed.

Lemma generateSpeech_decodes_witness :
  Forall is_byte [0; 1; 2] /\
  generateSpeech (fun _ => Some (Some (encode [0; 1; 2]))) "Hello" = Resolved [0; 1; 2].
Proof.
  split.
  - repeat constructor; unfold is_byte; lia.
  - apply (generateSpeech_decodes (fun _ => Some (Some (encode [0; 1; 2]))) "Hello"
             [0; 1; 2]).
    + repeat constructor; unfold is_byte; lia.
    + reflexivity.
Defined.

(** X3: the text sent to the speech service has at most 2003 characters: a
    text of more than 2000 characters is cut to its first 2000 characters
    and three dots, so that a text of 2001 or 2002 characters gets longer;
    a shorter text is sent as it is. *)
Theorem safeText_length (text : string) :
  String.length (safeText text)
  = (if (2000 <? String.length text)%nat then 2003%nat else String.length text) /\
  String.substring 0 2000 (safeText text) = String.substring 0 2000 text /\
  ((String.length text <= 2000)%nat -> safeText text = text).
Proof.
  unfold safeText.
  destruct (Nat.ltb_spec 2000 (String.length text)) as [Hlt | Hge].
  - split; [| split].
    + rewrite length_append, length_substring.
      rewrite Nat.min_l by lia. reflexivity.
    + apply substring_prefix. lia.
    + lia.
  - repeat split.
Qed.

Lemma safeText_length_witness :
  String.length (safeText "Hello") = 5%nat /\
  String.substring 0 2000 (safeText "Hello") = String.substring 0 2000 "Hello" /\
  safeText "Hello" = "Hello"%string.
Proof.
  destruct (safeText_length "Hello") as (Hlen & Hsub & Hsame).
  split; [exact Hlen |]. split; [exact Hsub |].
  apply Hsame. vm_compute. lia.
Defined.

(** X4: of a text of more than 2000 characters, only the first 2000 are
    read. *)
Theorem generateSpeech_reads_2000 (generateContent : string -> option (option string))
    (text1 text2 : string) :
  (2000 < String.length text1)%nat -> (2000 < String.length text2)%nat ->
  String.substring 0 2000 text1 = String.substring 0 2000 text2 ->
  generateSpeech generateContent text1 = generateSpeech generateContent text2.
Proof.
  intros H1 H2 Heq. unfold generateSpeech, safeText.
  apply Nat.ltb_lt in H1, H2. now rewrite H1, H2, Heq.
Qed.

Lemma generateSpeech_reads_2000_witness :
  generateSpeech (fun t => Some (Some t)) (long_text "b")
  = generateSpeech (fun t => Some (Some t)) (long_text "c").
Proof.
  apply (generateSpeech_reads_2000 (fun t => Some (Some t)) (long_text "b")
           (long_text "c")).
  - vm_compute. lia.
  - vm_compute. lia.
  - vm_compute. reflexivity.
Defined.

End SpeechFacts.


(** ** [generateVideoSummary] *)

Module GeminiFacts.
Import Text Media Gemini TextFacts.

Lemma or_else_some (s fallback : string) :
  s <> EmptyString -> or_else (Some s) fallback = s.
Proof. destruct s; [congruence | reflexivity]. Qed.

Lemma truthy_or_else (v : option string) (fallback : string) :
  truthy v = true -> or_else v fallback <> EmptyString.
Proof. destruct v as [[| c s] |]; cbn; congruence. Qed.

Lemma build_request_inline (video : VideoData) (data type : string)
    (mode : App.SummaryMode) (tier : ProcessingTier) :
  data <> EmptyString -> type <> EmptyString ->
  base64Data video = Some data -> mimeType video = Some type ->
  build_request video mode tier
  = inr {| model := modelId tier;
           parts := [InlineData type data; TextPart (getPromptForMode mode)];
           config := {| thinkingBudget := thinking tier; googleSearch := false |} |}.
Proof.
  intros Hd Ht E1 E2. unfold build_request. rewrite E1, E2.
  destruct data as [| c data]; [congruence |].
  destruct type as [| c' type]; [congruence |].
  reflexivity.
Qed.

Lemma no_source_is_rejected (generateContent : Request -> ApiOutcome)
    (video : VideoData) (mode : App.SummaryMode) (tier : ProcessingTier) :
  truthy (base64Data video) && truthy (mimeType video) = false ->
  truthy (url video) = false ->
  generateVideoSummary (inr generateContent) video mode tier = Rejected invalid_source.
Proof.
  intros Hd Hu. unfold generateVideoSummary, build_request. now rewrite Hd, Hu.
Qed.

(** X5: when the file's data and its type are there, the request carries
    them with the prompt of the mode and never asks for the search tool;
    the name and the URL of the video are not read. *)
Theorem inline_data_has_priority (v1 v2 : VideoData) (data type : string)
    (mode : App.SummaryMode) (tier : ProcessingTier) :
  data <> EmptyString -> type <> EmptyString ->
  base64Data v1 = Some data -> mimeType v1 = Some type ->
  base64Data v2 = Some data -> mimeType v2 = Some type ->
  build_request v2 mode tier = build_request v1 mode tier /\
  exists r : Request,
    build_request v1 mode tier = inr r /\
    googleSearch (config r) = false /\
    parts r = [InlineData type data; TextPart (getPromptForMode mode)].
Proof.
  intros Hd Ht E1 E2 E3 E4.
  rewrite (build_request_inline v1 data type), (build_request_inline v2 data type)
    by assumption.
  split; [reflexivity |]. eexists. repeat split.
Qed.

Lemma inline_data_has_priority_witness :
  build_request clip_with_url App.OVERVIEW FAST = build_request clip App.OVERVIEW FAST /\
  exists r : Request,
    build_request clip App.OVERVIEW FAST = inr r /\
    googleSearch (config r) = false /\
    parts r = [InlineData "video/mp4" "AAEC"; TextPart (getPromptForMode App.OVERVIEW)].
Proof.
  apply (inline_data_has_priority clip clip_with_url "AAEC" "video/mp4"
           App.OVERVIEW FAST); first [reflexivity | discriminate].
Defined.

Lemma settlement_not_empty (ai : Client) (video : VideoData)
    (mode : App.SummaryMode) (tier : ProcessingTier) :
  match generateVideoSummary ai video mode tier with
  | Resolved text => text <> EmptyString
  | Rejected message => message <> EmptyString
  end.
Proof.
  unfold generateVideoSummary.
  destruct ai as [message | generateContent].
  { now apply or_else_not_empty. }
  destruct (build_request video mode tier) as [message | request].
  { now apply or_else_not_empty. }
  destruct (generateContent request) as [message | text].
  { now apply or_else_not_empty. }
  destruct (truthy text) eqn:Ht.
  - now apply truthy_or_else.
  - now apply or_else_not_empty.
Qed.

(** X6: the promise of [generateVideoSummary] never settles with an empty
    string, neither as the summary nor as the message of the error; a
    summary is the text of the response, unchanged. *)
Theorem summary_is_never_empty (ai : Client) (video : VideoData)
    (mode : App.SummaryMode) (tier : ProcessingTier) :
  match generateVideoSummary ai video mode tier with
  | Resolved text =>
      text <> EmptyString /\
      exists (generateContent : Request -> ApiOutcome) (request : Request),
        ai = inr generateContent /\
        build_request video mode tier = inr request /\
        generateContent request = ApiResponse (Some text)
  | Rejected message => message <> EmptyString
  end.
Proof.
  pose proof (settlement_not_empty ai video mode tier) as Hne.
  unfold generateVideoSummary in *.
  destruct ai as [message | generateContent]; [exact Hne |].
  destruct (build_request video mode tier) as [message | request]; [exact Hne |].
  destruct (generateContent request) as [message | text] eqn:Hres; [exact Hne |].
  destruct (truthy text) eqn:Ht; [| exact Hne].
  split; [exact Hne |]. exists generateContent, request.
  repeat split. rewrite Hres. f_equal. symmetry. now apply or_else_truthy.
Qed.

(** X7: a video without both the file's data and its type, and without a
    URL, is rejected as an invalid source whatever the service would
    answer, and no other video is. *)
Theorem invalid_source_iff (video : VideoData) (mode : App.SummaryMode)
    (tier : ProcessingTier) :
  (forall generateContent : Request -> ApiOutcome,
     generateVideoSummary (inr generateContent) video mode tier
     = Rejected invalid_source)
  <-> truthy (base64Data video) && truthy (mimeType video) = false /\
      truthy (url video) = false.
Proof.
  split.
  - intros H. specialize (H (fun _ => ApiResponse (Some "summary"%string))).
    unfold generateVideoSummary, build_request in H.
    destruct (truthy (base64Data video) && truthy (mimeType video));
      [discriminate |].
    destruct (truthy (url video)); [discriminate |]. now split.
  - intros [Hd Hu] generateContent. now apply no_source_is_rejected.
Qed.

Lemma invalid_source_iff_witness :
  generateVideoSummary (inr (fun _ => ApiResponse (Some "A summary."%string)))
    (AppHistory.restoredVideo None History.first_item) App.OVERVIEW FAST
  = Rejected invalid_source.
Proof.
  apply (proj2 (invalid_source_iff (AppHistory.restoredVideo None History.first_item)
                  App.OVERVIEW FAST)).
  split; reflexivity.
Defined.

(** X30: a video without the data of a file and with a link (what
    [handleUrlSubmit] selects for a link to YouTube, or for a link whose
    media cannot be downloaded) is summarised through the search tool
    alone: the request is one text, built from the name, the link and the
    prompt of the mode, and for a transcript from the more lenient prompt
    instead of the verbatim one; the type of the video is not read, and the
    mode selected for it by default is the overview. *)
Theorem link_is_searched (video : VideoData) (link : string)
    (mode : App.SummaryMode) (tier : ProcessingTier) :
  base64Data video = None ->
  url video = Some link ->
  link <> EmptyString ->
  (exists r : Request,
     build_request video mode tier = inr r /\
     googleSearch (config r) = true /\
     parts r = [TextPart (searchPrompt (name video) link
                            (match mode with
                             | App.TRANSCRIPT => transcriptViaSearch
                             | _ => getPromptForMode mode
                             end))]) /\
  (sourceType video = App.youtube \/ sourceType video = App.url ->
   App.defaultMode (sourceType video) = App.OVERVIEW).
Proof.
  intros Hd Hu Hl. split.
  - unfold build_request. rewrite Hd, Hu. cbn [truthy andb].
    destruct link as [| c link]; [congruence |]. cbn [truthy or_else].
    eexists. repeat split.
  - intros [-> | ->]; reflexivity.
Qed.

Lemma link_is_searched_witness :
  exists r : Request,
    build_request (Files.youtube_video "abcdefghijk" "https://youtu.be/abcdefghijk"
                     "A talk") App.TRANSCRIPT THINKING = inr r /\
    googleSearch (config r) = true /\
    parts r = [TextPart (searchPrompt "A talk" "https://youtu.be/abcdefghijk"
                           transcriptViaSearch)].
Proof.
  apply (link_is_searched (Files.youtube_video "abcdefghijk"
                             "https://youtu.be/abcdefghijk" "A talk")
           "https://youtu.be/abcdefghijk" App.TRANSCRIPT THINKING).
  - reflexivity.
  - reflexivity.
  - discriminate.
Defined.

End GeminiFacts.
(** ** The history *)

Module HistoryFacts.
Import Media History.

Section Json.
Variable stringify : list HistoryItem -> string.
Variable parse : string -> option (list HistoryItem).

Lemma length_filter_le {A} (f : A -> bool) (l : list A) :
  (List.length (List.filter f l) <= List.length l)%nat.
Proof. induction l as [| a l IH]; cbn; [lia | destruct (f a); cbn; lia]. Qed.

Lemma apply_length (op : operation) (s : state) :
  (List.length (history (apply stringify op s))
   <= Nat.max 20 (List.length (history s)))%nat.
Proof.
  destruct op as [item | i |]; cbn [apply saveToHistory deleteHistoryItem
                                    clearHistory history].
  - rewrite length_take. lia.
  - pose proof (length_filter_le (fun item => negb (String.eqb (id item) i))
                  (history s)). lia.
  - cbn. lia.
Qed.

Lemma history_run_snoc (ops : list operation) (op : operation) (s : state) :
  run stringify (ops ++ [op]) s = apply stringify op (run stringify ops s).
Proof. unfold run. now rewrite fold_left_app. Qed.

(** The state that the pending updates lead to. *)
Lemma render_call (op : operation) (p : page) :
  current (render stringify (call op p))
  = process stringify op
      (current (render stringify
                  {| current := current (call op p); pending := pending p |})).
Proof.
  destruct op; cbn [render call current pending]; now rewrite fold_left_app.
Qed.

(** With nothing pending, a call and the render that follows it make the
    operation as [apply] tells it. *)
Lemma render_call_idle (op : operation) (p : page) :
  pending p = [] ->
  current (render stringify (call op p)) = apply stringify op (current p).
Proof.
  intros Hp. destruct op; cbn [render call current pending apply]; rewrite Hp;
    reflexivity.
Qed.

Lemma process_in_step (op : operation) (s : state) :
  (op = ClearAll -> storage s = None) ->
  in_step stringify (process stringify op s).
Proof.
  destruct op; cbn; [reflexivity | reflexivity |].
  intros H. now rewrite H.
Qed.

Lemma play_in_step (ms : list moment) :
  forall (idle : bool) (p : page),
    (idle = true -> pending p = []) ->
    in_step stringify (current (render stringify p)) ->
    clears_when_idle idle ms = true ->
    in_step stringify (current (render stringify (play stringify ms p))).
Proof.
  induction ms as [| m ms IH]; intros idle p Hidle Hstep Hcalm; [exact Hstep |].
  cbn [play fold_left]. change (fold_left _ ms ?q) with (play stringify ms q).
  destruct m as [op |].
  - destruct op as [item | i |]; cbn [clears_when_idle] in Hcalm.
    + apply (IH false); [discriminate | | exact Hcalm].
      cbn [tick]. rewrite render_call. now apply process_in_step.
    + apply (IH false); [discriminate | | exact Hcalm].
      cbn [tick]. rewrite render_call. now apply process_in_step.
    + apply andb_prop in Hcalm as [Hi Hcalm].
      apply (IH false); [discriminate | | exact Hcalm].
      cbn [tick]. rewrite render_call_idle by auto. reflexivity.
  - cbn [clears_when_idle] in Hcalm.
    apply (IH true); [reflexivity | | exact Hcalm].
    exact Hstep.
Qed.

Lemma process_history (op : operation) (s s' : state) :
  history s = history s' ->
  history (process stringify op s) = history (apply stringify op s').
Proof. intros H. destruct op; cbn; rewrite ?H; reflexivity. Qed.

Lemma pending_history (ops : list operation) :
  forall s s' : state,
    history s = history s' ->
    history (fold_left (fun s op => process stringify op s) ops s)
    = history (run stringify ops s').
Proof.
  induction ops as [| op ops IH]; intros s s' H; [exact H |].
  cbn [fold_left run]. apply IH. now apply process_history.
Qed.

(** The history that the page shows after its next render is the one that
    the calls made so far give, whenever React has rendered in between. *)
Lemma play_history (ms : list moment) :
  forall (p : page) (s : state),
    history s = history (current p) ->
    history (current (render stringify (play stringify ms p)))
    = history (run stringify (pending p ++ calls ms) s).
Proof.
  induction ms as [| m ms IH]; intros p s H.
  - cbn [play fold_left calls render current]. rewrite app_nil_r.
    now apply pending_history.
  - cbn [play fold_left]. change (fold_left _ ms ?q) with (play stringify ms q).
    destruct m as [op |]; cbn [tick calls].
    + rewrite (IH (call op p) s).
      * destruct op; cbn [call pending]; now rewrite <- app_assoc.
      * destruct op; cbn [call current history]; exact H.
    + rewrite (IH (render stringify p) (run stringify (pending p) s)).
      * cbn [render pending app]. unfold run. now rewrite fold_left_app.
      * symmetry. now apply pending_history.
Qed.

Lemma in_step_reload (s : state) :
  in_step stringify s ->
  parse (stringify (history s)) = Some (history s) ->
  stringify (history s) <> EmptyString ->
  reload parse s = s.
Proof.
  destruct s as [h [text |]]; unfold in_step, reload, load; cbn [history storage].
  - intros -> Hp Hne. destruct (stringify h) as [| c str]; [congruence |].
    now rewrite Hp.
  - now intros ->.
Qed.

End Json.

(** X8: the history never holds more than 20 items, once it holds no
    more than that: no sequence of saved results, deletions and clearings
    makes it longer than 20 items or than it was. *)
Theorem history_is_bounded (stringify : list HistoryItem -> string)
    (ops : list operation) (s : state) :
  (List.length (history (run stringify ops s))
   <= Nat.max 20 (List.length (history s)))%nat.
Proof.
  induction ops as [| op ops IH] using rev_ind; [cbn; lia |].
  rewrite history_run_snoc.
  pose proof (apply_length stringify op (run stringify ops s)). lia.
Qed.

(** X9: a saved result comes first and moves every earlier item one place
    down; the item that was the twentieth is dropped. *)
Theorem saveToHistory_is_newest_first (stringify : list HistoryItem -> string)
    (item : HistoryItem) (s : state) :
  history (saveToHistory stringify item s) !! 0%nat = Some item /\
  (forall i : nat, (i < 19)%nat ->
     history (saveToHistory stringify item s) !! S i = history s !! i) /\
  (forall i : nat, (19 <= i)%nat ->
     history (saveToHistory stringify item s) !! S i = None).
Proof.
  cbn [saveToHistory history]. split; [reflexivity |]. split.
  - intros i Hi. rewrite lookup_take_lt by lia. reflexivity.
  - intros i Hi. apply lookup_take_ge. lia.
Qed.

Lemma saveToHistory_is_newest_first_witness :
  history (saveToHistory write_ids second_item (saveToHistory write_ids first_item initial))
  !! 1%nat
  = history (saveToHistory write_ids first_item initial) !! 0%nat.
Proof.
  apply (proj1 (proj2 (saveToHistory_is_newest_first write_ids second_item
                         (saveToHistory write_ids first_item initial))) 0%nat).
  lia.
Defined.

(** X10: what is left in the local storage is the history itself, so that
    loading the page again gives the same list (the host parsing what it
    has written, which is never an empty text), after any sequence of
    calls of [saveToHistory], [deleteHistoryItem] and [clearHistory] and of
    renders in which no [clearHistory] is called while an update is
    pending.  Without that condition it is not so: when two results are
    saved and the history is cleared before React has rendered, the updates
    of the saves write to the storage after the clearing has emptied it,
    the page shows an empty history and the storage holds the two results,
    which come back when the page is loaded again. *)
Theorem history_survives_reload (stringify : list HistoryItem -> string)
    (parse : string -> option (list HistoryItem)) (ms : list moment) (p : page) :
  pending p = [] ->
  in_step stringify (current p) ->
  (clears_when_idle true ms = true ->
   in_step stringify (current (render stringify (play stringify ms p))) /\
   (parse (stringify (history (current (render stringify (play stringify ms p)))))
    = Some (history (current (render stringify (play stringify ms p)))) ->
    stringify (history (current (render stringify (play stringify ms p))))
    <> EmptyString ->
    reload parse (current (render stringify (play stringify ms p)))
    = current (render stringify (play stringify ms p)))) /\
  (forall a b : HistoryItem,
     current (render stringify
                (play stringify [Call (Save a); Call (Save b); Call ClearAll] p))
     = {| history := [];
          storage := Some (stringify
                             (take 20 (b :: take 20 (a :: history (current p))))) |}).
Proof.
  intros Hp Hstep. split.
  - intros Hcalm.
    assert (H : in_step stringify (current (render stringify (play stringify ms p)))).
    { apply (play_in_step stringify ms true p); auto.
      unfold render. now rewrite Hp. }
    split; [exact H |]. now apply in_step_reload.
  - intros a b. cbn. now rewrite Hp.
Qed.

Lemma history_survives_reload_witness :
  reload read_ids
    (current (render write_ids
                (play write_ids
                   [Call (Save first_item); Call (Save second_item); Render;
                    Call ClearAll; Call (Save first_item)] first_page)))
  = current (render write_ids
               (play write_ids
                  [Call (Save first_item); Call (Save second_item); Render;
                   Call ClearAll; Call (Save first_item)] first_page)).
Proof.
  apply (proj1 (history_survives_reload write_ids read_ids
                  [Call (Save first_item); Call (Save second_item); Render;
                   Call ClearAll; Call (Save first_item)] first_page
                  eq_refl eq_refl) eq_refl).
  - reflexivity.
  - vm_compute. discriminate.
Defined.

(** Two results saved and cleared before the next render are gone from the
    page and back after a reload. *)
Example cleared_history_comes_back :
  history (current (render write_ids
                      (play write_ids
                         [Call (Save first_item); Call (Save second_item);
                          Call ClearAll] first_page))) = [] /\
  history (reload read_ids
             (current (render write_ids
                         (play write_ids
                            [Call (Save first_item); Call (Save second_item);
                             Call ClearAll] first_page))))
  = [second_item; first_item].
Proof. split; reflexivity. Qed.

(** X11: saving a result and deleting it again (its identifier being a
    fresh one) gives the history back, except that the twentieth item is
    lost. *)
Theorem save_then_delete (stringify : list HistoryItem -> string)
    (item : HistoryItem) (s : state) :
  Forall (fun old => id old <> id item) (history s) ->
  history (deleteHistoryItem stringify (id item) (saveToHistory stringify item s))
  = take 19 (history s).
Proof.
  intros Hfresh. cbn [deleteHistoryItem saveToHistory history].
  change (take 20 (item :: history s)) with (item :: take 19 (history s)).
  cbn [List.filter]. rewrite String.eqb_refl. cbn [negb].
  apply Base64Facts.filter_all. apply forallb_forall. intros old Hin.
  apply list_elem_of_In, elem_of_take in Hin as (i & Hi & _).
  rewrite Forall_lookup in Hfresh. specialize (Hfresh _ _ Hi).
  apply negb_true_iff, String.eqb_neq. exact Hfresh.
Qed.

Lemma save_then_delete_witness :
  history (deleteHistoryItem write_ids (id second_item)
             (saveToHistory write_ids second_item
                (saveToHistory write_ids first_item initial)))
  = take 19 (history (saveToHistory write_ids first_item initial)).
Proof.
  apply (save_then_delete write_ids second_item
           (saveToHistory write_ids first_item initial)).
  repeat constructor. vm_compute. discriminate.
Defined.

End HistoryFacts.

(** ** Files and durations *)

Module FilesFacts.
Import Text Media Gemini Files TextFacts.

Lemma fileSizeMB_le (file : File) :
  Qle_bool (fileSizeMB file) MAX_FILE_SIZE_MB = true <-> file_size file <= 20971520.
Proof.
  rewrite Qle_bool_iff. unfold fileSizeMB, MAX_FILE_SIZE_MB.
  change (inject_Z (1024 * 1024)) with (1048576 # 1).
  unfold Qle, Qdiv, Qmult, Qinv. cbn. lia.
Qed.

(** X12: a file is read exactly when its type starts with [video/] or
    [audio/] and it has at most 20 * 1024 * 1024 bytes; the type is
    checked first. *)
Theorem processFile_accepts (file : File) :
  (processFile file = Reading <->
   (startsWith "video/" (file_type file) = true \/
    startsWith "audio/" (file_type file) = true) /\
   file_size file <= 20971520) /\
  ((exists type, processFile file = InvalidFileType type) <->
   startsWith "video/" (file_type file) = false /\
   startsWith "audio/" (file_type file) = false).
Proof.
  unfold processFile.
  destruct (startsWith "video/" (file_type file)),
           (startsWith "audio/" (file_type file)); cbn [negb andb].
  4: { split; split; try (intros H; discriminate H).
       - intros [[H | H] _]; discriminate H.
       - intros _. now split.
       - intros _. eexists. reflexivity. }
  all: destruct (Qle_bool (fileSizeMB file) MAX_FILE_SIZE_MB) eqn:Hq; cbn [negb].
  all: split; split.
  all: try (intros [type H]; discriminate H).
  all: try (intros [H1 H2]; discriminate).
  all: try (intros H; discriminate H).
  all: try (intros _; split; [auto | now apply fileSizeMB_le]).
  all: intros [_ H]; apply fileSizeMB_le in H; congruence.
Qed.

Lemma processFile_accepts_witness : processFile clip_file = Reading.
Proof.
  apply (proj2 (proj1 (processFile_accepts clip_file))).
  split; [left; reflexivity | cbn; lia].
Defined.

Lemma free_of_append (sep : ascii) (a b : string) :
  free_of sep a -> free_of sep b -> free_of sep (a ++ b).
Proof.
  unfold free_of. induction a as [| c a IH]; cbn; [auto |].
  intros Ha Hb. inversion Ha; subst. constructor; auto.
Qed.

Lemma free_of_string_of_list (sep : ascii) (l : list ascii) :
  Forall (fun c => Ascii.eqb c sep = false) l -> free_of sep (string_of_list_ascii l).
Proof. unfold free_of. now rewrite list_ascii_of_string_of_list_ascii. Qed.

Lemma digit_not_comma (v : Z) :
  Base64.is_sextet v -> Ascii.eqb (Base64.digit v) ","%char = false.
Proof.
  intros Hv. destruct (Base64Facts.sextet_cases v Hv) as [Hin ->].
  assert (H : forallb (fun n => negb (Ascii.eqb (Base64.digit (Z.of_nat n)) ","%char))
                (seq 0 64) = true) by (vm_compute; reflexivity).
  rewrite forallb_forall in H. apply negb_true_iff. now apply H.
Qed.

(** The text of [btoa] has no comma. *)
Lemma btoa_free_of_comma (binary : string) : free_of ","%char (Base64.btoa binary).
Proof.
  unfold Base64.btoa. apply free_of_string_of_list. apply Forall_app. split.
  - apply Forall_map.
    eapply Forall_impl; [apply Base64Facts.sextets_range |].
    + apply Forall_map, Forall_forall. intros c _. apply Base64Facts.charCode_byte.
    + intros v Hv. now apply digit_not_comma.
  - unfold Base64.padding. apply Forall_replicate. reflexivity.
Qed.

Lemma split_payload (header payload : string) :
  free_of ","%char header -> free_of ","%char payload ->
  base64_of_result (header ++ String ","%char payload) = Some payload.
Proof.
  intros Hh Hp. unfold base64_of_result. now rewrite split_append, split_free.
Qed.

(** X13: [result.split(',')[1]] is the text between the first comma and the
    second one, or the end: the payload of a data URL whose header has no
    comma, and nothing ([undefined]) when there is no comma at all. *)
Theorem base64_of_result_payload (header payload : string) :
  free_of ","%char header ->
  base64_of_result header = None /\
  (free_of ","%char payload ->
   base64_of_result (header ++ String ","%char payload) = Some payload) /\
  (forall rest : string,
     free_of ","%char payload ->
     base64_of_result (header ++ String ","%char (payload ++ String ","%char rest))
     = Some payload).
Proof.
  intros Hh. unfold base64_of_result. split; [| split].
  - now rewrite split_free.
  - intros Hp. now apply split_payload.
  - intros rest Hp. now rewrite split_append, split_append.
Qed.

Lemma base64_of_result_payload_witness :
  base64_of_result "data:video/mp4;base64" = None /\
  (free_of ","%char "AAEC" ->
   base64_of_result ("data:video/mp4;base64" ++ String ","%char "AAEC") = Some "AAEC"%string) /\
  (forall rest : string,
     free_of ","%char "AAEC" ->
     base64_of_result ("data:video/mp4;base64"
                       ++ String ","%char ("AAEC" ++ String ","%char rest))
     = Some "AAEC"%string).
Proof.
  apply (base64_of_result_payload "data:video/mp4;base64" "AAEC").
  repeat constructor.
Defined.

Lemma readAsDataURL_split (type content : string) :
  free_of ","%char type ->
  base64_of_result (readAsDataURL type content) = Some (Base64.btoa content).
Proof.
  intros Ht. unfold readAsDataURL.
  change ("data:" ++ type ++ ";base64," ++ Base64.btoa content)%string
    with ("data:" ++ (type ++ (";base64" ++ String ","%char (Base64.btoa content))))%string.
  rewrite <- !AppFacts.append_assoc.
  apply split_payload.
  - repeat apply free_of_append; try assumption; repeat constructor.
  - apply btoa_free_of_comma.
Qed.

Lemma btoa_empty_iff (content : string) :
  Base64.btoa content = EmptyString <-> content = EmptyString.
Proof.
  split; [| now intros ->].
  intros H. apply (f_equal String.length) in H.
  destruct content as [| c content]; [reflexivity |].
  exfalso. revert H. unfold Base64.btoa.
  rewrite SpeechFacts.length_string_of_list_ascii, length_app.
  cbn [list_ascii_of_string map].
  destruct (map Base64.charCode (list_ascii_of_string content)) as [| b [| b' l]];
    cbn; discriminate.
Qed.

Lemma accepted_type (file : File) :
  processFile file = Reading -> file_type file <> EmptyString.
Proof.
  unfold processFile. intros H E. rewrite E in H. discriminate H.
Qed.

(** X14: an accepted file that is not empty is sent to the model as inline
    data, under its own type, with the prompt of the mode and without the
    search tool; the data are the base64 text of its content, from which
    [atob] gives the content back. *)
Theorem upload_is_sent_inline (file : File) (uuid blobUrl content : string)
    (mode : App.SummaryMode) (tier : ProcessingTier) :
  processFile file = Reading ->
  free_of ","%char (file_type file) ->
  content <> EmptyString ->
  exists r : Request,
    build_request (onload file uuid blobUrl (readAsDataURL (file_type file) content))
                  mode tier = inr r /\
    parts r = [InlineData (file_type file) (Base64.btoa content);
               TextPart (getPromptForMode mode)] /\
    googleSearch (config r) = false /\
    Base64.atob (Base64.btoa content) = Some content.
Proof.
  intros Hacc Hfree Hne.
  pose proof (accepted_type file Hacc) as Htype.
  assert (Hdata : Base64.btoa content <> EmptyString).
  { now rewrite btoa_empty_iff. }
  eexists. split; [| split; [| split]].
  - apply (GeminiFacts.build_request_inline _ (Base64.btoa content) (file_type file));
      try assumption; [| reflexivity].
    cbn [onload base64Data]. now apply readAsDataURL_split.
  - reflexivity.
  - reflexivity.
  - apply Base64Facts.atob_btoa.
Qed.

Lemma upload_is_sent_inline_witness :
  exists r : Request,
    build_request (onload clip_file "1" "blob:1" (readAsDataURL "video/mp4" "abc"))
                  App.TRANSCRIPT BALANCED = inr r /\
    parts r = [InlineData "video/mp4" (Base64.btoa "abc");
               TextPart (getPromptForMode App.TRANSCRIPT)] /\
    googleSearch (config r) = false /\
    Base64.atob (Base64.btoa "abc") = Some "abc"%string.
Proof.
  apply (upload_is_sent_inline clip_file "1" "blob:1" "abc" App.TRANSCRIPT BALANCED).
  - reflexivity.
  - repeat constructor.
  - discriminate.
Defined.

(** X15: an empty file passes the checks of [processFile] when its type is
    right, but what is read from it carries no data: the summary is
    refused as an invalid source, whatever the service would answer. *)
Theorem empty_upload_is_rejected (file : File) (uuid blobUrl : string)
    (generateContent : Request -> ApiOutcome) (mode : App.SummaryMode)
    (tier : ProcessingTier) :
  free_of ","%char (file_type file) ->
  base64Data (onload file uuid blobUrl (readAsDataURL (file_type file) EmptyString))
  = Some EmptyString /\
  generateVideoSummary (inr generateContent)
    (onload file uuid blobUrl (readAsDataURL (file_type file) EmptyString)) mode tier
  = Rejected invalid_source.
Proof.
  intros Hfree.
  assert (Hd : base64Data (onload file uuid blobUrl
                             (readAsDataURL (file_type file) EmptyString))
               = Some EmptyString).
  { cbn [onload base64Data]. now rewrite readAsDataURL_split. }
  split; [exact Hd |].
  apply GeminiFacts.no_source_is_rejected; [now rewrite Hd | reflexivity].
Qed.

Lemma empty_upload_is_rejected_witness :
  processFile {| file_name := "empty.mp4"; file_type := "video/mp4"; file_size := 0 |}
  = Reading /\
  generateVideoSummary (inr (fun _ => ApiResponse (Some "A summary."%string)))
    (onload {| file_name := "empty.mp4"; file_type := "video/mp4"; file_size := 0 |}
            "1" "blob:1" (readAsDataURL "video/mp4" EmptyString))
    App.TRANSCRIPT BALANCED
  = Rejected invalid_source.
Proof.
  split; [reflexivity |].
  apply (empty_upload_is_rejected
           {| file_name := "empty.mp4"; file_type := "video/mp4"; file_size := 0 |}
           "1" "blob:1" (fun _ => ApiResponse (Some "A summary."%string))
           App.TRANSCRIPT BALANCED).
  repeat constructor.
Defined.

(** *** [formatDuration] *)

Lemma string_of_uint_free (d : Decimal.uint) :
  free_of ":"%char (NilEmpty.string_of_uint d).
Proof. induction d; cbn; constructor; solve [reflexivity | assumption]. Qed.

Lemma toString_free (n : nat) : free_of ":"%char (toString n).
Proof.
  unfold toString, NilZero.string_of_uint.
  destruct (Nat.to_uint n); try apply string_of_uint_free. repeat constructor.
Qed.

Lemma toString_read (n : nat) :
  NilZero.uint_of_string (toString n) = Some (Nat.to_uint n).
Proof.
  unfold toString. apply NilZero.usu.
  intros H. pose proof (DecimalNat.Unsigned.of_to n) as Hn. rewrite H in Hn.
  destruct n; [discriminate H | discriminate Hn].
Qed.

Lemma seconds_read (k : nat) : (k < 60)%nat -> seconds_ok k = true.
Proof.
  intros Hk.
  assert (H : forallb seconds_ok (seq 0 60) = true) by (vm_compute; reflexivity).
  rewrite forallb_forall in H. apply H, in_seq. lia.
Qed.

(** X16: a displayed duration is the minutes, a colon and the seconds on
    exactly two digits; reading the two numbers back gives the duration, so
    that two durations are never displayed alike. *)
Theorem formatDuration_reads_back (seconds : nat) :
  parseDuration (formatDuration seconds) = Some seconds /\
  exists secs : string,
    formatDuration seconds = (toString (seconds / 60) ++ ":" ++ secs)%string /\
    String.length secs = 2%nat.
Proof.
  pose proof (seconds_read (seconds mod 60)) as Hs.
  specialize (Hs (Nat.mod_upper_bound seconds 60 ltac:(lia))).
  unfold seconds_ok in Hs. apply andb_prop in Hs as [Hs Hread].
  apply andb_prop in Hs as [Hlen Hfree].
  split.
  - unfold parseDuration, formatDuration.
    change (toString (seconds / 60) ++ ":" ++ ?s)%string
      with (toString (seconds / 60) ++ String ":"%char s)%string.
    rewrite split_append by apply toString_free.
    rewrite split_free.
    + rewrite toString_read.
      destruct (NilZero.uint_of_string _) as [d |]; [| discriminate].
      apply Nat.eqb_eq in Hread. rewrite Hread, DecimalNat.Unsigned.of_to.
      f_equal. pose proof (Nat.div_mod_eq seconds 60). lia.
    + unfold free_of. apply Forall_forall. intros c Hc.
      rewrite forallb_forall in Hfree. apply negb_true_iff, Hfree.
      now apply list_elem_of_In.
  - eexists. split; [reflexivity |]. now apply Nat.eqb_eq.
Qed.

End FilesFacts.



(** ** The selection, the requests and the history *)

Module AppHistoryFacts.
Import Text Media AppHistory.

Lemma app_run_snoc (es : list App.event) (e : App.event) (s : App.state) :
  App.run (es ++ [e]) s = App.step e (App.run es s).
Proof. unfold App.run. now rewrite fold_left_app. Qed.

Lemma app_run_app (es1 es2 : list App.event) (s : App.state) :
  App.run (es1 ++ es2) s = App.run es2 (App.run es1 s).
Proof. unfold App.run. now rewrite fold_left_app. Qed.

Lemma step_keeps_current (e : App.event) (s : App.state) :
  selects e = false -> App.currentVideoId (App.step e s) = App.currentVideoId s.
Proof.
  destruct e; cbn; try discriminate; try reflexivity; intros _.
  - unfold App.summaryResolved. now destruct (App.is_current vid s).
  - unfold App.summaryRejected. now destruct (App.is_current vid s).
  - unfold App.handleGenerate. now destruct (App.video s).
Qed.

Lemma run_keeps_current (es : list App.event) (s : App.state) :
  forallb (fun e => negb (selects e)) es = true ->
  App.currentVideoId (App.run es s) = App.currentVideoId s.
Proof.
  revert s. induction es as [| e es IH]; intros s H; [reflexivity |].
  cbn in H. apply andb_prop in H as [He Hes]. apply negb_true_iff in He.
  rewrite AppFacts.run_cons, IH by assumption. now apply step_keeps_current.
Qed.

(** X17: the summary requested when a video was selected is dropped, and so
    is its failure, when it arrives after the selection was cleared or
    another video was selected, whatever else happened since. *)
Theorem stale_summary_is_dropped (vid : string) (before after : list App.event)
    (e : App.event) (s : App.state) :
  (e = App.Clear \/ exists data, e = App.VideoSelect data /\ App.id data <> vid) ->
  forallb (fun e => negb (selects e)) after = true ->
  forall text : string,
    App.run (before ++ e :: after ++ [App.SummaryResolved vid text]) s
    = App.run (before ++ e :: after) s /\
    App.run (before ++ e :: after ++ [App.SummaryRejected vid text]) s
    = App.run (before ++ e :: after) s.
Proof.
  intros He Hafter text.
  assert (Hcur : App.is_current vid (App.run (before ++ e :: after) s) = false).
  { unfold App.is_current. rewrite app_run_app, AppFacts.run_cons.
    rewrite run_keeps_current by assumption.
    destruct He as [-> | (data & -> & Hid)]; [reflexivity |].
    cbn. now apply String.eqb_neq. }
  change (before ++ e :: after ++ [?x]) with (before ++ (e :: after) ++ [x]).
  rewrite !app_assoc, !app_run_snoc.
  cbn [App.step]. unfold App.summaryResolved, App.summaryRejected.
  now rewrite Hcur.
Qed.

Lemma stale_summary_is_dropped_witness :
  App.run ([App.VideoSelect (to_app clip)] ++ App.Clear
           :: [App.LiveStart] ++ [App.SummaryResolved "1" "A late summary."]) App.initial
  = App.run ([App.VideoSelect (to_app clip)] ++ App.Clear :: [App.LiveStart])
            App.initial /\
  App.run ([App.VideoSelect (to_app clip)] ++ App.Clear
           :: [App.LiveStart] ++ [App.SummaryRejected "1" "A late summary."]) App.initial
  = App.run ([App.VideoSelect (to_app clip)] ++ App.Clear :: [App.LiveStart])
            App.initial.
Proof.
  apply (stale_summary_is_dropped "1" [App.VideoSelect (to_app clip)]
           [App.LiveStart] App.Clear App.initial).
  - left. reflexivity.
  - reflexivity.
Defined.

(** X18: restoring an item of the history does not make the restored video
    the current one: the summary still awaited for the video selected
    before replaces the restored result, under the restored video. *)
Theorem restored_result_is_overwritten (data : App.VideoData)
    (item : App.HistoryItem) (between : list App.event) (text : string)
    (s : App.state) :
  forallb (fun e => negb (selects e)) between = true ->
  let s' := App.run (App.VideoSelect data :: between
                     ++ [App.RestoreHistory item;
                         App.SummaryResolved (App.id data) text]) s in
  App.video s'
  = Some {| App.id := App.item_id item; App.sourceType := App.item_sourceType item;
            App.name := App.item_videoName item |} /\
  App.mode s' = App.item_mode item /\
  App.analysis s'
  = {| App.isLoading := false; App.error := None; App.result := Some text |}.
Proof.
  intros Hb s'. subst s'.
  rewrite AppFacts.run_cons, app_run_app. cbn [App.step].
  assert (Hcur : App.currentVideoId (App.run between (App.handleVideoSelect data s))
                 = Some (App.id data)).
  { now rewrite run_keeps_current. }
  remember (App.run between (App.handleVideoSelect data s)) as s1 eqn:E. clear E.
  cbn. unfold App.summaryResolved, App.is_current. cbn. rewrite Hcur.
  rewrite String.eqb_refl. repeat split.
Qed.

Lemma restored_result_is_overwritten_witness :
  App.analysis
    (App.run (App.VideoSelect (to_app clip) :: [App.SetMode App.SENTIMENT]
              ++ [App.RestoreHistory (app_item History.second_item);
                  App.SummaryResolved "1" "A late summary."]) App.initial)
  = {| App.isLoading := false; App.error := None;
       App.result := Some "A late summary."%string |}.
Proof.
  apply (restored_result_is_overwritten (to_app clip) (app_item History.second_item)
           [App.SetMode App.SENTIMENT] "A late summary." App.initial).
  reflexivity.
Defined.

Lemma summaryRejected_stale (vid message : string) (a : App.state) :
  App.is_current vid a = false -> App.summaryRejected vid message a = a.
Proof. unfold App.summaryRejected. now intros ->. Qed.

Lemma stale_settled (stringify : list History.HistoryItem -> string)
    (ai : Gemini.Client) (uuid : string) (now : Z) (r : request) (s : state) :
  App.is_current (id (req_video r)) (app s) = false ->
  summarySettled stringify ai uuid now r s = s.
Proof.
  intros Hcur. unfold summarySettled.
  destruct (Gemini.generateVideoSummary _ _ _ _) as [text | message].
  - now rewrite Hcur.
  - unfold set_app. rewrite summaryRejected_stale by assumption. now destruct s.
Qed.

(** X19: when the selection is cleared, or another video selected, before
    the summary requested by a selection settles, the summary changes
    nothing when it arrives: neither it nor its failure is shown, and it
    is not saved to the history. *)
Theorem replaced_summary_is_not_saved (stringify : list History.HistoryItem -> string)
    (ai : Gemini.Client) (uuid : string) (now : Z) (data next : VideoData)
    (captured later : ProcessingTier) (s : state) :
  id next <> id data ->
  summarySettled stringify ai uuid now (snd (handleVideoSelect captured data s))
    (handleClear (fst (handleVideoSelect captured data s)))
  = handleClear (fst (handleVideoSelect captured data s)) /\
  summarySettled stringify ai uuid now (snd (handleVideoSelect captured data s))
    (fst (handleVideoSelect later next (fst (handleVideoSelect captured data s))))
  = fst (handleVideoSelect later next (fst (handleVideoSelect captured data s))).
Proof.
  intros Hid. split; apply stale_settled; [reflexivity |].
  cbn. now apply String.eqb_neq.
Qed.

Lemma replaced_summary_is_not_saved_witness :
  summarySettled History.write_ids
    (inr (fun _ => Gemini.ApiResponse (Some "A summary."%string))) "h1" 1
    (snd (handleVideoSelect BALANCED clip initial))
    (handleClear (fst (handleVideoSelect BALANCED clip initial)))
  = handleClear (fst (handleVideoSelect BALANCED clip initial)) /\
  summarySettled History.write_ids
    (inr (fun _ => Gemini.ApiResponse (Some "A summary."%string))) "h1" 1
    (snd (handleVideoSelect BALANCED clip initial))
    (fst (handleVideoSelect FAST clip_with_url
            (fst (handleVideoSelect BALANCED clip initial))))
  = fst (handleVideoSelect FAST clip_with_url
           (fst (handleVideoSelect BALANCED clip initial))).
Proof.
  apply (replaced_summary_is_not_saved History.write_ids
           (inr (fun _ => Gemini.ApiResponse (Some "A summary."%string))) "h1" 1
           clip clip_with_url BALANCED FAST initial).
  discriminate.
Defined.

(** X20: when the summary requested by a selection settles while the video
    is still the current one, the analysis stops loading and shows either
    the summary, which is then not empty and saved first in the history
    with the default mode of the source, or the message of the error, which
    is the one [generateVideoSummary] gave and never the fallback
    ["Auto-generation failed."]; a failure leaves the history as it was.
    The tier of the request and of the saved item is the one that the
    handler captured, whatever the tier of the state is at the call. *)
Theorem auto_summary_outcome (stringify : list History.HistoryItem -> string)
    (ai : Gemini.Client) (uuid : string) (now : Z) (captured : ProcessingTier)
    (data : VideoData) (s : state) :
  let s1 := fst (handleVideoSelect captured data s) in
  let r := snd (handleVideoSelect captured data s) in
  let s2 := summarySettled stringify ai uuid now r s1 in
  App.analysis (app s1)
  = {| App.isLoading := true; App.error := None; App.result := None |} /\
  tier s1 = tier s /\
  match Gemini.generateVideoSummary ai data (App.defaultMode (sourceType data)) captured
  with
  | Gemini.Resolved text =>
      text <> EmptyString /\
      App.analysis (app s2)
      = {| App.isLoading := false; App.error := None; App.result := Some text |} /\
      History.history (saved s2)
      = take 20 (new_item uuid now r text :: History.history (saved s)) /\
      History.mode (new_item uuid now r text) = App.defaultMode (sourceType data) /\
      History.tier (new_item uuid now r text) = captured
  | Gemini.Rejected message =>
      message <> EmptyString /\
      App.analysis (app s2)
      = {| App.isLoading := false; App.error := Some message; App.result := None |} /\
      saved s2 = saved s
  end.
Proof.
  intros s1 r s2. split; [reflexivity |]. split; [reflexivity |].
  pose proof (GeminiFacts.settlement_not_empty ai data
                (App.defaultMode (sourceType data)) captured) as Hne.
  subst s2 r s1. unfold summarySettled.
  cbn [handleVideoSelect fst snd req_video req_mode req_tier].
  destruct (Gemini.generateVideoSummary _ _ _ _) as [text | message].
  - unfold App.is_current, App.summaryResolved, App.is_current.
    cbn. rewrite String.eqb_refl. cbn. rewrite String.eqb_refl. repeat split.
    exact Hne.
  - rewrite GeminiFacts.or_else_some by assumption.
    unfold App.summaryRejected, App.is_current.
    cbn. rewrite String.eqb_refl. repeat split. exact Hne.
Qed.

(** A selection made through a handler that captured the fast tier, in a
    state whose tier has since become the thinking one: the request and
    the saved item carry the fast tier. *)
Example stale_tier_scenario :
  req_tier (snd (handleVideoSelect FAST clip (setTier THINKING initial))) = FAST /\
  tier (fst (handleVideoSelect FAST clip (setTier THINKING initial))) = THINKING /\
  option_map History.tier
    (head (History.history
             (saved (summarySettled History.write_ids
                       (inr (fun _ => Gemini.ApiResponse (Some "A summary."%string)))
                       "h1" 1
                       (snd (handleVideoSelect FAST clip (setTier THINKING initial)))
                       (fst (handleVideoSelect FAST clip (setTier THINKING initial)))))))
  = Some FAST.
Proof. repeat split. Qed.

(** X21: after an item of an uploaded file was restored from the history,
    asking for a new summary fails, because the restored video has neither
    data nor a URL: the restored result is replaced by the error of an
    invalid source, whatever the service would answer. *)
Theorem regenerate_restored_upload (stringify : list History.HistoryItem -> string)
    (generateContent : Gemini.Request -> Gemini.ApiOutcome) (uuid : string) (now : Z)
    (ytId : option string) (item : History.HistoryItem) (s : state) :
  truthy (History.url item) = false ->
  let s1 := restoreHistoryItem ytId item s in
  App.result (App.analysis (app s1)) = Some (History.resultText item) /\
  exists r : request,
    snd (handleGenerate s1) = Some r /\
    App.analysis
      (app (generateSettled stringify (inr generateContent) uuid now r
              (fst (handleGenerate s1))))
    = {| App.isLoading := false; App.error := Some Gemini.invalid_source;
         App.result := None |} /\
    saved (generateSettled stringify (inr generateContent) uuid now r
             (fst (handleGenerate s1))) = saved s.
Proof.
  intros Hurl s1. split; [reflexivity |].
  eexists. split; [reflexivity |].
  unfold generateSettled. cbn [req_video req_mode req_tier].
  rewrite GeminiFacts.no_source_is_rejected; [| reflexivity | exact Hurl].
  split; reflexivity.
Qed.

Lemma regenerate_restored_upload_witness :
  exists r : request,
    snd (handleGenerate (restoreHistoryItem None History.first_item initial)) = Some r /\
    App.analysis
      (app (generateSettled History.write_ids
              (inr (fun _ => Gemini.ApiResponse (Some "A summary."%string))) "h3" 3 r
              (fst (handleGenerate (restoreHistoryItem None History.first_item initial)))))
    = {| App.isLoading := false; App.error := Some Gemini.invalid_source;
         App.result := None |} /\
    saved (generateSettled History.write_ids
             (inr (fun _ => Gemini.ApiResponse (Some "A summary."%string))) "h3" 3 r
             (fst (handleGenerate (restoreHistoryItem None History.first_item initial))))
    = saved initial.
Proof.
  apply (regenerate_restored_upload History.write_ids
           (fun _ => Gemini.ApiResponse (Some "A summary."%string)) "h3" 3 None
           History.first_item initial).
  reflexivity.
Defined.

(** X22: the summary asked for with the button is shown and saved when it
    arrives, whatever the state has become in the meantime (the selection
    cleared, another item restored, the mode changed): the item saved has
    the name of the video, the mode and the tier of the moment the button
    was pressed. *)
Theorem generate_is_not_guarded (stringify : list History.HistoryItem -> string)
    (ai : Gemini.Client) (uuid : string) (now : Z) (v : VideoData) (text : string)
    (s later : state) :
  video s = Some v ->
  Gemini.generateVideoSummary ai v (App.mode (app s)) (tier s) = Gemini.Resolved text ->
  exists r : request,
    snd (handleGenerate s) = Some r /\
    App.analysis (app (generateSettled stringify ai uuid now r later))
    = {| App.isLoading := false; App.error := None; App.result := Some text |} /\
    video (generateSettled stringify ai uuid now r later) = video later /\
    History.history (saved (generateSettled stringify ai uuid now r later))
    = take 20 (new_item uuid now r text :: History.history (saved later)) /\
    History.videoName (new_item uuid now r text) = name v /\
    History.mode (new_item uuid now r text) = App.mode (app s) /\
    History.tier (new_item uuid now r text) = tier s.
Proof.
  intros Hv Hgen. unfold handleGenerate. rewrite Hv. cbn [snd fst].
  eexists. split; [reflexivity |].
  unfold generateSettled. cbn [req_video req_mode req_tier]. rewrite Hgen.
  repeat split.
Qed.

Lemma generate_is_not_guarded_witness :
  exists r : request,
    snd (handleGenerate (fst (handleVideoSelect BALANCED clip initial))) = Some r /\
    App.analysis
      (app (generateSettled History.write_ids
              (inr (fun _ => Gemini.ApiResponse (Some "A summary."%string))) "h1" 1 r
              (setMode App.SENTIMENT (handleClear initial))))
    = {| App.isLoading := false; App.error := None;
         App.result := Some "A summary."%string |} /\
    video (generateSettled History.write_ids
             (inr (fun _ => Gemini.ApiResponse (Some "A summary."%string))) "h1" 1 r
             (setMode App.SENTIMENT (handleClear initial)))
    = video (setMode App.SENTIMENT (handleClear initial)) /\
    History.history
      (saved (generateSettled History.write_ids
                (inr (fun _ => Gemini.ApiResponse (Some "A summary."%string))) "h1" 1 r
                (setMode App.SENTIMENT (handleClear initial))))
    = take 20 (new_item "h1" 1 r "A summary."
               :: History.history (saved (setMode App.SENTIMENT (handleClear initial)))) /\
    History.videoName (new_item "h1" 1 r "A summary.") = name clip /\
    History.mode (new_item "h1" 1 r "A summary.") = App.TRANSCRIPT /\
    History.tier (new_item "h1" 1 r "A summary.") = BALANCED.
Proof.
  apply (generate_is_not_guarded History.write_ids
           (inr (fun _ => Gemini.ApiResponse (Some "A summary."%string))) "h1" 1
           clip "A summary." (fst (handleVideoSelect BALANCED clip initial))
           (setMode App.SENTIMENT (handleClear initial)));
    reflexivity.
Defined.

End AppHistoryFacts.

(** ** The stream of frames and of transcriptions *)

Module StreamFacts.
Import Encoder World Live Logic LiveFacts.


Lemma tasks_cons (e : event) (es : list event) (w w' : world) :
  task e w = (Ok tt, w') -> tasks (e :: es) w = tasks es w'.
Proof. intros H. cbn [tasks]. unfold bind. now rewrite H. Qed.

Lemma tasks_app (es1 es2 : list event) (w w' : world) :
  tasks es1 w = (Ok tt, w') -> tasks (es1 ++ es2) w = tasks es2 w'.
Proof.
  revert w. induction es1 as [| e es1 IH]; intros w H.
  - cbn in H. now injection H as <-.
  - cbn [tasks List.app] in *. unfold bind in *.
    destruct (task e w) as [[[] | ex] w1]; [| discriminate]. now apply IH.
Qed.

(** A frame captured once the handshake is over is sent in the task that
    captured it. *)
Lemma frame_sent (n this p : nat) (opened : bool) (frame : list spec_float)
    (w : world) :
  microtasks w = [] ->
  audio_handler w n = Some this ->
  held_promise w this = Some p ->
  promise_state_of w p = Some (Fulfilled opened) ->
  task (AudioProcess n frame) w
  = (Ok tt, set_log (fun l => l ++ [SendRealtimeInput p (createBlob frame)]) w).
Proof.
  intros Hm Hh Hp Hst.
  assert (H : wp (task (AudioProcess n frame))
                (fun _ w' =>
                   w' = set_log (fun l => l ++ [SendRealtimeInput p (createBlob frame)]) w)
                no_throw w).
  { unfold task, held_promise in *.
    repeat first [wp_step | progress wsimpl | rewrite Hh | rewrite Hp | rewrite Hst
                 | rewrite Hm | progress unfold onaudioprocess_handler ].
    destruct w as [ps mt ts prs cs a u l]. cbn in Hm. subst mt. reflexivity. }
  apply wp_unit in H as (w' & Hrun & ->). exact Hrun.
Qed.

(** X23: once the handshake is over, the frames are sent in the order of
    their capture, each one in its own task and as [createBlob] encodes
    it; nothing else reaches the host and nothing is left waiting. *)
Theorem frames_are_sent_in_order (n this p : nat) (opened : bool)
    (frames : list (list spec_float)) (w : world) :
  microtasks w = [] ->
  audio_handler w n = Some this ->
  held_promise w this = Some p ->
  promise_state_of w p = Some (Fulfilled opened) ->
  exists w' : world,
    tasks (map (AudioProcess n) frames) w = (Ok tt, w') /\
    log w' = log w ++ map (fun f => SendRealtimeInput p (createBlob f)) frames /\
    sent (log w') = sent (log w) ++ map createBlob frames /\
    queued w' = queued w.
Proof.
  revert w. induction frames as [| f frames IH]; intros w Hm Hh Hp Hst.
  - exists w. cbn. now rewrite !app_nil_r.
  - pose proof (frame_sent n this p opened f w Hm Hh Hp Hst) as Hf.
    destruct (IH (set_log (fun l => l ++ [SendRealtimeInput p (createBlob f)]) w))
      as (w' & Hrun & Hlog & Hsent & Hq); try assumption.
    exists w'. split; [| split; [| split]].
    + cbn [map]. now rewrite (tasks_cons _ _ _ _ Hf).
    + rewrite Hlog. cbn. now rewrite <- app_assoc.
    + rewrite Hsent. cbn [log set_log]. rewrite sent_app. cbn.
      now rewrite <- app_assoc.
    + exact Hq.
Qed.

Lemma frames_are_sent_in_order_witness :
  exists w' : world,
    tasks (map (AudioProcess 0) [[one_half]; [minus_one]]) capturing_world = (Ok tt, w') /\
    log w' = log capturing_world
             ++ map (fun f => SendRealtimeInput 0 (createBlob f)) [[one_half]; [minus_one]] /\
    sent (log w') = sent (log capturing_world)
                    ++ map createBlob [[one_half]; [minus_one]] /\
    queued w' = queued capturing_world.
Proof.
  apply (frames_are_sent_in_order 0 0 0 true [[one_half]; [minus_one]] capturing_world);
    reflexivity.
Defined.

Lemma frames_buffered (n this p : nat) (frames : list (list spec_float)) :
  forall (rs : list reaction) (w : world),
  microtasks w = [] ->
  audio_handler w n = Some this ->
  held_promise w this = Some p ->
  promise_state_of w p = Some (Pending rs) ->
  exists w' : world,
    tasks (map (AudioProcess n) frames) w = (Ok tt, w') /\
    microtasks w' = [] /\
    audio_handler w' n = Some this /\
    held_promise w' this = Some p /\
    promise_state_of w' p
    = Some (Pending (rs ++ map (fun f => ThenSendRealtimeInput (createBlob f)) frames)) /\
    log w' = log w.
Proof.
  induction frames as [| f frames IH]; intros rs w Hm Hh Hp Hst.
  - exists w. cbn. rewrite app_nil_r. repeat split; assumption.
  - destruct (frame_buffered n this p rs f w Hm Hh Hp Hst)
      as (w1 & Hrun1 & Hm1 & Hh1 & Hp1 & Hst1 & Hlog1).
    destruct (IH _ w1 Hm1 Hh1 Hp1 Hst1) as (w' & Hrun & Hm' & Hh' & Hp' & Hst' & Hlog').
    exists w'. cbn [map]. rewrite (tasks_cons _ _ _ _ Hrun1).
    repeat split; try assumption.
    + rewrite Hst', <- app_assoc. reflexivity.
    + congruence.
Qed.

Lemma omap_reaction_chunk_map (frames : list (list spec_float)) :
  omap reaction_chunk (map (fun f => ThenSendRealtimeInput (createBlob f)) frames)
  = map createBlob frames.
Proof. induction frames as [| f frames IH]; cbn; [| rewrite IH]; reflexivity. Qed.

(** The handshake fails: what waited on the promise is dropped. *)
Lemma failed_drops (p : nat) (rs : list reaction) (w : world) :
  microtasks w = [] ->
  promise_state_of w p = Some (Pending rs) ->
  exists w' : world,
    task (SessionFailed p) w = (Ok tt, w') /\
    microtasks w' = [] /\
    promise_state_of w' p = Some Rejected /\
    transcribers w' = transcribers w /\
    log w' = log w ++ map (fun _ => UnhandledRejection p) rs.
Proof.
  intros Hm Hst. apply wp_unit. unfold task.
  unfold promise_state_of in Hst.
  destruct (promises w !! p) as [[o st] |] eqn:Ep; [| discriminate].
  cbn in Hst. injection Hst as ->.
  repeat first [wp_step | progress wsimpl | rewrite Ep | rewrite Hm
               | progress unfold promise_state_of].
  rewrite list_lookup_alter_eq, Ep. repeat split.
Qed.

Lemma sent_rejections (p : nat) {X} (rs : list X) :
  sent (map (fun _ => UnhandledRejection p) rs) = [].
Proof. induction rs; cbn; auto. Qed.

(** X24: the frames captured while the handshake is pending reach no one
    at first; when the handshake succeeds they are all sent, in the order
    of their capture, after what was already waiting. *)
Theorem buffered_frames_are_flushed (n this p : nat) (rs : list reaction)
    (frames : list (list spec_float)) (w : world) :
  microtasks w = [] ->
  audio_handler w n = Some this ->
  held_promise w this = Some p ->
  promise_state_of w p = Some (Pending rs) ->
  exists w1 w2 : world,
    tasks (map (AudioProcess n) frames) w = (Ok tt, w1) /\
    log w1 = log w /\
    tasks (map (AudioProcess n) frames ++ [SessionOpened p]) w = (Ok tt, w2) /\
    sent (log w2)
    = sent (log w) ++ omap reaction_chunk rs ++ map createBlob frames.
Proof.
  intros Hm Hh Hp Hst.
  destruct (frames_buffered n this p frames rs w Hm Hh Hp Hst)
    as (w1 & Hrun1 & Hm1 & _ & _ & Hst1 & Hlog1).
  destruct (opened_flushes p _ w1 Hm1 Hst1) as (w2 & Hrun2 & _ & Hsent).
  exists w1, w2. split; [exact Hrun1 |]. split; [exact Hlog1 |]. split.
  - rewrite (tasks_app _ _ _ _ Hrun1). cbn [tasks]. unfold bind.
    now rewrite Hrun2.
  - rewrite Hsent, Hlog1, omap_app, omap_reaction_chunk_map. reflexivity.
Qed.

Lemma buffered_frames_are_flushed_witness :
  exists w1 w2 : world,
    tasks (map (AudioProcess 0) [[one_half]; [minus_one]]) connecting_world = (Ok tt, w1) /\
    log w1 = log connecting_world /\
    tasks (map (AudioProcess 0) [[one_half]; [minus_one]] ++ [SessionOpened 0])
          connecting_world = (Ok tt, w2) /\
    sent (log w2)
    = sent (log connecting_world) ++ omap reaction_chunk []
      ++ map createBlob [[one_half]; [minus_one]].
Proof.
  apply (buffered_frames_are_flushed 0 0 0 [] [[one_half]; [minus_one]]
           connecting_world); reflexivity.
Defined.

(** X25: when the handshake fails, the frames captured while it was pending
    are never sent: each of them is left as a rejection that nothing
    handles. *)
Theorem buffered_frames_are_dropped (n this p : nat)
    (frames : list (list spec_float)) (w : world) :
  microtasks w = [] ->
  audio_handler w n = Some this ->
  held_promise w this = Some p ->
  promise_state_of w p = Some (Pending []) ->
  exists w' : world,
    tasks (map (AudioProcess n) frames ++ [SessionFailed p]) w = (Ok tt, w') /\
    session_state w' this = Errored /\
    log w' = log w ++ map (fun _ => UnhandledRejection p) frames /\
    sent (log w') = sent (log w) /\
    microtasks w' = [].
Proof.
  intros Hm Hh Hp Hst.
  destruct (frames_buffered n this p frames [] w Hm Hh Hp Hst)
    as (w1 & Hrun1 & Hm1 & _ & Hp1 & Hst1 & Hlog1).
  destruct (failed_drops p _ w1 Hm1 Hst1)
    as (w2 & Hrun2 & Hm2 & Hst2 & Hts2 & Hlog2).
  exists w2. split; [| split; [| split; [| split]]].
  - rewrite (tasks_app _ _ _ _ Hrun1). cbn [tasks]. unfold bind.
    now rewrite Hrun2.
  - unfold session_state, held_promise in *. now rewrite Hts2, Hp1, Hst2.
  - rewrite Hlog2, Hlog1. cbn [List.app]. now rewrite map_map.
  - rewrite Hlog2, sent_app, sent_rejections, app_nil_r. now rewrite Hlog1.
  - exact Hm2.
Qed.

Lemma buffered_frames_are_dropped_witness :
  exists w' : world,
    tasks (map (AudioProcess 0) [[one_half]; [minus_one]] ++ [SessionFailed 0])
          connecting_world = (Ok tt, w') /\
    session_state w' 0 = Errored /\
    log w' = log connecting_world
             ++ map (fun _ => UnhandledRejection 0) [[one_half]; [minus_one]] /\
    sent (log w') = sent (log connecting_world) /\
    microtasks w' = [].
Proof.
  apply (buffered_frames_are_dropped 0 0 0 [[one_half]; [minus_one]] connecting_world);
    reflexivity.
Defined.




End StreamFacts.

(** ** A capture, from its start to its end *)

Module CaptureFacts.
Import Encoder World Live Uploader Capture Logic UploaderFacts.

Lemma insert_snoc {X} (l : list X) (x y : X) :
  <[List.length l := y]> (l ++ [x]) = l ++ [y].
Proof. rewrite insert_app_r_alt, Nat.sub_diag by lia. reflexivity. Qed.

(** Worlds are kept as records whose fields are written out. *)
Ltac wflat :=
  cbv beta iota delta
    [set_promises set_microtasks set_transcribers set_processors set_contexts
     set_app set_ui set_log
     promises microtasks transcribers processors contexts app ui log
     onLiveUpdate onLiveStart videoRef transcriberRef mediaRecorderRef timerRef
     isRecording isLivePlayback error].

Ltac cap_run :=
  repeat first [wp_step | up_step | progress wflat | progress wsimpl | progress wlookup
               | rewrite insert_snoc
               | progress cbn [connect_opens getUserMedia_grants captureStream
                               mozCaptureStream audioTracks Nat.eqb]
               | progress unfold promise_state_of
               | progress unfold stopLiveRecording ].

Ltac wfacts :=
  unfold session_state, held_promise, held_processor, held_context, audio_handler,
    promise_state_of, ever_connected;
  repeat first [progress wflat | progress wsimpl | progress wlookup
               | rewrite insert_snoc | rewrite existsb_app
               | rewrite Nat.eqb_refl | rewrite orb_true_r
               | progress cbn [existsb] ].

Ltac cap_outcomes k o :=
  destruct o as [co gum cs' moz tracks];
  cbn [granted refused_after_connect connect_opens getUserMedia_grants captureStream
       mozCaptureStream audioTracks] in *;
  lazymatch k with
  | Recording => destruct co, gum; try discriminate
  | Playback =>
      destruct tracks as [| tracks]; destruct co, cs', moz; try discriminate
  end.

(** What a capture that starts and stops does, step by step. *)
Lemma capture_run (k : capture) (o : outcomes) (w : world) :
  microtasks w = [] ->
  onLiveUpdate (ui w) = true ->
  (k = Playback -> isLivePlayback (ui w) = false /\ videoRef (ui w) = true) ->
  granted k o = true ->
  wp (start_capture k o)
     (fun _ w1 =>
        session_state w1 (List.length (transcribers w)) = Open /\
        audio_handler w1 (List.length (processors w))
        = Some (List.length (transcribers w)) /\
        transcriberRef (ui w1) = Some (List.length (transcribers w)) /\
        capturing k (ui w1) = true /\
        wp (stop_capture k o)
           (fun _ w2 =>
              session_state w2 (List.length (transcribers w)) = Closed /\
              audio_handler w2 (List.length (processors w)) = None /\
              contexts w2 !! List.length (contexts w) = Some false /\
              transcriberRef (ui w2) = None /\
              capturing k (ui w2) = false /\
              exists l, log w2 = log w1 ++ l /\
                        omap teardown_step l = teardown_order)
           no_throw w1)
     no_throw w.
Proof.
  intros Hm Hup Hk Hg.
  destruct w as [ps mt ts prs cs a [u1 u2 u3 u4 u5 u6 u7 u8 u9] l].
  cbn in Hm, Hup, Hk. subst mt u1.
  destruct k.
  - cap_outcomes Recording o. all: destruct u2; cap_run.
    all: repeat match goal with |- _ /\ _ => split end; try (wfacts; reflexivity).
    all: unfold stop_capture; cap_run.
    all: repeat match goal with |- _ /\ _ => split end; try (wfacts; reflexivity).
    all: eexists; split; [rewrite <- !app_assoc; reflexivity | reflexivity].
  - destruct (Hk eq_refl) as [-> ->]. cap_outcomes Playback o.
    all: destruct u2; cap_run.
    all: repeat match goal with |- _ /\ _ => split end; try (wfacts; reflexivity).
    all: unfold stop_capture; cap_run.
    all: repeat match goal with |- _ /\ _ => split end; try (wfacts; reflexivity).
    all: eexists; split; [rewrite <- !app_assoc; reflexivity | reflexivity].
Qed.
(** X27: a capture that the host lets start and that is then stopped leaves
    nothing behind: while it runs the session is open, the audio callback
    is registered and the component holds the transcriber; after the stop
    the callback is gone, the audio context is closed, the session is
    closed, the component holds no transcriber and shows no capture; the
    teardown is made in the order callback, audio, session. *)
Theorem capture_is_released (k : capture) (o : outcomes) (w : world) :
  microtasks w = [] ->
  onLiveUpdate (ui w) = true ->
  (k = Playback -> isLivePlayback (ui w) = false /\ videoRef (ui w) = true) ->
  granted k o = true ->
  exists w1 w2 : world,
    start_capture k o w = (Ok tt, w1) /\
    session_state w1 (List.length (transcribers w)) = Open /\
    audio_handler w1 (List.length (processors w)) = Some (List.length (transcribers w)) /\
    transcriberRef (ui w1) = Some (List.length (transcribers w)) /\
    capturing k (ui w1) = true /\
    stop_capture k o w1 = (Ok tt, w2) /\
    session_state w2 (List.length (transcribers w)) = Closed /\
    audio_handler w2 (List.length (processors w)) = None /\
    contexts w2 !! List.length (contexts w) = Some false /\
    transcriberRef (ui w2) = None /\
    capturing k (ui w2) = false /\
    exists l : list effect,
      log w2 = log w1 ++ l /\ omap teardown_step l = teardown_order.
Proof.
  intros Hm Hup Hk Hg.
  destruct (wp_unit _ _ _ (capture_run k o w Hm Hup Hk Hg))
    as (w1 & Hrun1 & Hopen & Hh & Href & Hcap & Hstop).
  destruct (wp_unit _ _ _ Hstop) as (w2 & Hrun2 & H2).
  exists w1, w2. repeat (split; [assumption |]). exact H2.
Qed.

Lemma capture_is_released_witness :
  exists w1 w2 : world,
    start_capture Recording granting initial = (Ok tt, w1) /\
    session_state w1 (List.length (transcribers initial)) = Open /\
    audio_handler w1 (List.length (processors initial))
    = Some (List.length (transcribers initial)) /\
    transcriberRef (ui w1) = Some (List.length (transcribers initial)) /\
    capturing Recording (ui w1) = true /\
    stop_capture Recording granting w1 = (Ok tt, w2) /\
    session_state w2 (List.length (transcribers initial)) = Closed /\
    audio_handler w2 (List.length (processors initial)) = None /\
    contexts w2 !! List.length (contexts initial) = Some false /\
    transcriberRef (ui w2) = None /\
    capturing Recording (ui w2) = false /\
    exists l : list effect,
      log w2 = log w1 ++ l /\ omap teardown_step l = teardown_order.
Proof.
  apply (capture_is_released Recording granting initial); try reflexivity.
  discriminate.
Defined.

(** What a capture start leaves when the host opens the session and then
    refuses the capture. *)
Lemma refused_run (k : capture) (o : outcomes) (w : world) :
  microtasks w = [] ->
  onLiveUpdate (ui w) = true ->
  (k = Playback -> isLivePlayback (ui w) = false /\ videoRef (ui w) = true) ->
  refused_after_connect k o = true ->
  wp (start_capture k o)
     (fun _ w1 =>
        promises w1
        = promises w ++ [{| owner := List.length (transcribers w);
                            settled := Fulfilled true |}] /\
        transcribers w1
        = transcribers w ++ [{| sessionPromise := Some (List.length (promises w));
                                inputAudioContext := None;
                                scriptProcessor := None |}] /\
        microtasks w1 = [] /\
        processors w1 = processors w /\ contexts w1 = contexts w /\
        transcriberRef (ui w1) = transcriberRef (ui w) /\
        mediaRecorderRef (ui w1) = mediaRecorderRef (ui w) /\
        isRecording (ui w1) = isRecording (ui w) /\
        timerRef (ui w1) = timerRef (ui w) /\
        capturing k (ui w1) = capturing k (ui w) /\
        is_some (error (ui w1)) = true /\
        exists l, log w1 = log w ++ l /\ omap teardown_step l = [])
     no_throw w.
Proof.
  intros Hm Hup Hk Hg.
  destruct w as [ps mt ts prs cs a [u1 u2 u3 u4 u5 u6 u7 u8 u9] l].
  cbn in Hm, Hup, Hk. subst mt u1.
  destruct k.
  - cap_outcomes Recording o. all: destruct u2; cap_run.
    all: repeat match goal with |- _ /\ _ => split end; try reflexivity.
    all: eexists; split; [rewrite <- !app_assoc; reflexivity | reflexivity].
  - destruct (Hk eq_refl) as [-> ->]. cap_outcomes Playback o.
    all: destruct u2; cap_run.
    all: repeat match goal with |- _ /\ _ => split end; try reflexivity.
    all: eexists; split; [rewrite <- !app_assoc; reflexivity | reflexivity].
Qed.

(** Without a transcriber to stop, [stopLiveRecording] touches no
    session. *)
Lemma stop_without_transcriber (w : world) :
  microtasks w = [] ->
  transcriberRef (ui w) = None ->
  wp (call stopLiveRecording)
     (fun _ w' =>
        promises w' = promises w /\ transcribers w' = transcribers w /\
        exists l, log w' = log w ++ l /\ omap teardown_step l = [])
     no_throw w.
Proof.
  intros Hm Href.
  destruct w as [ps mt ts prs cs a [u1 u2 u3 u4 u5 u6 u7 u8 u9] l].
  cbn in Hm, Href. subst mt u4.
  cap_run. destruct u5, u7, u6; cap_run.
  all: repeat match goal with |- _ /\ _ => split end; try reflexivity.
  all: eexists; split;
    [rewrite <- ?app_assoc; try reflexivity; symmetry; apply app_nil_r | reflexivity].
Qed.

Lemma open_session (w : world) (t : nat) (ps : list promise)
    (ts : list LiveTranscriber) :
  promises w = ps ++ [{| owner := t; settled := Fulfilled true |}] ->
  transcribers w = ts ++ [{| sessionPromise := Some (List.length ps);
                             inputAudioContext := None; scriptProcessor := None |}] ->
  session_state w (List.length ts) = Open.
Proof.
  intros Hps Hts. unfold session_state, held_promise, promise_state_of.
  rewrite Hts, lookup_snoc. cbn. now rewrite Hps, lookup_snoc.
Qed.

(** X28: when the host opens the session and then refuses the capture (the
    microphone is denied, the element cannot be captured or has no audio
    track), the start reports an error and returns, but the session it
    opened stays open: the component does not hold the transcriber, shows
    no capture, and neither the start nor a later [stopLiveRecording]
    closes the session. *)
Theorem refused_capture_leaves_session_open (k : capture) (o : outcomes) (w : world) :
  microtasks w = [] ->
  onLiveUpdate (ui w) = true ->
  (k = Playback -> isLivePlayback (ui w) = false /\ videoRef (ui w) = true) ->
  transcriberRef (ui w) = None ->
  refused_after_connect k o = true ->
  exists w1 w2 : world,
    start_capture k o w = (Ok tt, w1) /\
    session_state w1 (List.length (transcribers w)) = Open /\
    transcriberRef (ui w1) = None /\
    capturing k (ui w1) = capturing k (ui w) /\
    is_some (error (ui w1)) = true /\
    call stopLiveRecording w1 = (Ok tt, w2) /\
    session_state w2 (List.length (transcribers w)) = Open /\
    exists l : list effect,
      log w2 = log w ++ l /\ omap teardown_step l = [].
Proof.
  intros Hm Hup Hk Href Hg.
  destruct (wp_unit _ _ _ (refused_run k o w Hm Hup Hk Hg))
    as (w1 & Hrun1 & Hps & Hts & Hm1 & _ & _ & Href1 & _ & _ & _ & Hcap & Herr
        & l1 & Hl1 & Ht1).
  rewrite Href in Href1.
  destruct (wp_unit _ _ _ (stop_without_transcriber w1 Hm1 Href1))
    as (w2 & Hrun2 & Hps2 & Hts2 & l2 & Hl2 & Ht2).
  exists w1, w2. split; [exact Hrun1 |]. split; [now apply (open_session w1 _ _ _ Hps Hts) |].
  repeat (split; [assumption |]). split.
  - rewrite Hps in Hps2. rewrite Hts in Hts2. now apply (open_session w2 _ _ _ Hps2 Hts2).
  - exists (l1 ++ l2). rewrite Hl2, Hl1, <- app_assoc. split; [reflexivity |].
    now rewrite omap_app, Ht1, Ht2.
Qed.

Lemma refused_capture_leaves_session_open_witness :
  exists w1 w2 : world,
    start_capture Recording refusing_microphone initial = (Ok tt, w1) /\
    session_state w1 (List.length (transcribers initial)) = Open /\
    transcriberRef (ui w1) = None /\
    capturing Recording (ui w1) = capturing Recording (ui initial) /\
    is_some (error (ui w1)) = true /\
    call stopLiveRecording w1 = (Ok tt, w2) /\
    session_state w2 (List.length (transcribers initial)) = Open /\
    exists l : list effect,
      log w2 = log initial ++ l /\ omap teardown_step l = [].
Proof.
  apply (refused_capture_leaves_session_open Recording refusing_microphone initial);
    try reflexivity.
  discriminate.
Defined.

End CaptureFacts.

(** ** The conversion of a sample and its sign *)

Module SampleFacts.
Import Number NumberFacts.

Lemma to_Q_opp (s : bool) (m : positive) (e : Z) :
  (to_Q (S754_finite (negb s) m e) == - to_Q (S754_finite s m e))%Q.
Proof.
  unfold to_Q. destruct s; cbn [negb cond_Zopp].
  - rewrite <- (Qopp_involutive (inject_Z (Z.pos m) * pow2Q e)) at 1.
    apply Qopp_comp. change (inject_Z (- Z.pos m)) with (- inject_Z (Z.pos m))%Q.
    ring.
  - change (inject_Z (- Z.pos m)) with (- inject_Z (Z.pos m))%Q. ring.
Qed.

(** The magnitude of the scaled sample. *)
Lemma scaled_magnitude (s : bool) (m : positive) (e : Z) :
  (inject_Z (-1) < to_Q (S754_finite s m e))%Q ->
  (to_Q (S754_finite s m e) < inject_Z 1)%Q ->
  0 <= Z.shiftl (Z.pos m) (e + 15) < 32768.
Proof.
  intros Hlo Hhi. split; [apply Z.shiftl_nonneg; lia |].
  assert (H : (to_Q (S754_finite false m e) < inject_Z 1)%Q).
  { destruct s; [| exact Hhi].
    rewrite (to_Q_opp true m e). 
    apply Qopp_lt_compat in Hlo. exact Hlo. }
  pose proof (Qtruncate_scaled false m e) as Ht. cbn [cond_Zopp] in Ht.
  rewrite <- Ht.
  apply Qtruncate_range.
  - apply Qle_trans with 0%Q; [discriminate |].
    apply Qmult_le_0_compat; [| discriminate].
    unfold to_Q. cbn [cond_Zopp]. apply Qmult_le_0_compat; [discriminate |].
    unfold pow2Q. destruct (0 <=? e); [| discriminate].
    change 0%Q with (inject_Z 0). rewrite <- Zle_Qle. apply Z.pow_nonneg. lia.
  - change (inject_Z 32768) with (inject_Z 1 * inject_Z 32768)%Q.
    apply Qmult_lt_compat_r; [reflexivity | exact H].
Qed.

(** X29: the conversion of a sample is odd: for a finite binary32 sample
    strictly between -1 and 1, the opposite sample gives the opposite
    integer, since the fraction is cut toward zero on both sides. *)
Theorem sample_int16_is_odd (x : spec_float) :
  is_float32 x = true ->
  is_finite x = true ->
  (inject_Z (-1) < to_Q x)%Q ->
  (to_Q x < inject_Z 1)%Q ->
  sample_int16 (SFopp x) = - sample_int16 x.
Proof.
  intros H32 Hfin Hlo Hhi.
  destruct x as [s | s | | s m e]; try discriminate.
  - destruct s; vm_compute; reflexivity.
  - cbn [SFopp].
    assert (Hb : bounded 24 128 m e = true) by exact H32.
    pose proof (scaled_magnitude s m e Hlo Hhi) as Hn.
    rewrite !sample_int16_finite, !Qtruncate_scaled by exact Hb.
    rewrite !wrap16_id by (destruct s; cbn [negb cond_Zopp]; lia).
    destruct s; cbn [negb cond_Zopp]; lia.
Qed.

Lemma sample_int16_is_odd_witness :
  sample_int16 (SFopp Encoder.one_half)
  = - sample_int16 Encoder.one_half.
Proof.
  apply (sample_int16_is_odd Encoder.one_half).
  - vm_compute. reflexivity.
  - reflexivity.
  - vm_compute. reflexivity.
  - vm_compute. reflexivity.
Defined.

End SampleFacts.
